(** * libmount (util-linux, RHEL backport): option strings, mount entries,
      table lookups, the table parser's error protocol and the mtab lock.

    A shallow embedding of the C sources under [shlibs/mount/src] and
    [libmount/src].  C strings are modelled as lists of characters without
    the terminating NUL; a pointer into a string is an offset from its
    first byte; a nullable [char *] is an [option]. *)

From Stdlib Require Import Ascii String List ZArith Bool Arith Lia.
From Stdlib Require Import DecimalString.
Import ListNotations.



(** ** C strings *)

Abbreviation cstring := (list ascii).

Definition cstr (s : string) : cstring := list_ascii_of_string s.
Arguments cstr s%_string.

Definition NUL : ascii := Ascii.zero.
Definition COMMA : ascii := ","%char.
Definition EQUALS : ascii := "="%char.
Definition DQUOTE : ascii := Ascii false true false false false true false false.
Definition SLASH : ascii := "/"%char.
Definition NEWLINE : ascii := Ascii false true false true false false false false.
Definition CR : ascii := Ascii true false true true false false false false.
Definition SPACE : ascii := " "%char.
Definition TAB : ascii := Ascii true false false true false false false false.
Definition HASH : ascii := "#"%char.

(** [*(s + i)]: the byte at offset [i]; the terminator is read at
    [i = strlen s]. *)
Definition char_at (s : cstring) (i : nat) : ascii := nth i s NUL.

(** [*(s + i) == 0]: a string holds no NUL before its terminator. *)
Definition at_end (s : cstring) (i : nat) : bool := length s <=? i.

Fixpoint cstring_eqb (a b : cstring) : bool :=
  match a, b with
  | [], [] => true
  | x :: a', y :: b' => Ascii.eqb x y && cstring_eqb a' b'
  | _, _ => false
  end.

(** [strcmp(a, b) == 0] *)
Definition streq (a b : cstring) : bool := cstring_eqb a b.

(** errno values of the Linux ABI used by the library. *)
Definition ENOENT : Z := 2%Z.
Definition EINTR : Z := 4%Z.
Definition EACCES : Z := 13%Z.
Definition EEXIST : Z := 17%Z.
Definition EINVAL : Z := 22%Z.
Definition ETIMEDOUT : Z := 110%Z.

(** ** optstr.c *)

(** Outputs of [mnt_optstr_parse_next]: [name], [namesz], [value] (NULL
    when the item has no [=]), [valsz] and the new [*optstr]. *)
Record mnt_optitem := {
  it_name : nat;
  it_namesz : nat;
  it_value : option nat;
  it_valsz : nat;
  it_next : nat
}.

Inductive parse_result :=
| ParseOk (r : mnt_optitem)     (* return 0 *)
| ParseEnd                      (* return 1 *)
| ParseError.                   (* return -EINVAL *)

Definition parse_rc (r : parse_result) : Z :=
  match r with
  | ParseOk _ => 0
  | ParseEnd => 1
  | ParseError => - EINVAL
  end%Z.

(** The [for (p = optstr0; p && *p; p++)] loop of [mnt_optstr_parse_next];
    [l] is the string from [p] on. *)
Fixpoint parse_loop (l : cstring) (p : nat) (start : option nat)
         (open_quote : bool) (sep : option nat) : parse_result :=
  match l with
  | [] => ParseEnd
  | c :: l' =>
      let start := match start with None => p | Some s => s end in
      let open_quote := if Ascii.eqb c DQUOTE then negb open_quote
                        else open_quote in
      if open_quote then parse_loop l' (S p) (Some start) open_quote sep
      else
        let sep := match sep with
                   | None => if Ascii.eqb c EQUALS then Some p else None
                   | Some q => Some q
                   end in
        let stop := if Ascii.eqb c COMMA then Some p
                    else match l' with
                         | [] => Some (S p)
                         | _ :: _ => None
                         end in
        match stop with
        | None => parse_loop l' (S p) (Some start) open_quote sep
        | Some stop =>
            if stop <=? start then ParseError
            else
              ParseOk {|
                it_name := start;
                it_namesz := match sep with
                             | Some q => q - start
                             | None => stop - start
                             end;
                it_value := match sep with
                            | Some q => Some (S q)
                            | None => None
                            end;
                it_valsz := match sep with
                            | Some q => stop - q - 1
                            | None => 0
                            end;
                (* *optstr = *stop ? stop + 1 : stop *)
                it_next := if Ascii.eqb c COMMA then S stop else stop
              |}
        end
  end.

(** [mnt_optstr_parse_next(&optstr, ...)] with [*optstr = buf + off]. *)
Definition mnt_optstr_parse_next (buf : cstring) (off : nat) : parse_result :=
  parse_loop (skipn off buf) off None false None.

(** [mnt_optstr_next_option]: -EINVAL for a NULL string. *)
Definition mnt_optstr_next_option (buf : option cstring) (off : nat)
  : parse_result :=
  match buf with
  | None => ParseError
  | Some b => mnt_optstr_parse_next b off
  end.

Record mnt_optloc := {
  ol_begin : nat;
  ol_end : nat;
  ol_value : option nat;
  ol_valsz : nat;
  ol_namesz : nat
}.

Inductive locate_result :=
| Located (ol : mnt_optloc)     (* return 0 *)
| NotFound                      (* return 1 *)
| LocateError.                  (* return -EINVAL *)

Definition locate_rc (r : locate_result) : Z :=
  match r with
  | Located _ => 0
  | NotFound => 1
  | LocateError => - EINVAL
  end%Z.

(** [namesz == nsz && strncmp(n, name, nsz) == 0] *)
Definition name_matches (buf : cstring) (n nsz : nat) (name : cstring) : bool :=
  (length name =? nsz) && cstring_eqb (firstn nsz (skipn n buf)) name.

(** The [do { ... } while (1)] loop of [mnt_optstr_locate_option].  Every
    successful parse moves the cursor forward, so [fuel] bounds the number
    of iterations; [None] is returned when it runs out. *)
Fixpoint locate_loop (fuel : nat) (buf : cstring) (off : nat) (name : cstring)
  : option locate_result :=
  match fuel with
  | O => None
  | S fuel' =>
      match mnt_optstr_parse_next buf off with
      | ParseOk r =>
          if name_matches buf (it_name r) (it_namesz r) name then
            Some (Located {|
              ol_begin := it_name r;
              ol_end := if Ascii.eqb (char_at buf (it_next r - 1)) COMMA
                        then it_next r - 1 else it_next r;
              ol_value := it_value r;
              ol_valsz := it_valsz r;
              ol_namesz := it_namesz r
            |})
          else locate_loop fuel' buf (it_next r) name
      | ParseEnd => Some NotFound
      | ParseError => Some LocateError
      end
  end.

Definition locate_from (buf : cstring) (off : nat) (name : cstring)
  : locate_result :=
  match locate_loop (S (length buf - off)) buf off name with
  | Some r => r
  | None => LocateError
  end.

(** [mnt_optstr_locate_option]: 1 (not found) for a NULL string. *)
Definition mnt_optstr_locate_option (optstr : option cstring) (name : cstring)
  : locate_result :=
  match optstr with
  | None => NotFound
  | Some buf => locate_from buf 0 name
  end.

(** [__mnt_optstr_append_option]; allocation is assumed to succeed. *)
Definition __mnt_optstr_append_option (optstr : option cstring)
           (name : cstring) (nsz : nat) (value : cstring) (vsz : nat)
  : cstring :=
  let old := match optstr with Some s => s | None => [] end in
  let osz := length old in
  (if osz =? 0 then [] else old ++ [COMMA])
    ++ firstn nsz name
    ++ (if vsz =? 0 then [] else EQUALS :: firstn vsz value).

(** [mnt_optstr_append_option]: returns the code and the new [*optstr]. *)
Definition mnt_optstr_append_option (optstr : option cstring)
           (name value : option cstring) : Z * option cstring :=
  match name with
  | None => (0%Z, optstr)
  | Some n =>
      let v := match value with Some v => v | None => [] end in
      (0%Z, Some (__mnt_optstr_append_option optstr n (length n) v (length v)))
  end.

(** [mnt_optstr_prepend_option] *)
Definition mnt_optstr_prepend_option (optstr : option cstring)
           (name value : option cstring) : Z * option cstring :=
  let tmp := optstr in
  let '(rc, o) := mnt_optstr_append_option None name value in
  let '(rc, o) :=
    match tmp with
    | Some (c :: t) =>
        if (rc =? 0)%Z then mnt_optstr_append_option o (Some (c :: t)) None
        else (rc, o)
    | _ => (rc, o)
    end in
  if (rc =? 0)%Z then (0%Z, o) else (rc, tmp).

(** [mnt_optstr_remove_option_at]: [b] and [e] are the offsets of [begin]
    and [end] from [*optstr].  With [b = 0] the C code evaluates
    [*(begin - 1)] on the byte in front of the string; the string itself
    is the same whatever that byte is. *)
Definition mnt_optstr_remove_option_at (buf : cstring) (b e : nat) : cstring :=
  let e := if ((b =? 0) || Ascii.eqb (char_at buf (b - 1)) COMMA)
              && Ascii.eqb (char_at buf e) COMMA
           then S e else e in
  let buf' := firstn b buf ++ skipn e buf in
  if at_end buf' b && negb (b =? 0)
     && Ascii.eqb (char_at buf' (b - 1)) COMMA
  then firstn (b - 1) buf'
  else buf'.

(** [insert_value(str, pos, substr, NULL)]; [pos] is an offset into [str]. *)
Definition insert_value (str : cstring) (pos : nat) (substr : cstring)
  : cstring :=
  let sep := negb ((0 <? pos) && Ascii.eqb (char_at str (pos - 1)) EQUALS) in
  if pos <=? length str then
    firstn pos str ++ (if sep then [EQUALS] else []) ++ substr ++ skipn pos str
  else str.

(** [mnt_optstr_get_option]: the code and the value's (offset, size). *)
Definition mnt_optstr_get_option (optstr : option cstring) (name : cstring)
  : Z * option (option nat * nat) :=
  match mnt_optstr_locate_option optstr name with
  | Located ol => (0%Z, Some (ol_value ol, ol_valsz ol))
  | r => (locate_rc r, None)
  end.

(** [mnt_optstr_set_option(&optstr, name, value)] for a non-NULL [optstr]
    pointer. *)
Definition mnt_optstr_set_option (optstr : option cstring) (name : cstring)
           (value : option cstring) : Z * option cstring :=
  let r := match optstr with
           | Some _ => mnt_optstr_locate_option optstr name
           | None => NotFound
           end in
  match r, optstr with
  | LocateError, _ => ((- EINVAL)%Z, optstr)
  | NotFound, _ => mnt_optstr_append_option optstr (Some name) value
  | Located ol, None => (0%Z, optstr)
  | Located ol, Some buf =>
      let nameend := ol_begin ol + ol_namesz ol in
      match value, ol_value ol with
      | None, Some _ =>
          if negb (ol_valsz ol =? 0) then
            (0%Z, Some (mnt_optstr_remove_option_at buf nameend (ol_end ol)))
          else (0%Z, Some buf)
      | Some v, None => (0%Z, Some (insert_value buf nameend v))
      | Some v, Some voff =>
          if length v =? ol_valsz ol then
            (0%Z, Some (firstn voff buf ++ v ++ skipn (voff + ol_valsz ol) buf))
          else
            let buf' := mnt_optstr_remove_option_at buf nameend (ol_end ol) in
            (0%Z, Some (insert_value buf' nameend v))
      | None, None => (0%Z, Some buf)
      end
  end.

(** [mnt_optstr_remove_option(&optstr, name)] *)
Definition mnt_optstr_remove_option (optstr : option cstring) (name : cstring)
  : Z * option cstring :=
  match mnt_optstr_locate_option optstr name, optstr with
  | Located ol, Some buf =>
      (0%Z, Some (mnt_optstr_remove_option_at buf (ol_begin ol) (ol_end ol)))
  | r, _ => (locate_rc r, optstr)
  end.

(** ** fs.c: merging of option strings *)

(** [!rc] as an [int] *)
Definition lnot (rc : Z) : Z := if (rc =? 0)%Z then 1%Z else 0%Z.

(** [merge_optstr(vfs, fs)]; allocation is assumed to succeed. *)
Definition merge_optstr (vfs fs : option cstring) : option cstring :=
  match vfs, fs with
  | None, None => None
  | None, Some s => Some s
  | Some s, None => Some s
  | Some v, Some f =>
      if streq v f then Some v
      else
        let p := Some (v ++ COMMA :: f) in
        let '(rc, p) := mnt_optstr_remove_option p (cstr "rw") in
        let rw := lnot rc in
        let '(rc, p) := mnt_optstr_remove_option p (cstr "rw") in
        let rw := (rw + lnot rc)%Z in
        let '(ro, p) :=
          if negb (rw =? 2)%Z then
            let '(rc, p) := mnt_optstr_remove_option p (cstr "ro") in
            let ro := lnot rc in
            if (ro + rw <? 2)%Z then
              let '(rc, p) := mnt_optstr_remove_option p (cstr "ro") in
              ((ro + lnot rc)%Z, p)
            else (ro, p)
          else (0%Z, p) in
        let body := match p with Some b => b | None => [] end in
        let flag := if negb (ro =? 0)%Z then cstr "ro" else cstr "rw" in
        Some (match body with
              | [] => flag
              | _ :: _ => flag ++ COMMA :: body
              end)
  end.


(** [mnt_fs_strdup_options]: VFS and FS options merged, user options
    appended. *)
Definition strdup_options (vfs_optstr fs_optstr user_optstr : option cstring)
  : option cstring :=
  let res := merge_optstr vfs_optstr fs_optstr in
  match user_optstr with
  | Some u =>
      let '(rc, res') := mnt_optstr_append_option res (Some u) None in
      if (rc =? 0)%Z then res' else None
  | None => res
  end.

(** ** mountP.h, fs.c: one entry of fstab/mtab/mountinfo *)

Definition MNT_FS_PSEUDO : Z := Z.shiftl 1 1.
Definition MNT_FS_NET : Z := Z.shiftl 1 2.
Definition MNT_FS_SWAP : Z := Z.shiftl 1 3.

(** [struct _mnt_fs] without the list linkage and the opaque [userdata]. *)
Record mnt_fs := {
  id : Z;
  parent : Z;
  devno : Z;
  bindsrc : option cstring;
  source : option cstring;
  tagname : option cstring;
  tagval : option cstring;
  root : option cstring;
  target : option cstring;
  fstype : option cstring;
  vfs_optstr : option cstring;
  fs_optstr : option cstring;
  user_optstr : option cstring;
  attrs : option cstring;
  freq : Z;
  passno : Z;
  flags : Z
}.

(** [mnt_new_fs]: [calloc] zeroes every field. *)
Definition mnt_new_fs : mnt_fs :=
  {| id := 0; parent := 0; devno := 0; bindsrc := None; source := None;
     tagname := None; tagval := None; root := None; target := None;
     fstype := None; vfs_optstr := None; fs_optstr := None;
     user_optstr := None; attrs := None; freq := 0; passno := 0;
     flags := 0 |}.

Definition with_source (fs : mnt_fs) (s t v : option cstring) : mnt_fs :=
  {| id := id fs; parent := parent fs; devno := devno fs;
     bindsrc := bindsrc fs; source := s; tagname := t; tagval := v;
     root := root fs; target := target fs; fstype := fstype fs;
     vfs_optstr := vfs_optstr fs; fs_optstr := fs_optstr fs;
     user_optstr := user_optstr fs; attrs := attrs fs; freq := freq fs;
     passno := passno fs; flags := flags fs |}.

Definition with_fstype (fs : mnt_fs) (t : option cstring) (fl : Z) : mnt_fs :=
  {| id := id fs; parent := parent fs; devno := devno fs;
     bindsrc := bindsrc fs; source := source fs; tagname := tagname fs;
     tagval := tagval fs; root := root fs; target := target fs; fstype := t;
     vfs_optstr := vfs_optstr fs; fs_optstr := fs_optstr fs;
     user_optstr := user_optstr fs; attrs := attrs fs; freq := freq fs;
     passno := passno fs; flags := fl |}.

Definition with_target (fs : mnt_fs) (t : option cstring) : mnt_fs :=
  {| id := id fs; parent := parent fs; devno := devno fs;
     bindsrc := bindsrc fs; source := source fs; tagname := tagname fs;
     tagval := tagval fs; root := root fs; target := t; fstype := fstype fs;
     vfs_optstr := vfs_optstr fs; fs_optstr := fs_optstr fs;
     user_optstr := user_optstr fs; attrs := attrs fs; freq := freq fs;
     passno := passno fs; flags := flags fs |}.

Definition with_optstrs (fs : mnt_fs) (v f u : option cstring) : mnt_fs :=
  {| id := id fs; parent := parent fs; devno := devno fs;
     bindsrc := bindsrc fs; source := source fs; tagname := tagname fs;
     tagval := tagval fs; root := root fs; target := target fs;
     fstype := fstype fs; vfs_optstr := v; fs_optstr := f; user_optstr := u;
     attrs := attrs fs; freq := freq fs; passno := passno fs;
     flags := flags fs |}.

Definition with_ids (fs : mnt_fs) (i p d : Z) : mnt_fs :=
  {| id := i; parent := p; devno := d;
     bindsrc := bindsrc fs; source := source fs; tagname := tagname fs;
     tagval := tagval fs; root := root fs; target := target fs;
     fstype := fstype fs; vfs_optstr := vfs_optstr fs;
     fs_optstr := fs_optstr fs; user_optstr := user_optstr fs;
     attrs := attrs fs; freq := freq fs; passno := passno fs;
     flags := flags fs |}.

Definition with_root (fs : mnt_fs) (r : option cstring) : mnt_fs :=
  {| id := id fs; parent := parent fs; devno := devno fs;
     bindsrc := bindsrc fs; source := source fs; tagname := tagname fs;
     tagval := tagval fs; root := r; target := target fs;
     fstype := fstype fs; vfs_optstr := vfs_optstr fs;
     fs_optstr := fs_optstr fs; user_optstr := user_optstr fs;
     attrs := attrs fs; freq := freq fs; passno := passno fs;
     flags := flags fs |}.

Definition with_dump (fs : mnt_fs) (f p : Z) : mnt_fs :=
  {| id := id fs; parent := parent fs; devno := devno fs;
     bindsrc := bindsrc fs; source := source fs; tagname := tagname fs;
     tagval := tagval fs; root := root fs; target := target fs;
     fstype := fstype fs; vfs_optstr := vfs_optstr fs;
     fs_optstr := fs_optstr fs; user_optstr := user_optstr fs;
     attrs := attrs fs; freq := f; passno := p; flags := flags fs |}.

(** [fs->flags & mask] is non-zero. *)
Definition has_flag (fs : mnt_fs) (mask : Z) : bool :=
  negb (Z.land (flags fs) mask =? 0)%Z.

Definition mnt_fs_get_source (fs : mnt_fs) : option cstring := source fs.

Definition mnt_fs_get_srcpath (fs : mnt_fs) : option cstring :=
  match tagname fs with
  | Some _ => None
  | None => source fs
  end.

(** [mnt_fs_get_tag]: [None] stands for the -EINVAL return. *)
Definition mnt_fs_get_tag (fs : mnt_fs) : option (cstring * option cstring) :=
  match tagname fs with
  | Some t => Some (t, tagval fs)
  | None => None
  end.

Definition mnt_fs_get_target (fs : mnt_fs) : option cstring := target fs.

Definition mnt_fs_get_fstype (fs : mnt_fs) : option cstring := fstype fs.

Definition mnt_fs_strdup_options (fs : mnt_fs) : option cstring :=
  strdup_options (vfs_optstr fs) (fs_optstr fs) (user_optstr fs).

(** [strchr(s, c) != NULL] *)
Definition has_char (c : ascii) (s : cstring) : bool :=
  existsb (Ascii.eqb c) s.

Section FsSetters.

(** Helpers of the repository that are not part of these sources:
    the filesystem-type tables of utils.c and libblkid's tag parser
    ([None] stands for its non-zero return). *)
Variable mnt_fstype_is_pseudofs : cstring -> bool.
Variable mnt_fstype_is_netfs : cstring -> bool.
Variable blkid_parse_tag_string : cstring -> option (cstring * cstring).

(** [__mnt_fs_set_source_ptr] *)
Definition __mnt_fs_set_source_ptr (fs : mnt_fs) (source : option cstring)
  : Z * mnt_fs :=
  let source := match source with
                | Some s => if streq s (cstr "none") then None else Some s
                | None => None
                end in
  let tags := match source with
              | Some s => if has_char EQUALS s
                          then match blkid_parse_tag_string s with
                               | Some (t, v) => Some (Some t, Some v)
                               | None => None
                               end
                          else Some (None, None)
              | None => Some (None, None)
              end in
  match tags with
  | None => ((-1)%Z, fs)
  | Some (t, v) => (0%Z, with_source fs source t v)
  end.

(** [mnt_fs_set_source] for a non-NULL entry and string. *)
Definition mnt_fs_set_source (fs : mnt_fs) (source : cstring) : Z * mnt_fs :=
  __mnt_fs_set_source_ptr fs (Some source).

(** [__mnt_fs_set_fstype_ptr] *)
Definition __mnt_fs_set_fstype_ptr (fs : mnt_fs) (fstype : option cstring)
  : Z * mnt_fs :=
  let fl := Z.land (flags fs) (Z.lnot MNT_FS_PSEUDO) in
  let fl := Z.land fl (Z.lnot MNT_FS_NET) in
  let fl := match fstype with
            | Some t =>
                if mnt_fstype_is_pseudofs t then Z.lor fl MNT_FS_PSEUDO
                else if mnt_fstype_is_netfs t then Z.lor fl MNT_FS_NET
                else if streq t (cstr "swap") then Z.lor fl MNT_FS_SWAP
                else fl
            | None => fl
            end in
  (0%Z, with_fstype fs fstype fl).

(** [mnt_fs_set_fstype] for a non-NULL entry. *)
Definition mnt_fs_set_fstype (fs : mnt_fs) (fstype : option cstring)
  : Z * mnt_fs :=
  __mnt_fs_set_fstype_ptr fs fstype.

End FsSetters.

(** [mnt_fs_set_target] for a non-NULL entry. *)
Definition mnt_fs_set_target (fs : mnt_fs) (target : option cstring)
  : Z * mnt_fs :=
  match target with
  | None => ((- EINVAL)%Z, fs)
  | Some t => (0%Z, with_target fs (Some t))
  end.

Definition mnt_fs_set_vfs_options (fs : mnt_fs) (optstr : option cstring)
  : Z * mnt_fs :=
  (0%Z, with_optstrs fs optstr (fs_optstr fs) (user_optstr fs)).

Definition mnt_fs_set_fs_options (fs : mnt_fs) (optstr : option cstring)
  : Z * mnt_fs :=
  (0%Z, with_optstrs fs (vfs_optstr fs) optstr (user_optstr fs)).

Definition mnt_fs_set_userspace_options (fs : mnt_fs) (optstr : option cstring)
  : Z * mnt_fs :=
  (0%Z, with_optstrs fs (vfs_optstr fs) (fs_optstr fs) optstr).

(** Modelled from the spec: [streq_except_trailing_slash] of strutils,
    which is not part of these sources.  The comparison ignores a single
    trailing slash on both sides; two absent strings are equal and an
    absent string equals no present one. *)
Definition strip_trailing_slash (s : cstring) : cstring :=
  match rev s with
  | c :: r => if Ascii.eqb c SLASH then rev r else s
  | [] => s
  end.

Definition streq_except_trailing_slash (s1 s2 : option cstring) : bool :=
  match s1, s2 with
  | None, None => true
  | Some a, Some b => streq (strip_trailing_slash a) (strip_trailing_slash b)
  | _, _ => false
  end.

(** [mnt_fs_streq_target] *)
Definition mnt_fs_streq_target (fs : mnt_fs) (path : option cstring) : bool :=
  streq_except_trailing_slash (mnt_fs_get_target fs) path.

(** [mnt_fs_streq_srcpath] *)
Definition mnt_fs_streq_srcpath (fs : mnt_fs) (path : option cstring) : bool :=
  let p := mnt_fs_get_srcpath fs in
  if negb (has_flag fs MNT_FS_PSEUDO) then streq_except_trailing_slash p path
  else match p, path with
       | None, None => true
       | Some a, Some b => streq a b
       | _, _ => false
       end.

(** ** tab.c: the table and its lookups *)

Inductive mnt_format := MNT_FMT_GUESS | MNT_FMT_FSTAB | MNT_FMT_MOUNTINFO.

Inductive mnt_direction := MNT_ITER_FORWARD | MNT_ITER_BACKWARD.

(** The path and tag cache of cache.c, which is not part of these
    sources, seen through the four calls the lookups make.
    [mnt_cache_read_tags] gives the return code and [errno]. *)
Record mnt_cache := {
  mnt_resolve_path : cstring -> option cstring;
  mnt_cache_read_tags : cstring -> Z * Z;
  mnt_cache_device_has_tag : cstring -> cstring -> option cstring -> bool;
  mnt_resolve_tag : cstring -> option cstring -> option cstring
}.

(** [struct _mnt_tab]; the callback gets the file name and the line
    number. *)
Record mnt_tab := {
  fmt : mnt_format;
  nents : Z;
  cache : option mnt_cache;
  errcb : option (cstring -> Z -> Z);
  ents : list mnt_fs
}.

Definition mnt_new_tab : mnt_tab :=
  {| fmt := MNT_FMT_GUESS; nents := 0; cache := None; errcb := None;
     ents := [] |}.

Definition mnt_tab_get_nents (tb : mnt_tab) : Z := nents tb.

Definition mnt_tab_set_cache (tb : mnt_tab) (mpc : option mnt_cache)
  : mnt_tab :=
  {| fmt := fmt tb; nents := nents tb; cache := mpc; errcb := errcb tb;
     ents := ents tb |}.

Definition mnt_tab_set_parser_errcb (tb : mnt_tab)
           (cb : option (cstring -> Z -> Z)) : mnt_tab :=
  {| fmt := fmt tb; nents := nents tb; cache := cache tb; errcb := cb;
     ents := ents tb |}.

Definition with_fmt (tb : mnt_tab) (f : mnt_format) : mnt_tab :=
  {| fmt := f; nents := nents tb; cache := cache tb; errcb := errcb tb;
     ents := ents tb |}.

(** [mnt_tab_add_fs]: [list_add_tail] and [nents++]. *)
Definition mnt_tab_add_fs (tb : mnt_tab) (fs : mnt_fs) : Z * mnt_tab :=
  (0%Z, {| fmt := fmt tb; nents := (nents tb + 1)%Z; cache := cache tb;
           errcb := errcb tb; ents := ents tb ++ [fs] |}).

(** The entries in the order in which [mnt_tab_next_fs] yields them after
    [mnt_reset_iter(&itr, direction)]. *)
Definition iter_entries (tb : mnt_tab) (direction : mnt_direction)
  : list mnt_fs :=
  match direction with
  | MNT_ITER_FORWARD => ents tb
  | MNT_ITER_BACKWARD => rev (ents tb)
  end.

(** [while (mnt_tab_next_fs(...) == 0) if (test(fs)) return fs;] *)
Definition first_match (test : mnt_fs -> bool) (l : list mnt_fs)
  : option mnt_fs :=
  find test l.

Definition is_root_path (t : cstring) : bool :=
  match t with
  | [c] => Ascii.eqb c SLASH
  | _ => false
  end.

(** The test of the third loop of [mnt_tab_find_target].  The C code
    hands the result of [mnt_resolve_path] to [strcmp] unchecked; a NULL
    result counts as no match here. *)
Definition target_canonical_match (c : mnt_cache) (cn : cstring) (fs : mnt_fs)
  : bool :=
  match target fs with
  | None => false
  | Some t =>
      if negb (has_flag fs MNT_FS_SWAP) || is_root_path t then false
      else match mnt_resolve_path c t with
           | Some p => streq cn p
           | None => false
           end
  end.

(** [mnt_tab_find_target] *)
Definition mnt_tab_find_target (tb : mnt_tab) (path : cstring)
           (direction : mnt_direction) : option mnt_fs :=
  let l := iter_entries tb direction in
  match first_match (fun fs => mnt_fs_streq_target fs (Some path)) l with
  | Some fs => Some fs
  | None =>
      match cache tb with
      | None => None
      | Some c =>
          match mnt_resolve_path c path with
          | None => None
          | Some cn =>
              match first_match
                      (fun fs => mnt_fs_streq_target fs (Some cn)) l with
              | Some fs => Some fs
              | None => first_match (target_canonical_match c cn) l
              end
          end
      end
  end.

(** The loops of [mnt_tab_find_srcpath], in the order of the code. *)

(** "native paths" *)
Definition srcpath_native (path : cstring) (l : list mnt_fs) : option mnt_fs :=
  first_match (fun fs => mnt_fs_streq_srcpath fs (Some path)) l.

(** [ntags]: the entries for which [mnt_fs_get_srcpath] gives NULL. *)
Definition count_tags (l : list mnt_fs) : Z :=
  Z.of_nat (length (filter (fun fs => match mnt_fs_get_srcpath fs with
                                      | None => true
                                      | Some _ => false
                                      end) l)).

(** "canonicalized paths in mnt_tab" *)
Definition srcpath_canonical_input (cn : cstring) (l : list mnt_fs)
  : option mnt_fs :=
  first_match (fun fs => mnt_fs_streq_srcpath fs (Some cn)) l.

(** "evaluated tag" *)
Definition tag_in_cache (c : mnt_cache) (cn : cstring) (fs : mnt_fs) : bool :=
  match mnt_fs_get_tag fs with
  | None => false
  | Some (t, v) => mnt_cache_device_has_tag c cn t v
  end.

Definition tag_by_udev (c : mnt_cache) (cn : cstring) (fs : mnt_fs) : bool :=
  match mnt_fs_get_tag fs with
  | None => false
  | Some (t, v) =>
      match mnt_resolve_tag c t v with
      | Some x => streq x cn
      | None => false
      end
  end.

Definition srcpath_evaluated_tag (c : mnt_cache) (cn : cstring)
           (l : list mnt_fs) : option mnt_fs :=
  let '(rc, errno) := mnt_cache_read_tags c cn in
  if (rc =? 0)%Z then first_match (tag_in_cache c cn) l
  else if (rc <? 0)%Z && (errno =? EACCES)%Z
       then first_match (tag_by_udev c cn) l
       else None.

(** "non-canonicalized paths in mnt_tab" *)
Definition srcpath_canonical_match (c : mnt_cache) (cn : cstring) (fs : mnt_fs)
  : bool :=
  if has_flag fs (Z.lor MNT_FS_NET MNT_FS_PSEUDO) then false
  else match mnt_fs_get_srcpath fs with
       | Some p =>
           match mnt_resolve_path c p with
           | Some p' => streq cn p'
           | None => false
           end
       | None => false
       end.

Definition srcpath_canonical_stored (c : mnt_cache) (cn : cstring)
           (l : list mnt_fs) : option mnt_fs :=
  first_match (srcpath_canonical_match c cn) l.

(** [mnt_tab_find_srcpath] *)
Definition mnt_tab_find_srcpath (tb : mnt_tab) (path : cstring)
           (direction : mnt_direction) : option mnt_fs :=
  let l := iter_entries tb direction in
  match srcpath_native path l with
  | Some fs => Some fs
  | None =>
      let ntags := count_tags l in
      match cache tb with
      | None => None
      | Some c =>
          match mnt_resolve_path c path with
          | None => None
          | Some cn =>
              match (if (ntags <? mnt_tab_get_nents tb)%Z
                     then srcpath_canonical_input cn l else None) with
              | Some fs => Some fs
              | None =>
                  match (if negb (ntags =? 0)%Z
                         then srcpath_evaluated_tag c cn l else None) with
                  | Some fs => Some fs
                  | None =>
                      if (ntags <=? mnt_tab_get_nents tb)%Z
                      then srcpath_canonical_stored c cn l
                      else None
                  end
              end
          end
      end
  end.

(** ** tab_parse.c: reading a table from a stream *)

(** [BUFSIZ] of glibc's stdio.h, the size of the line buffer. *)
Definition BUFSIZ : Z := 8192.

(** A stream that is read without read errors: the chunks that successive
    [fgets(buf, BUFSIZ, f)] calls return, and the end-of-file indicator.
    A chunk ends with its newline or fills the buffer with [BUFSIZ - 1]
    bytes; only the last one can be shorter without a newline, where the
    file ends. *)
Record FILE := {
  pending : list cstring;
  at_eof : bool
}.

Definition feof (f : FILE) : bool := at_eof f.

(** Whether [fgets] met the end of the file while it read the chunk [buf]
    in front of the chunks [rest]: it did when nothing follows and it
    stopped neither at a newline nor because the buffer was full. *)
Definition hits_eof (buf : cstring) (rest : list cstring) : bool :=
  match rest with
  | [] => negb (has_char NEWLINE buf)
          && (Z.of_nat (length buf) <? BUFSIZ - 1)%Z
  | _ :: _ => false
  end.

(** The bytes in front of the first newline. *)
Fixpoint before_newline (s : cstring) : cstring :=
  match s with
  | [] => []
  | c :: r => if Ascii.eqb c NEWLINE then [] else c :: before_newline r
  end.

(** [if (--s >= buf && *s == '\r') *s = '\0'] *)
Definition strip_cr (s : cstring) : cstring :=
  match rev s with
  | c :: r => if Ascii.eqb c CR then rev r else s
  | [] => s
  end.

Fixpoint skip_spaces (s : cstring) : cstring :=
  match s with
  | c :: r => if Ascii.eqb c SPACE || Ascii.eqb c TAB then skip_spaces r else s
  | [] => []
  end.

(** The outcome of the [do { fgets ... } while (blank or comment)] loop of
    [mnt_tab_parse_next]. *)
Inductive next_line :=
| NoLine (f : FILE) (nlines : Z)               (* fgets gave NULL *)
| BrokenLine (f : FILE) (nlines : Z)           (* no newline and not at EOF *)
| Line (s : cstring) (f : FILE) (nlines : Z).

Fixpoint next_line_loop (pend : list cstring) (eof : bool) (nlines : Z)
  : next_line :=
  match pend with
  | [] =>
      (* fgets returns NULL at the end of the file *)
      NoLine {| pending := []; at_eof := true |} nlines
  | buf :: rest =>
      let eof := eof || hits_eof buf rest in
      let f := {| pending := rest; at_eof := eof |} in
      let nlines := (nlines + 1)%Z in
      if negb (has_char NEWLINE buf) && negb eof then BrokenLine f nlines
      else
        let s := skip_spaces (strip_cr (before_newline buf)) in
        match s with
        | [] => next_line_loop rest eof nlines
        | c :: _ =>
            if Ascii.eqb c HASH then next_line_loop rest eof nlines
            else Line s f nlines
        end
  end.

(** [tb->errcb ? tb->errcb(tb, filename, *nlines) : 1] *)
Definition parse_error_code (tb : mnt_tab) (filename : cstring) (nlines : Z)
  : Z :=
  match errcb tb with
  | Some cb => cb filename nlines
  | None => 1%Z
  end.

Section TabParse.

(** The two line parsers and the format guess are built on sscanf(3) and
    follow further down, behind the functions they call; the reading
    protocol is given for any behaviour of theirs.  A line parser returns
    its code and the entry as far as it was filled. *)
Variable mnt_parse_tab_line : mnt_fs -> cstring -> Z * mnt_fs.
Variable mnt_parse_mountinfo_line : mnt_fs -> cstring -> Z * mnt_fs.
Variable guess_tab_format : cstring -> mnt_format.

(** [mnt_tab_parse_next]: the code, the table (its format may have been
    guessed), the stream, the entry and the line counter. *)
Definition mnt_tab_parse_next (tb : mnt_tab) (f : FILE) (fs : mnt_fs)
           (filename : cstring) (nlines : Z)
  : Z * mnt_tab * FILE * mnt_fs * Z :=
  match next_line_loop (pending f) (at_eof f) nlines with
  | NoLine f' n => ((- EINVAL)%Z, tb, f', fs, n)
  | BrokenLine f' n => (parse_error_code tb filename n, tb, f', fs, n)
  | Line s f' n =>
      let tb := match fmt tb with
                | MNT_FMT_GUESS => with_fmt tb (guess_tab_format s)
                | _ => tb
                end in
      let '(rc, fs') := match fmt tb with
                        | MNT_FMT_FSTAB => mnt_parse_tab_line fs s
                        | MNT_FMT_MOUNTINFO => mnt_parse_mountinfo_line fs s
                        | MNT_FMT_GUESS => (0%Z, fs)
                        end in
      if (rc =? 0)%Z then (0%Z, tb, f', fs', n)
      else (parse_error_code tb filename n, tb, f', fs', n)
  end.

(** The [while (!feof(f))] loop of [mnt_tab_parse_stream]; every pass
    takes a chunk from the stream or sets its end-of-file indicator, so
    [fuel] bounds the passes and [None] is returned when it runs out. *)
Fixpoint parse_stream_loop (fuel : nat) (tb : mnt_tab) (f : FILE)
         (filename : cstring) (nlines : Z) : option (Z * mnt_tab * FILE) :=
  match fuel with
  | O => None
  | S fuel' =>
      if feof f then Some (0%Z, tb, f)
      else
        let fs := mnt_new_fs in
        let '(rc, tb, f, fs, nlines) :=
          mnt_tab_parse_next tb f fs filename nlines in
        let '(rc, tb) := if (rc =? 0)%Z then mnt_tab_add_fs tb fs
                         else (rc, tb) in
        if negb (rc =? 0)%Z then
          (* mnt_free_fs(fs) *)
          if (rc =? 1)%Z then parse_stream_loop fuel' tb f filename nlines
          else if feof f then Some (0%Z, tb, f)
          else Some (rc, tb, f)
        else parse_stream_loop fuel' tb f filename nlines
  end.

(** [mnt_tab_parse_stream] *)
Definition mnt_tab_parse_stream (tb : mnt_tab) (f : FILE) (filename : cstring)
  : option (Z * mnt_tab * FILE) :=
  parse_stream_loop (S (S (length (pending f)))) tb f filename 0%Z.

End TabParse.

(** ** lock.c: the mtab lock *)

Definition MOUNTLOCK_MAXTIME : Z := 30.
Definition MOUNTLOCK_WAITTIME : Z := 5000.

(** [struct libmnt_lock] without the saved signal mask. *)
Record libmnt_lock := {
  refcount : Z;
  lockfile : option cstring;
  linkfile : option cstring;
  lockfile_fd : Z;
  locked : bool;
  sigblock : bool;
  simplelock : bool
}.

Definition with_lock_state (ml : libmnt_lock) (fd : Z) (l : bool)
  : libmnt_lock :=
  {| refcount := refcount ml; lockfile := lockfile ml;
     linkfile := linkfile ml; lockfile_fd := fd; locked := l;
     sigblock := sigblock ml; simplelock := simplelock ml |}.

(** What the system answers to the calls of the locking code: [None] for
    success, [Some errno] for a failure. *)
Definition sys_result := option Z.

(** The answers during one pass of the [while (!ml->locked)] loop of
    [lock_mtab]: [link], [open] of the lockfile (the descriptor on
    success), the clock read after a failed [open], the clock read by
    [mnt_wait_mtab_lock], and [fcntl(F_SETLKW)]. *)
Record lock_pass := {
  sys_link : sys_result;
  sys_open : Z + Z;
  now_after_open : Z;
  now_at_wait : Z;
  sys_setlkw : sys_result
}.

(** [mnt_wait_mtab_lock]: 0 on success, 1 on timeout, -errno on error. *)
Definition mnt_wait_mtab_lock (now maxtime : Z) (setlkw : sys_result) : Z :=
  if (now >=? maxtime)%Z then 1%Z
  else match setlkw with
       | Some e => if (e =? EINTR)%Z then 1%Z else (- e)%Z
       | None => 0%Z
       end.

(** [mnt_unlock_file] as far as the handle is concerned. *)
Definition mnt_unlock_file (ml : libmnt_lock) : libmnt_lock :=
  with_lock_state ml (-1)%Z false.

(** [-errno] when [errno > 0], the previous code otherwise. *)
Definition errno_code (e rc : Z) : Z := if (0 <? e)%Z then (- e)%Z else rc.

(** [waittime.tv_nsec] *)
Definition waittime_nsec : Z := 1000 * MOUNTLOCK_WAITTIME.

(** What a run of [lock_mtab] leaves: its code, the handle, and the
    requests it made to [nanosleep], in nanoseconds and in their order. *)
Definition lock_run : Type := Z * libmnt_lock * list Z.

(** [nanosleep(&waittime, NULL)] in front of the rest of a run. *)
Definition nanosleep (waittime : Z) (rest : option lock_run)
  : option lock_run :=
  match rest with
  | Some (rc, ml, sleeps) => Some (rc, ml, waittime :: sleeps)
  | None => None
  end.

(** The [while (!ml->locked)] loop of [lock_mtab] against a script of
    answers, one per pass; [None] when the script ends while the loop
    still runs.  [rc] is the value the local [rc] holds ([-1] from its
    initialiser) and [waittime] the nanoseconds of the local [waittime]. *)
Fixpoint lock_mtab_loop (ml : libmnt_lock) (maxtime waittime rc : Z)
         (script : list lock_pass) : option lock_run :=
  match script with
  | [] => None
  | a :: script' =>
      (* j = link(linkfile, lockfile); if (j == 0) ml->locked = 1; *)
      let ml := match sys_link a with
                | None => with_lock_state ml (lockfile_fd ml) true
                | Some _ => ml
                end in
      let fatal := match sys_link a with
                   | Some e => if (e =? EEXIST)%Z then None else Some e
                   | None => None
                   end in
      match fatal with
      | Some e => Some (errno_code e rc, mnt_unlock_file ml, [])
      | None =>
          match sys_open a with
          | inr errsv =>
              let ml := with_lock_state ml (-1)%Z (locked ml) in
              if (errsv =? ENOENT)%Z && (now_after_open a <? maxtime)%Z
              then
                (* ml->locked = 0; continue; *)
                lock_mtab_loop (with_lock_state ml (-1)%Z false)
                  maxtime waittime rc script'
              else Some (errno_code errsv rc, mnt_unlock_file ml, [])
          | inl fd =>
              let ml := with_lock_state ml fd (locked ml) in
              if locked ml then
                (* F_SETLK, whose failure is ignored; unlink(linkfile) *)
                Some (0%Z, ml, [])
              else
                let err := mnt_wait_mtab_lock (now_at_wait a) maxtime
                             (sys_setlkw a) in
                if (err =? 1)%Z
                then Some ((- ETIMEDOUT)%Z, mnt_unlock_file ml, [])
                else if (err <? 0)%Z then Some (err, mnt_unlock_file ml, [])
                else
                  (* nanosleep(&waittime, NULL); close(ml->lockfile_fd);
                     ml->lockfile_fd = -1; *)
                  nanosleep waittime
                    (lock_mtab_loop (with_lock_state ml (-1)%Z false)
                       maxtime waittime rc script')
          end
      end
  end.

(** [lock_mtab] for a non-NULL handle: [create] answers the
    [open(linkfile, O_CREAT)] call and [t0] is the monotonic clock (in
    seconds) read for [maxtime]. *)
Definition lock_mtab (ml : libmnt_lock) (create : sys_result) (t0 : Z)
           (script : list lock_pass) : option lock_run :=
  if locked ml then Some (0%Z, ml, [])
  else
    match lockfile ml, linkfile ml with
    | None, _ => Some ((- EINVAL)%Z, ml, [])
    | _, None => Some ((- EINVAL)%Z, ml, [])
    | Some _, Some _ =>
        match create with
        | Some e => Some (errno_code e (-1)%Z, mnt_unlock_file ml, [])
        | None =>
            lock_mtab_loop ml (t0 + MOUNTLOCK_MAXTIME)%Z waittime_nsec
              (-1)%Z script
        end
    end.

Definition EAGAIN : Z := 11.

(** [S_IRUSR|S_IWUSR|S_IRGRP|S_IROTH] *)
Definition lock_mask : Z := 420.

(** The answers to the calls of [lock_simplelock]: [open], [fstat] (the
    mode on success), [fchmod] and the successive [flock] calls. *)
Record simple_answers := {
  sl_open : Z + Z;
  sl_fstat : Z + Z;
  sl_fchmod : sys_result;
  sl_flock : list sys_result
}.

(** The [while (flock(...) < 0)] loop of [lock_simplelock]. *)
Fixpoint flock_loop (ml : libmnt_lock) (answers : list sys_result)
  : option (Z * libmnt_lock) :=
  match answers with
  | [] => None
  | None :: _ => Some (0%Z, with_lock_state ml (lockfile_fd ml) true)
  | Some e :: rest =>
      if (e =? EAGAIN)%Z || (e =? EINTR)%Z then flock_loop ml rest
      else Some ((- e)%Z, with_lock_state ml (-1)%Z (locked ml))
  end.

(** [lock_simplelock] *)
Definition lock_simplelock (ml : libmnt_lock) (ans : simple_answers)
  : option (Z * libmnt_lock) :=
  match sl_open ans with
  | inr e => Some ((- e)%Z, with_lock_state ml (-1)%Z (locked ml))
  | inl fd =>
      let ml := with_lock_state ml fd (locked ml) in
      match sl_fstat ans with
      | inr e => Some ((- e)%Z, ml)
      | inl mode =>
          let chmod_failed :=
            if negb (Z.land mode lock_mask =? lock_mask)%Z
            then sl_fchmod ans else None in
          match chmod_failed with
          | Some e => Some ((- e)%Z, ml)
          | None => flock_loop ml (sl_flock ans)
          end
      end
  end.

(** [mnt_lock_file] *)
Definition mnt_lock_file (ml : option libmnt_lock) (ans : simple_answers)
           (create : sys_result) (t0 : Z) (script : list lock_pass)
  : option (Z * option libmnt_lock) :=
  match ml with
  | None => Some ((- EINVAL)%Z, None)
  | Some ml =>
      match (if simplelock ml then lock_simplelock ml ans
             else option_map fst (lock_mtab ml create t0 script)) with
      | Some (rc, ml') => Some (rc, Some ml')
      | None => None
      end
  end.

(** ** optstr.c: walking an option string *)

(** [while (!mnt_optstr_next_option(&str, &name, &namesz, &val, &valsz))
    body]: the loop of [mnt_split_optstr] and [mnt_optstr_get_options].
    It ends at the end of the string and on a parse error alike.  Every
    successful call moves the cursor forward, so [fuel] bounds the
    passes; [None] is returned when it runs out. *)
Fixpoint optstr_foreach {A : Type} (fuel : nat)
         (body : A -> cstring -> mnt_optitem -> A)
         (buf : cstring) (off : nat) (acc : A) : option A :=
  match fuel with
  | O => None
  | S fuel' =>
      match mnt_optstr_next_option (Some buf) off with
      | ParseOk r => optstr_foreach fuel' body buf (it_next r) (body acc buf r)
      | ParseEnd => Some acc
      | ParseError => Some acc
      end
  end.

(** The [namesz] bytes at [name]. *)
Definition parsed_name (buf : cstring) (r : mnt_optitem) : cstring :=
  firstn (it_namesz r) (skipn (it_name r) buf).

(** [__mnt_optstr_append_option(out, name, namesz, val, valsz)] with the
    pointers that the parser returned for [buf]. *)
Definition append_parsed (out : option cstring) (buf : cstring)
           (r : mnt_optitem) : option cstring :=
  Some (__mnt_optstr_append_option out
          (skipn (it_name r) buf) (it_namesz r)
          (match it_value r with
           | Some v => skipn v buf
           | None => []
           end) (it_valsz r)).

(** An entry of an option map ([struct mnt_optmap]), as far as the
    splitting code reads it. *)
Record mnt_optmap := { om_id : Z; om_mask : Z }.

(** [ignore && (ent->mask & ignore)] *)
Definition masked (ignore : Z) (ent : mnt_optmap) : bool :=
  negb (ignore =? 0)%Z && negb (Z.land (om_mask ent) ignore =? 0)%Z.

Definition is_none {A : Type} (o : option A) : bool :=
  match o with
  | None => true
  | Some _ => false
  end.

(** [m == maps[i]] *)
Definition map_is (m : option nat) (i : nat) : bool :=
  match m with
  | Some j => j =? i
  | None => false
  end.

(** The three strings that [mnt_split_optstr] builds. *)
Record split_optstr := {
  sp_user : option cstring;
  sp_vfs : option cstring;
  sp_fs : option cstring
}.

Section OptMaps.

(** optmap.c is not part of these sources.  A map table is opaque;
    [mnt_optmap_get_entry(maps, nmaps, name, namesz, &ent)] is seen
    through its two results: the map that holds the name, as its index in
    [maps], and the entry [ent]. *)
Variable optmap : Type.
Variable mnt_optmap_get_entry :
  list optmap -> cstring -> option nat * option mnt_optmap.

(** [mnt_get_builtin_optmap(MNT_LINUX_MAP)] and
    [mnt_get_builtin_optmap(MNT_USERSPACE_MAP)] *)
Variable linux_map : optmap.
Variable userspace_map : optmap.

(** The body of the loop of [mnt_split_optstr]; [want_user], [want_vfs]
    and [want_fs] tell which of the output pointers are not NULL. *)
Definition split_body (want_user want_vfs want_fs : bool)
           (ignore_user ignore_vfs : Z) (acc : split_optstr)
           (buf : cstring) (r : mnt_optitem) : split_optstr :=
  let '(m, ent) := mnt_optmap_get_entry [linux_map; userspace_map]
                     (parsed_name buf r) in
  let to_fs :=
    if is_none m && want_fs
    then {| sp_user := sp_user acc; sp_vfs := sp_vfs acc;
            sp_fs := append_parsed (sp_fs acc) buf r |}
    else acc in
  match ent with
  | None => to_fs
  | Some e =>
      if (om_id e =? 0)%Z then acc
      else if map_is m 0 && want_vfs then
        if masked ignore_vfs e then acc
        else {| sp_user := sp_user acc;
                sp_vfs := append_parsed (sp_vfs acc) buf r;
                sp_fs := sp_fs acc |}
      else if map_is m 1 && want_user then
        if masked ignore_user e then acc
        else {| sp_user := append_parsed (sp_user acc) buf r;
                sp_vfs := sp_vfs acc; sp_fs := sp_fs acc |}
      else to_fs
  end.

(** [mnt_split_optstr]; allocation is assumed to succeed. *)
Definition mnt_split_optstr (optstr : option cstring)
           (want_user want_vfs want_fs : bool) (ignore_user ignore_vfs : Z)
  : option (Z * split_optstr) :=
  match optstr with
  | None => Some ((- EINVAL)%Z,
                  {| sp_user := None; sp_vfs := None; sp_fs := None |})
  | Some buf =>
      match optstr_foreach (S (length buf))
              (split_body want_user want_vfs want_fs ignore_user ignore_vfs)
              buf 0 {| sp_user := None; sp_vfs := None; sp_fs := None |} with
      | Some out => Some (0%Z, out)
      | None => None
      end
  end.

(** The body of the loop of [mnt_optstr_get_options]. *)
Definition get_options_body (map : optmap) (ignore : Z)
           (subset : option cstring) (buf : cstring) (r : mnt_optitem)
  : option cstring :=
  match snd (mnt_optmap_get_entry [map] (parsed_name buf r)) with
  | None => subset
  | Some e =>
      if (om_id e =? 0)%Z then subset
      else if masked ignore e then subset
      else append_parsed subset buf r
  end.

(** [mnt_optstr_get_options] for a non-NULL [subset] pointer; allocation
    is assumed to succeed. *)
Definition mnt_optstr_get_options (optstr : option cstring) (map : optmap)
           (ignore : Z) : option (Z * option cstring) :=
  match optstr with
  | None => Some ((- EINVAL)%Z, None)
  | Some buf =>
      match optstr_foreach (S (length buf)) (get_options_body map ignore)
              buf 0 None with
      | Some subset => Some (0%Z, subset)
      | None => None
      end
  end.

End OptMaps.

(** ** fs.c: the options of an entry *)

(** [if (rc == 1 && optstr) rc = mnt_optstr_get_option(optstr, name,
    value, valsz)]: the code so far and, once an option was found, the
    string that holds it with the place of the value. *)
Definition get_option_in (optstr : option cstring) (name : cstring)
           (prev : Z * option (cstring * (option nat * nat)))
  : Z * option (cstring * (option nat * nat)) :=
  if (fst prev =? 1)%Z then
    match optstr with
    | Some buf =>
        match mnt_optstr_get_option (Some buf) name with
        | (rc, Some loc) => (rc, Some (buf, loc))
        | (rc, None) => (rc, snd prev)
        end
    | None => prev
    end
  else prev.

(** [mnt_fs_get_option]: the FS options are searched first, then the VFS
    options, then the userspace options.  The C function keeps the code
    in a [char]; the values 0, 1 and -EINVAL survive that for a signed
    [char]. *)
Definition mnt_fs_get_option (fs : mnt_fs) (name : cstring)
  : Z * option (cstring * (option nat * nat)) :=
  get_option_in (user_optstr fs) name
    (get_option_in (vfs_optstr fs) name
       (get_option_in (fs_optstr fs) name (1%Z, None))).

(** [if (!rc && part) rc = add(&field, part, NULL)] *)
Definition add_part
           (add : option cstring -> option cstring -> option cstring
                  -> Z * option cstring)
           (field part : option cstring) (rc : Z) : Z * option cstring :=
  if (rc =? 0)%Z then
    match part with
    | Some p => add field (Some p) None
    | None => (rc, field)
    end
  else (rc, field).

Section FsOptions.

Variable optmap : Type.
Variable mnt_optmap_get_entry :
  list optmap -> cstring -> option nat * option mnt_optmap.
Variable linux_map : optmap.
Variable userspace_map : optmap.

(** [mnt_split_optstr(optstr, &u, &v, &f, 0, 0)] *)
Definition split_all (optstr : option cstring) : option (Z * split_optstr) :=
  mnt_split_optstr optmap mnt_optmap_get_entry linux_map userspace_map
    optstr true true true 0%Z 0%Z.

(** [mnt_fs_set_options] for a non-NULL entry. *)
Definition mnt_fs_set_options (fs : mnt_fs) (optstr : option cstring)
  : option (Z * mnt_fs) :=
  match optstr with
  | None => Some (0%Z, with_optstrs fs None None None)
  | Some _ =>
      match split_all optstr with
      | Some (rc, out) =>
          if negb (rc =? 0)%Z then Some (rc, fs)
          else Some (0%Z, with_optstrs fs (sp_vfs out) (sp_fs out)
                            (sp_user out))
      | None => None
      end
  end.

(** The common body of [mnt_fs_append_options] and
    [mnt_fs_prepend_options], which differ in the function that adds a
    part to a field. *)
Definition add_options
           (add : option cstring -> option cstring -> option cstring
                  -> Z * option cstring)
           (fs : mnt_fs) (optstr : option cstring) : option (Z * mnt_fs) :=
  match optstr with
  | None => Some (0%Z, fs)
  | Some _ =>
      match split_all optstr with
      | Some (rc, out) =>
          let '(rc, v) := add_part add (vfs_optstr fs) (sp_vfs out) rc in
          let '(rc, f) := add_part add (fs_optstr fs) (sp_fs out) rc in
          let '(rc, u) := add_part add (user_optstr fs) (sp_user out) rc in
          Some (rc, with_optstrs fs v f u)
      | None => None
      end
  end.

(** [mnt_fs_append_options] for a non-NULL entry. *)
Definition mnt_fs_append_options (fs : mnt_fs) (optstr : option cstring)
  : option (Z * mnt_fs) :=
  add_options mnt_optstr_append_option fs optstr.

(** [mnt_fs_prepend_options] for a non-NULL entry. *)
Definition mnt_fs_prepend_options (fs : mnt_fs) (optstr : option cstring)
  : option (Z * mnt_fs) :=
  add_options mnt_optstr_prepend_option fs optstr.

End FsOptions.

(** [mnt_fs_match_target] *)
Definition mnt_fs_match_target (fs : mnt_fs) (target : option cstring)
           (cache : option mnt_cache) : bool :=
  match target, mnt_fs_get_target fs with
  | Some t, Some ft =>
      if mnt_fs_streq_target fs (Some t) then true
      else
        match cache with
        | None => false
        | Some c =>
            match mnt_resolve_path c t with
            | None => false
            | Some cn =>
                if streq cn ft then true
                else match mnt_resolve_path c ft with
                     | Some tcn => streq cn tcn
                     | None => false
                     end
            end
        end
  | _, _ => false
  end.

(** ** tab.c: lookups by tag and by source, the root and the children *)

(** [fs->tagname && fs->tagval && strcmp(fs->tagname, tag) == 0 &&
    strcmp(fs->tagval, val) == 0] *)
Definition tag_equal (tag val : cstring) (fs : mnt_fs) : bool :=
  match tagname fs, tagval fs with
  | Some t, Some v => streq t tag && streq v val
  | _, _ => false
  end.

(** [mnt_tab_find_tag] *)
Definition mnt_tab_find_tag (tb : mnt_tab) (tag val : cstring)
           (direction : mnt_direction) : option mnt_fs :=
  match first_match (tag_equal tag val) (iter_entries tb direction) with
  | Some fs => Some fs
  | None =>
      match cache tb with
      | Some c =>
          match mnt_resolve_tag c tag (Some val) with
          | Some cn => mnt_tab_find_srcpath tb cn direction
          | None => None
          end
      | None => None
      end
  end.

Section FindSource.

(** libblkid's tag parser, as in the source setter. *)
Variable blkid_parse_tag_string : cstring -> option (cstring * cstring).

(** [mnt_tab_find_source] *)
Definition mnt_tab_find_source (tb : mnt_tab) (source : cstring)
           (direction : mnt_direction) : option mnt_fs :=
  if has_char EQUALS source then
    match blkid_parse_tag_string source with
    | Some (tag, val) => mnt_tab_find_tag tb tag val direction
    | None => None
    end
  else mnt_tab_find_srcpath tb source direction.

End FindSource.

Definition mnt_fs_get_id (fs : mnt_fs) : Z := id fs.

Definition mnt_fs_get_parent_id (fs : mnt_fs) : Z := parent fs.

(** The loop of [mnt_tab_get_root_fs] over the entries that
    [mnt_tab_next_fs] yields: [root] is the caller's [*root] and
    [root_id] the local of that name. *)
Fixpoint root_fs_loop (l : list mnt_fs) (root : option mnt_fs) (root_id : Z)
  : option mnt_fs * Z :=
  match l with
  | [] => (root, root_id)
  | fs :: l' =>
      let id := mnt_fs_get_parent_id fs in
      if (id =? 0)%Z then (root, root_id)        (* break *)
      else if is_none root || (id <? root_id)%Z
           then root_fs_loop l' (Some fs) id
           else root_fs_loop l' root root_id
  end.

(** [mnt_tab_get_root_fs(tb, &root)]: the code and [*root], which the
    function reads before it writes it. *)
Definition mnt_tab_get_root_fs (tb : mnt_tab) (root : option mnt_fs)
  : Z * option mnt_fs :=
  let '(root, root_id) :=
    root_fs_loop (iter_entries tb MNT_ITER_FORWARD) root 0%Z in
  ((if (root_id =? 0)%Z then (- EINVAL)%Z else 0%Z), root).

(** The loop of [mnt_tab_next_child_fs]. *)
Fixpoint next_child_loop (l : list mnt_fs) (parent_id lastchld_id : Z)
         (chld : option mnt_fs) (chld_id : Z) : option mnt_fs * Z :=
  match l with
  | [] => (chld, chld_id)
  | fs :: l' =>
      if negb (mnt_fs_get_parent_id fs =? parent_id)%Z
      then next_child_loop l' parent_id lastchld_id chld chld_id
      else
        let id := mnt_fs_get_id fs in
        if ((lastchld_id =? 0)%Z || (lastchld_id <? id)%Z)
           && (is_none chld || (id <? chld_id)%Z)
        then next_child_loop l' parent_id lastchld_id (Some fs) id
        else next_child_loop l' parent_id lastchld_id chld chld_id
  end.

(** [mnt_tab_next_child_fs(tb, itr, parent, &chld)].  The iterator is
    given by the entry it stands on ([None] for a fresh iterator and for
    one at the end of the list); the result is the code, [*chld] and the
    iterator after the call.  With a zero parent id the function returns
    before it writes [*chld]. *)
Definition mnt_tab_next_child_fs (tb : mnt_tab) (itr : option mnt_fs)
           (parent : mnt_fs) : Z * option mnt_fs * option mnt_fs :=
  let parent_id := mnt_fs_get_id parent in
  if (parent_id =? 0)%Z then ((- EINVAL)%Z, None, itr)
  else
    let lastchld_id := match itr with
                       | Some fs => mnt_fs_get_id fs
                       | None => 0%Z
                       end in
    let '(chld, chld_id) :=
      next_child_loop (iter_entries tb MNT_ITER_FORWARD) parent_id
        lastchld_id None 0%Z in
    if (chld_id =? 0)%Z then (1%Z, chld, None)
    else (0%Z, chld, chld).

(** ** tab_parse.c: octal escapes in table fields *)

Definition BACKSLASH : ascii :=
  Ascii false false true true true false true false.

(** [isoctal(a)]: [((a) & ~7) == '0'].  The byte is taken as its unsigned
    value; a byte above 127 fails the test under either signedness of
    [char]. *)
Definition isoctal (a : ascii) : bool :=
  (Z.land (Z.of_N (N_of_ascii a)) (Z.lnot 7) =? 48)%Z.

(** [a & 7] *)
Definition low3 (a : ascii) : Z := Z.land (Z.of_N (N_of_ascii a)) 7.

(** [64*(s[1] & 7) + 8*(s[2] & 7) + (s[3] & 7)] stored into a [char]. *)
Definition octal_byte (a b c : ascii) : ascii :=
  ascii_of_N (Z.to_N ((64 * low3 a + 8 * low3 b + low3 c) mod 256)).

(** The [while (s[0] && sz < len - 1)] loop of [unmangle_to_buffer]: the
    bytes stored through [buf], with [s] the string still to be read and
    [lim] the value of [len - 1].  The reads stay inside the string: the
    [isoctal] tests are evaluated left to right and fail on the
    terminator. *)
Fixpoint unmangle_loop (s : cstring) (sz lim : Z) : cstring :=
  match s with
  | [] => []
  | c :: r =>
      if (sz <? lim)%Z then
        match r with
        | a :: b :: d :: r' =>
            if Ascii.eqb c BACKSLASH && (sz + 4 <? lim)%Z
               && isoctal a && isoctal b && isoctal d
            then octal_byte a b d :: unmangle_loop r' (sz + 4) lim
            else c :: unmangle_loop r (sz + 1) lim
        | _ => c :: unmangle_loop r (sz + 1) lim
        end
      else []
  end.

(** The C string that a buffer holds: its bytes up to the first NUL. *)
Fixpoint until_nul (s : cstring) : cstring :=
  match s with
  | [] => []
  | c :: r => if Ascii.eqb c NUL then [] else c :: until_nul r
  end.

(** [len - 1] for a [size_t] of 64 bits: it wraps around for [len = 0]. *)
Definition size_pred (len : Z) : Z :=
  if (len =? 0)%Z then (2 ^ 64 - 1)%Z else (len - 1)%Z.

(** [unmangle_to_buffer(s, buf, len)] for a non-NULL [s]: the string left
    in [buf]. *)
Definition unmangle_to_buffer (s : cstring) (len : Z) : cstring :=
  until_nul (unmangle_loop s 0 (size_pred len)).

(** [unmangle_string(s)]: [unmangle_to_buffer(s, s, strlen(s) + 1)].  The
    loop writes behind its read cursor, so decoding in place reads the
    bytes of the original string. *)
Definition unmangle_string (s : cstring) : cstring :=
  unmangle_to_buffer s (Z.of_nat (length s) + 1).

(** ** tab_parse.c: the line parsers *)

(** [isspace] and [isdigit] in the C locale. *)
Definition isspace (c : ascii) : bool :=
  let n := N_of_ascii c in ((n =? 32) || ((9 <=? n) && (n <=? 13)))%N.

Definition isdigit (c : ascii) : bool :=
  let n := N_of_ascii c in ((48 <=? n) && (n <=? 57))%N.

(** sscanf(3), a white-space directive: the white space in front of the
    input is skipped. *)
Fixpoint scan_space (s : cstring) : cstring :=
  match s with
  | c :: r => if isspace c then scan_space r else s
  | [] => []
  end.

(** The bytes in front of the next white space, and what follows them. *)
Fixpoint scan_nonspace (s : cstring) : cstring * cstring :=
  match s with
  | c :: r =>
      if isspace c then ([], s)
      else let '(w, t) := scan_nonspace r in (c :: w, t)
  | [] => ([], [])
  end.

(** sscanf(3), [%ms]: white space is skipped and the bytes up to the next
    white space are stored in a new string; the conversion fails at the
    end of the input.  The callers compare the count that sscanf returns
    with the number of their conversions only, so a conversion that
    fails is [None] whatever the kind of the failure. *)
Definition scan_string (s : cstring) : option (cstring * cstring) :=
  match scan_space s with
  | [] => None
  | c :: r => Some (scan_nonspace (c :: r))
  end.

(** The value of the decimal digits in front of [s], on top of [acc], and
    what follows them. *)
Fixpoint scan_digits (s : cstring) (acc : Z) : Z * cstring :=
  match s with
  | c :: r =>
      if isdigit c
      then scan_digits r (10 * acc + (Z.of_N (N_of_ascii c) - 48))
      else (acc, s)
  | [] => (acc, [])
  end.

(** An optional sign and at least one digit: whether the sign is a minus,
    the magnitude, and what follows the digits. *)
Definition scan_number (s : cstring) : option (bool * Z * cstring) :=
  let '(neg, t) :=
    match s with
    | c :: r =>
        if Ascii.eqb c "-" then (true, r)
        else if Ascii.eqb c "+" then (false, r)
        else (false, s)
    | [] => (false, [])
    end in
  match t with
  | c :: _ =>
      if isdigit c
      then let '(v, rest) := scan_digits t 0 in Some (neg, v, rest)
      else None
  | [] => None
  end.

(** sscanf(3), [%u] into an [unsigned int]: white space is skipped and a
    number is read as strtoul(3) reads it, ULONG_MAX for a magnitude
    above it and negated modulo 2^64 behind a minus sign; its low 32 bits
    are stored. *)
Definition scan_unsigned (s : cstring) : option (Z * cstring) :=
  match scan_number (scan_space s) with
  | Some (neg, v, rest) =>
      let v := if (2 ^ 64 - 1 <? v)%Z then (2 ^ 64 - 1)%Z
               else if neg then ((- v) mod 2 ^ 64)%Z
               else v in
      Some ((v mod 2 ^ 32)%Z, rest)
  | None => None
  end.

(** sscanf(3), an ordinary character of the format: the next byte of the
    input has to be that character. *)
Definition scan_char (c : ascii) (s : cstring) : option cstring :=
  match s with
  | x :: r => if Ascii.eqb x c then Some r else None
  | [] => None
  end.

Fixpoint skip_not_minus (s : cstring) : cstring :=
  match s with
  | c :: r => if Ascii.eqb c "-" then s else skip_not_minus r
  | [] => []
  end.

(** sscanf(3), [%*[^-]]: at least one byte other than [-], nothing
    stored. *)
Definition scan_not_minus (s : cstring) : option cstring :=
  match s with
  | c :: _ => if Ascii.eqb c "-" then None else Some (skip_not_minus s)
  | [] => None
  end.

(** The bits of a 32-bit object read as an [int]; the value of a [long]
    stored into an [int]. *)
Definition as_int (v : Z) : Z := ((v + 2 ^ 31) mod 2 ^ 32 - 2 ^ 31)%Z.

(** strtol(s, &end, 10): the value, between LONG_MIN and LONG_MAX, and
    the string at [end]; [None] when no number is found and [end] is
    [s]. *)
Definition strtol (s : cstring) : option (Z * cstring) :=
  match scan_number (scan_space s) with
  | Some (neg, v, rest) =>
      Some ((if neg then Z.max (- v) (- 2 ^ 63) else Z.min v (2 ^ 63 - 1))%Z,
            rest)
  | None => None
  end.

(** [next_number(&s, &num)]: the code, the string at [*s] and the value
    of [*num], which was [num]. *)
Definition next_number (s : cstring) (num : Z) : Z * cstring * Z :=
  let s := skip_spaces s in
  match s with
  | [] => ((-1)%Z, s, num)
  | _ :: _ =>
      match strtol s with
      | None => ((-1)%Z, s, 0%Z)
      | Some (v, e) =>
          (* valid end of number is space or terminator *)
          let valid := match e with
                       | c :: _ => Ascii.eqb c SPACE || Ascii.eqb c TAB
                       | [] => true
                       end in
          ((if valid then 0 else -1)%Z, e, as_int v)
      end
  end.

(** [makedev(maj, min)] of glibc, for two [unsigned int]. *)
Definition makedev (maj min : Z) : Z :=
  Z.lor (Z.lor (Z.land min 255) (Z.shiftl (Z.land maj 4095) 8))
    (Z.lor (Z.shiftl (Z.land min (Z.lnot 255)) 12)
       (Z.shiftl (Z.land maj (Z.lnot 4095)) 32)).

(** [guess_tab_format]: [sscanf(line, "%u %u", &a, &b) == 2] *)
Definition guess_tab_format (line : cstring) : mnt_format :=
  match scan_unsigned line with
  | Some (_, s) =>
      match scan_unsigned s with
      | Some _ => MNT_FMT_MOUNTINFO
      | None => MNT_FMT_FSTAB
      end
  | None => MNT_FMT_FSTAB
  end.

Section LineParsers.

(** A conversion of sscanf(3) in front of the rest of a line parser:
    when it fails the parser ends with [d]. *)
Notation "'scan' p <- e 'else' d ; k" :=
  (match e with
   | Some p => k
   | None => d
   end)
  (at level 10, p pattern, e at level 100, d at level 100,
   k at level 200, only parsing).

Variable mnt_fstype_is_pseudofs : cstring -> bool.
Variable mnt_fstype_is_netfs : cstring -> bool.
Variable blkid_parse_tag_string : cstring -> option (cstring * cstring).
Variable optmap : Type.
Variable mnt_optmap_get_entry :
  list optmap -> cstring -> option nat * option mnt_optmap.
Variable linux_map : optmap.
Variable userspace_map : optmap.

(** The tail of [mnt_parse_tab_line] behind the four fields: [s] is the
    line at [s + n]. *)
Definition parse_dump_fields (fs : mnt_fs) (s : cstring) : Z * mnt_fs :=
  (* fs->passno = fs->freq = 0; *)
  let fs := with_dump fs 0 0 in
  match skip_spaces s with
  | [] => (0%Z, fs)
  | c :: r =>
      let '(rc1, s, n) := next_number (c :: r) (freq fs) in
      let fs := with_dump fs n (passno fs) in
      if negb (rc1 =? 0)%Z then
        match s with
        | [] => (0%Z, fs)
        | _ :: _ => ((- EINVAL)%Z, fs)
        end
      else
        let '(rc2, s, n) := next_number s (passno fs) in
        let fs := with_dump fs (freq fs) n in
        match s with
        | [] => (0%Z, fs)
        | _ :: _ => ((if negb (rc2 =? 0) then - EINVAL else 0)%Z, fs)
        end
  end.

(** [mnt_parse_tab_line]: the code and the entry.  sscanf stores the
    target into the entry as soon as it has read it; a line with fewer
    than four fields is rejected with the entry in that state. *)
Definition mnt_parse_tab_line (fs : mnt_fs) (s : cstring)
  : option (Z * mnt_fs) :=
  scan (src, s) <- scan_string s else Some ((- EINVAL)%Z, fs);
  scan (tgt, s) <- scan_string s else Some ((- EINVAL)%Z, fs);
  let fs := with_target fs (Some tgt) in
  scan (fstype, s) <- scan_string s else Some ((- EINVAL)%Z, fs);
  scan (optstr, s) <- scan_string s else Some ((- EINVAL)%Z, fs);
  (* " %n": [s + n] is behind the white space that follows the options *)
  let s := scan_space s in
  let fs := with_target fs (Some (unmangle_string tgt)) in
  let '(rc, fs) := __mnt_fs_set_source_ptr blkid_parse_tag_string fs
                     (Some (unmangle_string src)) in
  let '(rc, fs) :=
    if (rc =? 0)%Z
    then __mnt_fs_set_fstype_ptr mnt_fstype_is_pseudofs mnt_fstype_is_netfs
           fs (Some (unmangle_string fstype))
    else (rc, fs) in
  match (if (rc =? 0)%Z
         then mnt_fs_set_options optmap mnt_optmap_get_entry linux_map
                userspace_map fs (Some (unmangle_string optstr))
         else Some (rc, fs)) with
  | Some (rc, fs) =>
      if negb (rc =? 0)%Z then Some (rc, fs)
      else Some (parse_dump_fields fs s)
  | None => None
  end.

(** [strcmp(s, "none")] is zero: the pointer is set to NULL; otherwise
    the string is unmangled. *)
Definition none_or_unmangled (s : cstring) : option cstring :=
  if streq s (cstr "none") then None else Some (unmangle_string s).

(** [mnt_parse_mountinfo_line]: the code and the entry.  sscanf stores
    the id, the parent id, the root, the target and the two option
    strings into the entry as it reads them. *)
Definition mnt_parse_mountinfo_line (fs : mnt_fs) (s : cstring)
  : Z * mnt_fs :=
  scan (i, s) <- scan_unsigned s else ((- EINVAL)%Z, fs);
  let fs := with_ids fs (as_int i) (parent fs) (devno fs) in
  scan (p, s) <- scan_unsigned s else ((- EINVAL)%Z, fs);
  let fs := with_ids fs (id fs) (as_int p) (devno fs) in
  scan (maj, s) <- scan_unsigned s else ((- EINVAL)%Z, fs);
  scan s <- scan_char ":" s else ((- EINVAL)%Z, fs);
  scan (min, s) <- scan_unsigned s else ((- EINVAL)%Z, fs);
  scan (rt, s) <- scan_string s else ((- EINVAL)%Z, fs);
  let fs := with_root fs (Some rt) in
  scan (tgt, s) <- scan_string s else ((- EINVAL)%Z, fs);
  let fs := with_target fs (Some tgt) in
  scan (vfs, s) <- scan_string s else ((- EINVAL)%Z, fs);
  let fs := with_optstrs fs (Some vfs) (fs_optstr fs) (user_optstr fs) in
  scan s <- scan_not_minus s else ((- EINVAL)%Z, fs);
  scan s <- scan_char "-" s else ((- EINVAL)%Z, fs);
  scan (fstype, s) <- scan_string s else ((- EINVAL)%Z, fs);
  scan (src, s) <- scan_string s else ((- EINVAL)%Z, fs);
  scan (fsopt, _) <- scan_string s else ((- EINVAL)%Z, fs);
  (* rc == 10 *)
  let fs := with_ids fs (id fs) (parent fs) (makedev maj min) in
  let fs := with_root fs (Some (unmangle_string rt)) in
  let fs := with_target fs (Some (unmangle_string tgt)) in
  let fs := with_optstrs fs (Some (unmangle_string vfs))
              (none_or_unmangled fsopt) (user_optstr fs) in
  let '(rc, fs) :=
    __mnt_fs_set_fstype_ptr mnt_fstype_is_pseudofs mnt_fstype_is_netfs fs
      (Some (unmangle_string fstype)) in
  if (rc =? 0)%Z
  then __mnt_fs_set_source_ptr blkid_parse_tag_string fs
         (none_or_unmangled src)
  else (rc, fs).

End LineParsers.

(** ** lock.c: the lock handle and its file names *)

(** [%d] of an [int] *)
Definition decimal (n : Z) : cstring :=
  cstr (NilZero.string_of_int (Z.to_int n)).

(** [mnt_new_lock(datafile, id)]; [pid] is what [getpid()] returns and
    allocation is assumed to succeed. *)
Definition mnt_new_lock (datafile : option cstring) (id pid : Z)
  : option libmnt_lock :=
  match datafile with
  | None => None
  | Some d =>
      Some {| refcount := 1;
              lockfile := Some (d ++ cstr "~");
              linkfile := Some (d ++ cstr "~."
                                  ++ decimal (if (id =? 0)%Z then pid else id));
              lockfile_fd := (-1)%Z;
              locked := false; sigblock := false; simplelock := false |}
  end.

Definition with_lockfile (ml : libmnt_lock) (simple : bool)
           (name : option cstring) : libmnt_lock :=
  {| refcount := refcount ml; lockfile := name; linkfile := linkfile ml;
     lockfile_fd := lockfile_fd ml; locked := locked ml;
     sigblock := sigblock ml; simplelock := simple |}.

Section LockNames.

(** [endswith] of utils.c, which is not part of these sources. *)
Variable endswith : cstring -> cstring -> bool.

(** [mnt_lock_use_simplelock(ml, enable)]: the code and the handle.
    [None] stands for the failure of [assert(ml->lockfile)]. *)
Definition mnt_lock_use_simplelock (ml : option libmnt_lock) (enable : Z)
  : option (Z * option libmnt_lock) :=
  match ml with
  | None => Some ((- EINVAL)%Z, None)
  | Some ml =>
      match lockfile ml with
      | None => None
      | Some lf =>
          let simple := negb (enable =? 0)%Z in
          let sz := length lf in
          if sz <? 1 then Some ((- EINVAL)%Z, Some (with_lockfile ml simple (Some lf)))
          else if simple && endswith lf (cstr "~")
          then Some (0%Z, Some (with_lockfile ml simple
                                  (Some (firstn (sz - 1) lf ++ cstr ".lock"))))
          else if negb simple && endswith lf (cstr ".lock")
          then Some (0%Z, Some (with_lockfile ml simple
                                  (Some (firstn (sz - 5) lf ++ cstr "~"))))
          else Some (0%Z, Some (with_lockfile ml simple (Some lf)))
      end
  end.

End LockNames.

(** ** Well-formed option strings

    The vocabulary of the statements about option strings: a string as
    the list of its items, and the quote bookkeeping of the parser. *)

Record optitem := { o_name : cstring; o_value : option cstring }.

Definition render (it : optitem) : cstring :=
  o_name it ++ match o_value it with
               | Some v => EQUALS :: v
               | None => []
               end.

Fixpoint join (l : list cstring) : cstring :=
  match l with
  | [] => []
  | x :: r => match r with
              | [] => x
              | _ :: _ => x ++ COMMA :: join r
              end
  end.

Definition optstr_of (its : list optitem) : cstring := join (map render its).

Definition toggle (oq : bool) (c : ascii) : bool :=
  if Ascii.eqb c DQUOTE then negb oq else oq.

Fixpoint chars_ok (oq : bool) (w : cstring) : bool :=
  match w with
  | [] => negb oq
  | c :: w' =>
      let oq' := toggle oq c in
      (oq' || negb (Ascii.eqb c COMMA)) && chars_ok oq' w'
  end.

Definition plain (c : ascii) : bool :=
  negb (Ascii.eqb c COMMA) && negb (Ascii.eqb c EQUALS)
  && negb (Ascii.eqb c DQUOTE).

Definition name_ok (n : cstring) : bool := forallb plain n.

Definition item_ok (it : optitem) : bool :=
  name_ok (o_name it)
  && match o_value it with Some v => chars_ok false v | None => true end
  && match render it with [] => false | _ :: _ => true end.

Fixpoint scan_sep (oq : bool) (sep : option nat) (p : nat) (w : cstring)
  : option nat :=
  match w with
  | [] => sep
  | c :: w' =>
      let oq' := toggle oq c in
      if oq' then scan_sep oq' sep (S p) w'
      else scan_sep oq'
             (match sep with
              | None => if Ascii.eqb c EQUALS then Some p else None
              | Some q => Some q
              end) (S p) w'
  end.

Definition item_of (start : nat) (sep : option nat) (stop : nat) (comma : bool)
  : mnt_optitem :=
  {| it_name := start;
     it_namesz := match sep with Some q => q - start | None => stop - start end;
     it_value := match sep with Some q => Some (S q) | None => None end;
     it_valsz := match sep with Some q => stop - q - 1 | None => 0 end;
     it_next := if comma then S stop else stop |}.

Definition start_of (start : option nat) (p : nat) : nat :=
  match start with None => p | Some s => s end.

(** What [mnt_optstr_parse_next] returns on a well-formed item that
    starts at offset [p]. *)
Definition parsed_item (p : nat) (it : optitem) (comma : bool) : mnt_optitem :=
  {| it_name := p;
     it_namesz := length (o_name it);
     it_value := match o_value it with
                 | Some _ => Some (S (p + length (o_name it)))
                 | None => None
                 end;
     it_valsz := match o_value it with
                 | Some v => length v
                 | None => 0
                 end;
     it_next := p + length (render it) + (if comma then 1 else 0) |}.

Definition nonempty (l : cstring) : bool :=
  match l with [] => false | _ :: _ => true end.

(** Items each followed by a comma. *)
Fixpoint joinc (l : list cstring) : cstring :=
  match l with
  | [] => []
  | x :: r => x ++ COMMA :: joinc r
  end.

Definition named (name : cstring) (it : optitem) : bool :=
  cstring_eqb (o_name it) name.

(** Where [mnt_optstr_locate_option] finds the first item named [name]. *)
Definition located_item (p : nat) (it : optitem) : mnt_optloc :=
  {| ol_begin := p;
     ol_end := p + length (render it);
     ol_value := match o_value it with
                 | Some _ => Some (S (p + length (o_name it)))
                 | None => None
                 end;
     ol_valsz := match o_value it with
                 | Some v => length v
                 | None => 0
                 end;
     ol_namesz := length (o_name it) |}.

Fixpoint remove_named (name : cstring) (its : list optitem) : list optitem :=
  match its with
  | [] => []
  | it :: r => if named name it then r else it :: remove_named name r
  end.

(** The item that [mnt_optstr_append_option] writes: an empty or NULL
    value gives a bare name. *)
Definition appended_item (n : cstring) (v : option cstring) : optitem :=
  {| o_name := n;
     o_value := match v with
                | Some (c :: v') => Some (c :: v')
                | _ => None
                end |}.

Definition with_value (it : optitem) (v : cstring) : optitem :=
  {| o_name := o_name it; o_value := Some v |}.

Definition tail_of (after : list optitem) : cstring :=
  match map render after with
  | [] => []
  | _ :: _ => COMMA :: join (map render after)
  end.

Definition RW : cstring := cstr "rw".
Definition RO : cstring := cstr "ro".

Definition is_flag (it : optitem) : bool := named RW it || named RO it.

Definition flagless (its : list optitem) : list optitem :=
  filter (fun it => negb (is_flag it)) its.

Definition cnt (name : cstring) (its : list optitem) : nat :=
  length (filter (named name) its).

(** One [rw += !mnt_optstr_remove_option(&p, name)] step on the items. *)
Definition remove_step (name : cstring) (its : list optitem)
  : Z * list optitem :=
  if existsb (named name) its then (1%Z, remove_named name its)
  else (0%Z, its).

Definition flag_of (its : list optitem) : cstring :=
  if existsb (named RO) its then RO else RW.

Definition with_flag (flag body : cstring) : cstring :=
  match body with
  | [] => flag
  | _ :: _ => flag ++ COMMA :: body
  end.

(** The quote state after the bytes of [l]. *)
Definition quote_state (oq : bool) (l : cstring) : bool :=
  fold_left toggle l oq.

(** A comma of [l] lies outside quoted blocks. *)
Fixpoint unquoted_comma (oq : bool) (l : cstring) : bool :=
  match l with
  | [] => false
  | c :: l' =>
      let oq' := toggle oq c in
      (negb oq' && Ascii.eqb c COMMA) || unquoted_comma oq' l'
  end.

Definition flag_item (n : cstring) : optitem :=
  {| o_name := n; o_value := None |}.

Definition value_item (n v : cstring) : optitem :=
  {| o_name := n; o_value := Some v |}.

(** [memcpy(s + off, v, strlen(v))] *)
Definition overwrite (s : cstring) (off : nat) (v : cstring) : cstring :=
  firstn off s ++ v ++ skipn (off + length v) s.

(** Trailing-comma normalization: the string without the commas at its
    end. *)
Fixpoint drop_commas (r : cstring) : cstring :=
  match r with
  | c :: r' => if Ascii.eqb c COMMA then drop_commas r' else r
  | [] => []
  end.

Definition strip_trailing_commas (s : cstring) : cstring :=
  rev (drop_commas (rev s)).

(** An entry that [mnt_tab_find_srcpath] counts among the tags:
    [mnt_fs_get_srcpath] gives NULL for it. *)
Definition is_tag_entry (fs : mnt_fs) : bool :=
  match mnt_fs_get_srcpath fs with
  | None => true
  | Some _ => false
  end.

(** The first of two lookups that finds an entry. *)
Definition or_else (a b : option mnt_fs) : option mnt_fs :=
  match a with
  | Some fs => Some fs
  | None => b
  end.

(** A chunk [buf] of a classic table that holds the readable line [line]
    which the line parser rejects. *)
Definition rejected_line (parse_tab_line : mnt_fs -> cstring -> Z * mnt_fs)
           (buf line : cstring) : Prop :=
  has_char NEWLINE buf = true
  /\ skip_spaces (strip_cr (before_newline buf)) = line
  /\ (exists c r, line = c :: r /\ Ascii.eqb c HASH = false)
  /\ fst (parse_tab_line mnt_new_fs line) <> 0%Z.

(** The outcome of a pass of the lock loop that starts when the deadline
    has passed. *)
Definition late_pass_outcome (ml : libmnt_lock) (rc : Z) (a : lock_pass)
  : Z * libmnt_lock :=
  match sys_link a with
  | None =>
      match sys_open a with
      | inl fd => (0%Z, with_lock_state ml fd true)
      | inr e => (errno_code e rc, mnt_unlock_file ml)
      end
  | Some e =>
      if (e =? EEXIST)%Z then
        match sys_open a with
        | inl _ => ((- ETIMEDOUT)%Z, mnt_unlock_file ml)
        | inr e' => (errno_code e' rc, mnt_unlock_file ml)
        end
      else (errno_code e rc, mnt_unlock_file ml)
  end.

(** A pass of the lock loop that waits for the holder of the lockfile and
    is followed by another pass: [link] fails with EEXIST, the lockfile
    opens, and [mnt_wait_mtab_lock] neither times out nor fails. *)
Definition pass_waits (maxtime : Z) (a : lock_pass) : bool :=
  match sys_link a, sys_open a with
  | Some e, inl _ =>
      let err := mnt_wait_mtab_lock (now_at_wait a) maxtime (sys_setlkw a) in
      (e =? EEXIST)%Z && negb (err =? 1)%Z && negb (err <? 0)%Z
  | _, _ => false
  end.

(** A pass that finds the lockfile gone ([open] fails with ENOENT) before
    the deadline and is followed by another pass. *)
Definition pass_finds_no_lockfile (maxtime : Z) (a : lock_pass) : bool :=
  match sys_open a with
  | inr errsv =>
      match sys_link a with
      | Some e => (e =? EEXIST)%Z
      | None => true
      end
      && (errsv =? ENOENT)%Z && (now_after_open a <? maxtime)%Z
  | inl _ => false
  end.

(** A pass after which the loop runs again. *)
Definition pass_retries (maxtime : Z) (a : lock_pass) : bool :=
  pass_waits maxtime a || pass_finds_no_lockfile maxtime a.

(** One sleep of [waittime] for every pass that waits. *)
Definition sleeps_of (maxtime waittime : Z) (passes : list lock_pass)
  : list Z :=
  map (fun _ => waittime) (filter (pass_waits maxtime) passes).

(** ** Instances for the examples *)

(** Modelled from the spec: [blkid_parse_tag_string] of libblkid, which is
    not part of these sources.  A source of the form NAME=VALUE is split
    at its first [=]; the recognized tag names are a closed set (LABEL,
    UUID, PARTLABEL, PARTUUID) and an unknown key is a parse failure. *)
Definition recognized_tags : list cstring :=
  [cstr "LABEL"; cstr "UUID"; cstr "PARTLABEL"; cstr "PARTUUID"].

Fixpoint split_at_equals (s : cstring) : option (cstring * cstring) :=
  match s with
  | [] => None
  | c :: r =>
      if Ascii.eqb c EQUALS then Some ([], r)
      else match split_at_equals r with
           | Some (n, v) => Some (c :: n, v)
           | None => None
           end
  end.

Definition blkid_parse_tag_string (s : cstring) : option (cstring * cstring) :=
  match split_at_equals s with
  | Some (n, v) => if existsb (streq n) recognized_tags then Some (n, v)
                   else None
  | None => None
  end.

(** A few rows of the filesystem-type tables of utils.c (not part of
    these sources), enough to run the type setter on examples. *)
Definition sample_is_pseudofs (t : cstring) : bool :=
  streq t (cstr "proc") || streq t (cstr "sysfs") || streq t (cstr "tmpfs").

Definition sample_is_netfs (t : cstring) : bool :=
  streq t (cstr "nfs") || streq t (cstr "cifs").

Definition sample_source (fs : mnt_fs) (s : string) : mnt_fs :=
  snd (mnt_fs_set_source blkid_parse_tag_string fs (cstr s)).

Definition sample_fstype (fs : mnt_fs) (s : string) : mnt_fs :=
  snd (mnt_fs_set_fstype sample_is_pseudofs sample_is_netfs fs (Some (cstr s))).

Definition sample_target (fs : mnt_fs) (s : string) : mnt_fs :=
  snd (mnt_fs_set_target fs (Some (cstr s))).

(** [/dev/mapper/root  /      ext4]: a path that the cache canonicalizes
    to [/dev/dm-0]. *)
Definition mapper_entry : mnt_fs :=
  sample_fstype (sample_target (sample_source mnt_new_fs "/dev/mapper/root") "/") "ext4".

(** [LABEL=data  /data  ext4] *)
Definition label_entry : mnt_fs :=
  sample_fstype (sample_target (sample_source mnt_new_fs "LABEL=data") "/data") "ext4".

(** A cache that knows [/dev/mapper/root] as [/dev/dm-0] and the label
    [data] on that device. *)
Definition sample_cache : mnt_cache :=
  {| mnt_resolve_path := fun p =>
       if streq p (cstr "/dev/mapper/root") then Some (cstr "/dev/dm-0")
       else if streq p (cstr "/mnt/../home") then Some (cstr "/home")
       else Some p;
     mnt_cache_read_tags := fun _ => (0%Z, 0%Z);
     mnt_cache_device_has_tag := fun dev t v =>
       streq dev (cstr "/dev/dm-0") && streq t (cstr "LABEL")
       && match v with
          | Some x => streq x (cstr "data")
          | None => false
          end;
     mnt_resolve_tag := fun _ _ => None |}.

Definition table_of (c : option mnt_cache) (l : list mnt_fs) : mnt_tab :=
  fold_left (fun tb fs => snd (mnt_tab_add_fs tb fs)) l
    (mnt_tab_set_cache mnt_new_tab c).

Definition sample_table : mnt_tab :=
  table_of (Some sample_cache) [mapper_entry; label_entry].

(** [/dev/sda5  /mnt/../home  ext4] and a swap row with the same target. *)
Definition home_entry : mnt_fs :=
  sample_fstype (sample_target (sample_source mnt_new_fs "/dev/sda5") "/mnt/../home")
    "ext4".

Definition swap_entry : mnt_fs :=
  sample_fstype (sample_target (sample_source mnt_new_fs "/dev/sda2") "/mnt/../home")
    "swap".

Definition swap_table : mnt_tab :=
  table_of (Some sample_cache) [home_entry; swap_entry].

(** A classic table with an error callback that answers [code]. *)
Definition fstab_with_callback (code : Z) : mnt_tab :=
  mnt_tab_set_parser_errcb (with_fmt mnt_new_tab MNT_FMT_FSTAB)
    (Some (fun _ _ => code)).

Definition two_lines : list cstring :=
  [cstr "garbage" ++ [NEWLINE];
   cstr "/dev/sda1 / ext4 defaults 0 1" ++ [NEWLINE]].

(** A lock handle for [/etc/mtab] of process 42. *)
Definition sample_lock : libmnt_lock :=
  {| refcount := 1; lockfile := Some (cstr "/etc/mtab~");
     linkfile := Some (cstr "/etc/mtab~.42"); lockfile_fd := (-1)%Z;
     locked := false; sigblock := false; simplelock := false |}.

Definition no_simple_answers : simple_answers :=
  {| sl_open := inr ENOENT; sl_fstat := inr ENOENT; sl_fchmod := None;
     sl_flock := [] |}.

(** Another process holds the lockfile: [link] fails with EEXIST, the
    lockfile opens, and the wait for the advisory lock returns at once. *)
Definition busy_pass (now : Z) : lock_pass :=
  {| sys_link := Some EEXIST; sys_open := inl 3%Z; now_after_open := now;
     now_at_wait := now; sys_setlkw := None |}.

(** The lockfile is gone when it is opened. *)
Definition vanished_pass (now : Z) : lock_pass :=
  {| sys_link := Some EEXIST; sys_open := inr ENOENT; now_after_open := now;
     now_at_wait := now; sys_setlkw := None |}.

(** ** Items that a walk over an option string collects *)

(** The item as [__mnt_optstr_append_option] writes it again: a present
    but empty value is dropped together with its [=]. *)
Definition normal (it : optitem) : optitem :=
  appended_item (o_name it) (o_value it).

(** The string built from the items that were appended; NULL when there
    were none. *)
Definition collected (l : list optitem) : option cstring :=
  match l with
  | [] => None
  | _ :: _ => Some (optstr_of (map normal l))
  end.

Definition has_name (it : optitem) : bool := nonempty (o_name it).

(** The items that [mnt_optstr_get_options] keeps: known to the map with
    a non-zero id and not masked. *)
Definition kept_by (lookup : cstring -> option nat * option mnt_optmap)
           (ignore : Z) (it : optitem) : bool :=
  match snd (lookup (o_name it)) with
  | Some e => negb (om_id e =? 0)%Z && negb (masked ignore e)
  | None => false
  end.

(** One pass of the loop of [mnt_optstr_get_options], on the item. *)
Definition get_options_step (lookup : cstring -> option nat * option mnt_optmap)
           (ignore : Z) (acc : option cstring) (it : optitem)
  : option cstring :=
  if kept_by lookup ignore it
  then snd (mnt_optstr_append_option acc (Some (o_name it)) (o_value it))
  else acc.

(** Where [mnt_split_optstr] puts an item. *)
Inductive split_part := ToUser | ToVfs | ToFs | Dropped.

Definition split_part_of (lookup : cstring -> option nat * option mnt_optmap)
           (want_user want_vfs want_fs : bool) (ignore_user ignore_vfs : Z)
           (it : optitem) : split_part :=
  let '(m, ent) := lookup (o_name it) in
  let unknown := if is_none m && want_fs then ToFs else Dropped in
  match ent with
  | None => unknown
  | Some e =>
      if (om_id e =? 0)%Z then Dropped
      else if map_is m 0 && want_vfs
      then (if masked ignore_vfs e then Dropped else ToVfs)
      else if map_is m 1 && want_user
      then (if masked ignore_user e then Dropped else ToUser)
      else unknown
  end.

Definition split_part_eqb (a b : split_part) : bool :=
  match a, b with
  | ToUser, ToUser | ToVfs, ToVfs | ToFs, ToFs | Dropped, Dropped => true
  | _, _ => false
  end.

(** One pass of the loop of [mnt_split_optstr], on the item. *)
Definition split_step (part : optitem -> split_part) (acc : split_optstr)
           (it : optitem) : split_optstr :=
  let add out :=
    snd (mnt_optstr_append_option out (Some (o_name it)) (o_value it)) in
  match part it with
  | ToUser => {| sp_user := add (sp_user acc); sp_vfs := sp_vfs acc;
                 sp_fs := sp_fs acc |}
  | ToVfs => {| sp_user := sp_user acc; sp_vfs := add (sp_vfs acc);
                sp_fs := sp_fs acc |}
  | ToFs => {| sp_user := sp_user acc; sp_vfs := sp_vfs acc;
               sp_fs := add (sp_fs acc) |}
  | Dropped => acc
  end.

(** The bytes [value, value + valsz) of [buf]; NULL for a NULL [value]. *)
Definition value_at (buf : cstring) (loc : option nat * nat) : option cstring :=
  match fst loc with
  | Some off => Some (firstn (snd loc) (skipn off buf))
  | None => None
  end.

(** The item without its value; an empty value is left as it is. *)
Definition without_value (it : optitem) : optitem :=
  match o_value it with
  | Some (_ :: _) => {| o_name := o_name it; o_value := None |}
  | _ => it
  end.

(** The items of a field that may be NULL. *)
Definition items_of (o : option (list optitem)) : list optitem :=
  match o with
  | Some l => l
  | None => []
  end.

(** A field after the items [l] were appended to it in one call. *)
Definition field_with (field : option cstring) (l : list optitem)
  : option cstring :=
  match l with
  | [] => field
  | _ :: _ =>
      Some (match field with
            | Some (c :: s) => c :: s ++ COMMA :: optstr_of (map normal l)
            | _ => optstr_of (map normal l)
            end)
  end.

(** The entries in front of the first one whose parent id is zero: the
    entries that [mnt_tab_get_root_fs] looks at. *)
Fixpoint with_parent (l : list mnt_fs) : list mnt_fs :=
  match l with
  | [] => []
  | fs :: l' => if (parent fs =? 0)%Z then [] else fs :: with_parent l'
  end.

(** The children of [parent_id] with an id above [last]. *)
Definition children_after (parent_id last : Z) (l : list mnt_fs)
  : list mnt_fs :=
  filter (fun fs => (parent fs =? parent_id)%Z && (last <? id fs)%Z) l.

(** The last chunk [buf] of a classic table that lacks the final newline
    and holds the readable line [line] which the line parser rejects. *)
Definition rejected_last_line
           (parse_tab_line : mnt_fs -> cstring -> Z * mnt_fs)
           (buf line : cstring) : Prop :=
  has_char NEWLINE buf = false
  /\ skip_spaces (strip_cr (before_newline buf)) = line
  /\ (exists c r, line = c :: r /\ Ascii.eqb c HASH = false)
  /\ fst (parse_tab_line mnt_new_fs line) <> 0%Z.

(** A field after the items [l] were prepended to it in one call. *)
Definition field_before (field : option cstring) (l : list optitem)
  : option cstring :=
  match l with
  | [] => field
  | _ :: _ =>
      Some (match field with
            | Some (c :: s) => optstr_of (map normal l) ++ COMMA :: c :: s
            | _ => optstr_of (map normal l)
            end)
  end.

(** The result of a lookup is NULL or an entry of the table. *)
Definition entry_of (tb : mnt_tab) (r : option mnt_fs) : Prop :=
  match r with
  | Some fs => In fs (ents tb)
  | None => True
  end.

(** A few rows of the built-in option maps of optmap.c (not part of
    these sources), enough to split option strings on examples: the
    kernel map with a comment row of id 0, and the userspace map. *)
Inductive sample_optmap := SAMPLE_LINUX_MAP | SAMPLE_USERSPACE_MAP.

Definition sample_rows (m : sample_optmap) : list (cstring * mnt_optmap) :=
  match m with
  | SAMPLE_LINUX_MAP =>
      [(cstr "ro", {| om_id := 1; om_mask := 0 |});
       (cstr "rw", {| om_id := 1; om_mask := 0 |});
       (cstr "nosuid", {| om_id := 2; om_mask := 0 |});
       (cstr "noexec", {| om_id := 8; om_mask := 0 |});
       (cstr "defaults", {| om_id := 0; om_mask := 0 |})]
  | SAMPLE_USERSPACE_MAP =>
      [(cstr "noauto", {| om_id := 4; om_mask := 2 |});
       (cstr "user", {| om_id := 8; om_mask := 0 |});
       (cstr "loop", {| om_id := 64; om_mask := 0 |})]
  end.

Fixpoint sample_row (name : cstring) (rows : list (cstring * mnt_optmap))
  : option mnt_optmap :=
  match rows with
  | [] => None
  | (n, e) :: r => if streq n name then Some e else sample_row name r
  end.

Fixpoint sample_entry_from (i : nat) (maps : list sample_optmap)
         (name : cstring) : option nat * option mnt_optmap :=
  match maps with
  | [] => (None, None)
  | m :: r =>
      match sample_row name (sample_rows m) with
      | Some e => (Some i, Some e)
      | None => sample_entry_from (S i) r name
      end
  end.

Definition sample_optmap_get_entry (maps : list sample_optmap)
           (name : cstring) : option nat * option mnt_optmap :=
  sample_entry_from 0 maps name.

(** An entry with the three option strings given. *)
Definition entry_with_options (v f u : option cstring) : mnt_fs :=
  with_optstrs mnt_new_fs v f u.

(** A mountinfo row: id, parent id and mountpoint. *)
Definition mountinfo_entry (i p : Z) (t : string) : mnt_fs :=
  {| id := i; parent := p; devno := 0; bindsrc := None; source := None;
     tagname := None; tagval := None; root := None; target := Some (cstr t);
     fstype := None; vfs_optstr := None; fs_optstr := None;
     user_optstr := None; attrs := None; freq := 0; passno := 0;
     flags := 0 |}.

(** [/] with [/proc] and [/home] below it and [/home/data] below
    [/home], listed out of order. *)
Definition sample_mountinfo : mnt_tab :=
  table_of None
    [mountinfo_entry 21 20 "/home"; mountinfo_entry 15 1 "/";
     mountinfo_entry 30 21 "/home/data"; mountinfo_entry 17 15 "/proc";
     mountinfo_entry 16 15 "/sys"].

(** A stand-in for [endswith] of utils.c. *)
Definition sample_endswith (s sx : cstring) : bool :=
  (length sx <=? length s) && streq (skipn (length s - length sx) s) sx.

(** The simple lock of [/run/mount/utab]. *)
Definition sample_simplelock : libmnt_lock :=
  {| refcount := 1; lockfile := Some (cstr "/run/mount/utab.lock");
     linkfile := Some (cstr "/run/mount/utab~.42"); lockfile_fd := (-1)%Z;
     locked := false; sigblock := false; simplelock := true |}.

(** The lock file opens with mode 0644 and [flock] is interrupted twice
    before it succeeds. *)
Definition interrupted_answers : simple_answers :=
  {| sl_open := inl 3%Z; sl_fstat := inl 420%Z; sl_fchmod := None;
     sl_flock := [Some EINTR; Some EAGAIN; None] |}.

(** [flock] failed with EAGAIN or EINTR. *)
Definition is_retry (r : sys_result) : bool :=
  match r with
  | Some e => (e =? EAGAIN)%Z || (e =? EINTR)%Z
  | None => false
  end.

(** The line parsers with the sample tables of filesystem types and of
    mount options.  The walk over the options of a line has fuel for the
    whole string; the code for a walk that runs out of it is not met. *)
Definition sample_parse_tab_line (fs : mnt_fs) (s : cstring) : Z * mnt_fs :=
  match mnt_parse_tab_line sample_is_pseudofs sample_is_netfs
          blkid_parse_tag_string sample_optmap sample_optmap_get_entry
          SAMPLE_LINUX_MAP SAMPLE_USERSPACE_MAP fs s with
  | Some r => r
  | None => ((- EINVAL)%Z, fs)
  end.

Definition sample_parse_mountinfo_line (fs : mnt_fs) (s : cstring)
  : Z * mnt_fs :=
  mnt_parse_mountinfo_line sample_is_pseudofs sample_is_netfs
    blkid_parse_tag_string fs s.

(** * Properties *)

(** ** The option-string engine *)

Lemma cstring_eqb_eq a b : cstring_eqb a b = true <-> a = b.
Proof.
  revert b; induction a as [|x a IH]; destruct b as [|y b]; simpl;
    try (split; (discriminate || reflexivity)).
  rewrite andb_true_iff, Ascii.eqb_eq, IH. split.
  - intros [-> ->]; reflexivity.
  - intros H; inversion H; auto.
Qed.

Lemma cstring_eqb_refl a : cstring_eqb a a = true.
Proof. apply cstring_eqb_eq; reflexivity. Qed.

Lemma cstring_eqb_neq a b : cstring_eqb a b = false <-> a <> b.
Proof.
  rewrite <- cstring_eqb_eq. destruct (cstring_eqb a b); split; congruence.
Qed.

(** One item followed by the end of the string or by a comma. *)
Lemma parse_loop_item w : forall oq sep p start tail,
  chars_ok oq w = true ->
  (tail = [] \/ exists r, tail = COMMA :: r) ->
  start_of start p <= p ->
  (w <> [] \/ (tail <> [] /\ start_of start p < p)) ->
  parse_loop (w ++ tail) p start oq sep
  = ParseOk (item_of (start_of start p) (scan_sep oq sep p w) (p + length w)
               (match tail with [] => false | _ :: _ => true end)).
Proof.
  induction w as [|c w IH]; intros oq sep p start tail Hok Htail Hst Hne.
  - destruct Hne as [Hne|[Hne Hs]]; [congruence|].
    destruct Htail as [->|[r ->]]; [congruence|].
    simpl in Hok. destruct oq; [discriminate|].
    simpl. fold (start_of start p).
    replace (p <=? start_of start p) with false
      by (symmetry; apply Nat.leb_gt; lia).
    unfold item_of. rewrite Nat.add_0_r. destruct sep; reflexivity.
  - simpl in Hok. apply andb_true_iff in Hok as [Hc Hok].
    cbn [app parse_loop]. fold (toggle oq c). fold (start_of start p).
    destruct (toggle oq c) eqn:Hq.
    + (* inside a quoted block *)
      assert (w <> []) by (destruct w; [discriminate|congruence]).
      rewrite IH; try assumption; try (simpl; lia); try (left; assumption).
      cbn [scan_sep]. rewrite Hq. cbn [length start_of].
      rewrite Nat.add_succ_r. reflexivity.
    + simpl in Hc. apply negb_true_iff in Hc. rewrite Hc.
      cbn [scan_sep]. rewrite Hq. cbn [length]. rewrite Nat.add_succ_r.
      destruct (w ++ tail) as [|d l] eqn:Hl.
      * apply app_eq_nil in Hl as [-> ->].
        replace (S p <=? start_of start p) with false
          by (symmetry; apply Nat.leb_gt; lia).
        cbn [scan_sep length]. rewrite Nat.add_0_r. reflexivity.
      * rewrite <- Hl. rewrite IH; try assumption; try (simpl; lia).
        -- reflexivity.
        -- destruct w; [right|left; congruence]. simpl in Hl. subst tail.
           split; [congruence|simpl; lia].
Qed.

Lemma scan_sep_some w : forall oq q p, scan_sep oq (Some q) p w = Some q.
Proof.
  induction w as [|c w IH]; intros; simpl; [reflexivity|].
  destruct (toggle oq c); apply IH.
Qed.

Lemma plain_toggle c oq : plain c = true -> toggle oq c = oq.
Proof.
  unfold plain, toggle. intros H.
  apply andb_true_iff in H as [_ H]. apply negb_true_iff in H.
  rewrite H. reflexivity.
Qed.

Lemma plain_not_comma c : plain c = true -> Ascii.eqb c COMMA = false.
Proof.
  unfold plain. intros H. apply andb_true_iff in H as [H _].
  apply andb_true_iff in H as [H _]. apply negb_true_iff in H. exact H.
Qed.

Lemma plain_not_equals c : plain c = true -> Ascii.eqb c EQUALS = false.
Proof.
  unfold plain. intros H. apply andb_true_iff in H as [H _].
  apply andb_true_iff in H as [_ H]. apply negb_true_iff in H. exact H.
Qed.

Lemma scan_sep_name n : forall p w,
  name_ok n = true ->
  scan_sep false None p (n ++ w) = scan_sep false None (p + length n) w.
Proof.
  induction n as [|c n IH]; intros p w H; simpl.
  - rewrite Nat.add_0_r. reflexivity.
  - simpl in H. apply andb_true_iff in H as [Hc Hn].
    rewrite (plain_toggle c false Hc), (plain_not_equals c Hc), IH by assumption.
    f_equal. lia.
Qed.

Lemma chars_ok_name n : forall w,
  name_ok n = true -> chars_ok false (n ++ w) = chars_ok false w.
Proof.
  induction n as [|c n IH]; intros w H; simpl; [reflexivity|].
  simpl in H. apply andb_true_iff in H as [Hc Hn].
  rewrite (plain_toggle c false Hc), (plain_not_comma c Hc), IH by assumption.
  reflexivity.
Qed.

Lemma item_ok_chars it : item_ok it = true -> chars_ok false (render it) = true.
Proof.
  unfold item_ok, render. intros H.
  apply andb_true_iff in H as [H _]. apply andb_true_iff in H as [Hn Hv].
  rewrite chars_ok_name by assumption.
  destruct (o_value it); [|reflexivity]. simpl. exact Hv.
Qed.

Lemma item_ok_nonempty it : item_ok it = true -> render it <> [].
Proof.
  unfold item_ok. intros H. apply andb_true_iff in H as [_ H].
  destruct (render it); [discriminate|congruence].
Qed.

Lemma item_ok_name it : item_ok it = true -> name_ok (o_name it) = true.
Proof.
  unfold item_ok. intros H. apply andb_true_iff in H as [H _].
  apply andb_true_iff in H as [H _]. exact H.
Qed.

Lemma scan_sep_render it p :
  item_ok it = true ->
  scan_sep false None p (render it)
  = match o_value it with
    | Some _ => Some (p + length (o_name it))
    | None => None
    end.
Proof.
  intros H. unfold render.
  rewrite scan_sep_name by (apply item_ok_name; assumption).
  destruct (o_value it); simpl; [|reflexivity].
  apply scan_sep_some.
Qed.

Lemma skipn_app_exact (A : Type) (pre l : list A) :
  skipn (length pre) (pre ++ l) = l.
Proof. induction pre; simpl; auto. Qed.

Lemma firstn_app_exact (A : Type) (pre l : list A) :
  firstn (length pre) (pre ++ l) = pre.
Proof. induction pre; simpl; f_equal; auto. Qed.

Lemma parse_next_item pre it tail :
  item_ok it = true ->
  (tail = [] \/ exists r, tail = COMMA :: r) ->
  mnt_optstr_parse_next (pre ++ render it ++ tail) (length pre)
  = ParseOk (parsed_item (length pre) it (nonempty tail)).
Proof.
  intros Hok Htail. unfold mnt_optstr_parse_next.
  rewrite skipn_app_exact.
  rewrite parse_loop_item; auto using item_ok_chars.
  2:{ left. apply item_ok_nonempty; assumption. }
  f_equal. rewrite scan_sep_render by assumption.
  unfold item_of, parsed_item, start_of, render, nonempty.
  destruct (o_value it) as [v|]; rewrite ?length_app; simpl length;
    destruct tail; f_equal; lia.
Qed.

Lemma join_cons x r :
  r <> [] -> join (x :: r) = x ++ COMMA :: join r.
Proof. destruct r; [congruence|reflexivity]. Qed.

Lemma join_app_cons before x after :
  join (before ++ x :: after)
  = joinc before ++ x ++ match after with
                         | [] => []
                         | _ :: _ => COMMA :: join after
                         end.
Proof.
  induction before as [|b before IH].
  - simpl. destruct after; [rewrite app_nil_r|]; reflexivity.
  - cbn [app]. rewrite join_cons by (destruct before; discriminate).
    rewrite IH. simpl. rewrite <- !app_assoc. reflexivity.
Qed.

Lemma joinc_app a b : joinc (a ++ b) = joinc a ++ joinc b.
Proof.
  induction a; simpl; [reflexivity|].
  rewrite IHa, <- app_assoc. reflexivity.
Qed.

Lemma join_snoc before x :
  before <> [] -> joinc before ++ x = join before ++ COMMA :: x.
Proof.
  induction before as [|b before IH]; [congruence|]. intros _.
  destruct before as [|b' before].
  - simpl. rewrite <- app_assoc. reflexivity.
  - rewrite join_cons by congruence.
    cbn [joinc] in *. rewrite <- !app_assoc. cbn [app].
    rewrite IH by congruence. reflexivity.
Qed.

Lemma name_matches_item pre it tail name :
  name_matches (pre ++ render it ++ tail) (length pre) (length (o_name it)) name
  = named name it.
Proof.
  unfold name_matches, named, render.
  rewrite skipn_app_exact, <- app_assoc, firstn_app_exact.
  destruct (cstring_eqb (o_name it) name) eqn:E.
  - apply cstring_eqb_eq in E. subst. rewrite Nat.eqb_refl. reflexivity.
  - apply andb_false_r.
Qed.

(** Items that do not carry the name are stepped over. *)
Lemma locate_loop_skip name before : forall pre rest fuel,
  forallb item_ok before = true ->
  existsb (named name) before = false ->
  locate_loop (length before + fuel)
    (pre ++ joinc (map render before) ++ rest) (length pre) name
  = locate_loop fuel (pre ++ joinc (map render before) ++ rest)
      (length (pre ++ joinc (map render before))) name.
Proof.
  induction before as [|b before IH]; intros pre rest fuel Hok Hno.
  - simpl. rewrite app_nil_r. reflexivity.
  - simpl in Hok, Hno. apply andb_true_iff in Hok as [Hb Hok].
    apply orb_false_iff in Hno as [Hnb Hno].
    cbn [length Nat.add locate_loop map joinc].
    rewrite <- (app_assoc (render b)). cbn [app].
    rewrite parse_next_item by eauto.
    cbn [parsed_item it_name it_namesz it_next nonempty].
    rewrite name_matches_item, Hnb.
    specialize (IH (pre ++ render b ++ [COMMA]) rest fuel Hok Hno).
    rewrite <- !app_assoc in IH. cbn [app] in IH.
    rewrite !length_app in IH. cbn [length] in IH.
    rewrite !length_app. cbn [length].
    replace (length pre + length (render b) + 1)
      with (length pre + (length (render b) + 1)) by lia.
    rewrite IH. reflexivity.
Qed.

Lemma locate_loop_mono name buf : forall fuel fuel' off r,
  locate_loop fuel buf off name = Some r ->
  fuel <= fuel' ->
  locate_loop fuel' buf off name = Some r.
Proof.
  induction fuel as [|fuel IH]; intros fuel' off r H Hle; [discriminate|].
  destruct fuel' as [|fuel']; [lia|].
  simpl in *. destruct (mnt_optstr_parse_next buf off); auto.
  destruct (name_matches buf (it_name r0) (it_namesz r0) name); auto.
  apply IH with (fuel' := fuel') in H; [assumption|lia].
Qed.

Lemma chars_ok_last w : forall oq,
  chars_ok oq w = true -> w <> [] -> last w NUL <> COMMA.
Proof.
  induction w as [|c w IH]; intros oq H Hne; [congruence|].
  simpl in H. apply andb_true_iff in H as [Hc H].
  destruct w as [|d w].
  - simpl in *. destruct (toggle oq c); [discriminate|].
    simpl in Hc. apply negb_true_iff, Ascii.eqb_neq in Hc. exact Hc.
  - change (last (c :: d :: w) NUL) with (last (d :: w) NUL).
    apply IH with (oq := toggle oq c); [assumption|congruence].
Qed.

Lemma char_at_app_r pre w i :
  char_at (pre ++ w) (length pre + i) = char_at w i.
Proof.
  unfold char_at. rewrite app_nth2 by lia. f_equal. lia.
Qed.

Lemma char_at_last w :
  w <> [] -> char_at w (length w - 1) = last w NUL.
Proof.
  intros H. unfold char_at.
  destruct (exists_last H) as [w' [c ->]].
  rewrite last_last, length_app, app_nth2 by (simpl; lia).
  simpl. replace (length w' + 1 - 1 - length w') with 0 by lia. reflexivity.
Qed.

Lemma length_joinc l : length l <= length (joinc l).
Proof.
  induction l; simpl; [lia|]. rewrite length_app. simpl. lia.
Qed.

Lemma locate_loop_here name pre it tail fuel :
  item_ok it = true ->
  named name it = true ->
  (tail = [] \/ exists r, tail = COMMA :: r) ->
  locate_loop (S fuel) (pre ++ render it ++ tail) (length pre) name
  = Some (Located (located_item (length pre) it)).
Proof.
  intros Hok Hn Htail. cbn [locate_loop].
  rewrite parse_next_item by assumption.
  cbn [parsed_item it_name it_namesz it_next it_value it_valsz].
  rewrite name_matches_item, Hn. unfold located_item. do 3 f_equal.
  destruct Htail as [->|[r ->]]; cbn [nonempty].
  - rewrite Nat.add_0_r, app_nil_r.
    replace (length pre + length (render it) - 1)
      with (length pre + (length (render it) - 1))
      by (pose proof (item_ok_nonempty it Hok);
          destruct (render it); [congruence|simpl; lia]).
    rewrite char_at_app_r, char_at_last by (apply item_ok_nonempty; auto).
    pose proof (chars_ok_last (render it) false (item_ok_chars it Hok)
                  (item_ok_nonempty it Hok)) as Hl.
    apply Ascii.eqb_neq in Hl. rewrite Hl. reflexivity.
  - replace (length pre + length (render it) + 1 - 1)
      with (length pre + length (render it)) by lia.
    rewrite app_assoc, <- length_app.
    replace (length (pre ++ render it)) with (length (pre ++ render it) + 0)
      by lia.
    rewrite char_at_app_r. unfold char_at. simpl.
    rewrite Nat.add_0_r, length_app. reflexivity.
Qed.

Lemma locate_found name before it after :
  forallb item_ok (before ++ it :: after) = true ->
  existsb (named name) before = false ->
  named name it = true ->
  mnt_optstr_locate_option (Some (optstr_of (before ++ it :: after))) name
  = Located (located_item (length (joinc (map render before))) it).
Proof.
  intros Hok Hno Hn. unfold mnt_optstr_locate_option, locate_from, optstr_of.
  rewrite forallb_app in Hok. apply andb_true_iff in Hok as [Hb Hok].
  simpl in Hok. apply andb_true_iff in Hok as [Hit Ha].
  rewrite map_app. cbn [map]. rewrite join_app_cons.
  set (tail := match map render after with
               | [] => []
               | _ :: _ => COMMA :: join (map render after)
               end).
  assert (Htail : tail = [] \/ exists r, tail = COMMA :: r)
    by (subst tail; destruct (map render after); eauto).
  set (buf := joinc (map render before) ++ render it ++ tail).
  assert (H : locate_loop (length before + 1) buf 0 name
              = Some (Located (located_item
                                 (length (joinc (map render before))) it))).
  { pose proof (locate_loop_skip name before [] (render it ++ tail) 1 Hb Hno)
      as Hs.
    cbn [app length] in Hs. fold buf in Hs. rewrite Hs.
    subst buf. apply locate_loop_here; assumption. }
  apply locate_loop_mono with (fuel' := S (length buf - 0)) in H.
  - rewrite H. reflexivity.
  - subst buf. rewrite length_app.
    pose proof (length_joinc (map render before)) as Hl.
    rewrite length_map in Hl. lia.
Qed.

Lemma parse_next_at_end buf :
  mnt_optstr_parse_next buf (length buf) = ParseEnd.
Proof.
  unfold mnt_optstr_parse_next. rewrite skipn_all. reflexivity.
Qed.

Lemma locate_not_found name its :
  forallb item_ok its = true ->
  existsb (named name) its = false ->
  mnt_optstr_locate_option (Some (optstr_of its)) name = NotFound.
Proof.
  intros Hok Hno. unfold mnt_optstr_locate_option, locate_from, optstr_of.
  destruct its as [|x its] using rev_ind.
  - reflexivity.
  - clear IHits. rewrite forallb_app in Hok.
    apply andb_true_iff in Hok as [Hb Hx]. simpl in Hx.
    rewrite andb_true_r in Hx.
    rewrite existsb_app in Hno. apply orb_false_iff in Hno as [Hnb Hnx].
    simpl in Hnx. rewrite orb_false_r in Hnx.
    rewrite map_app. cbn [map]. rewrite join_app_cons.
    set (buf := joinc (map render its) ++ render x ++ []).
    assert (H : locate_loop (length its + 2) buf 0 name = Some NotFound).
    { pose proof (locate_loop_skip name its [] (render x ++ []) 2 Hb Hnb)
        as Hs.
      cbn [app length] in Hs. fold buf in Hs. rewrite Hs.
      cbn [locate_loop]. subst buf.
      rewrite parse_next_item by auto.
      cbn [parsed_item it_name it_namesz it_next nonempty].
      rewrite name_matches_item, Hnx.
      rewrite Nat.add_0_r, <- length_app, app_nil_r, parse_next_at_end.
      reflexivity. }
    apply locate_loop_mono with (fuel' := S (length buf - 0)) in H.
    + rewrite H. reflexivity.
    + subst buf. rewrite !length_app.
      pose proof (length_joinc (map render its)) as Hl.
      rewrite length_map in Hl.
      pose proof (item_ok_nonempty x Hx).
      destruct (render x); [congruence|simpl; lia].
Qed.

Lemma joinc_join B : B <> [] -> joinc B = join B ++ [COMMA].
Proof.
  induction B as [|b B IH]; [congruence|]. intros _.
  destruct B as [|b' B]; [reflexivity|].
  rewrite join_cons by congruence. cbn [joinc] in *.
  rewrite IH by congruence. rewrite <- app_assoc. reflexivity.
Qed.

Lemma joinc_nil B : joinc B = [] -> B = [].
Proof. destruct B as [|b B]; [reflexivity|]. simpl. destruct b; discriminate. Qed.

Lemma join_app_nonempty B after :
  after <> [] -> joinc B ++ join after = join (B ++ after).
Proof.
  destruct after as [|a after]; [congruence|]. intros _.
  rewrite join_app_cons. destruct after; [rewrite app_nil_r|]; reflexivity.
Qed.

Lemma char_at_before_joinc B w :
  B <> [] -> char_at (joinc B ++ w) (length (joinc B) - 1) = COMMA.
Proof.
  intros H. rewrite joinc_join by assumption.
  rewrite <- app_assoc, length_app. cbn [length app].
  replace (length (join B) + 1 - 1) with (length (join B) + 0) by lia.
  rewrite char_at_app_r. reflexivity.
Qed.

Lemma char_at_app2 a b t i :
  char_at (a ++ b ++ t) (length a + length b + i) = char_at t i.
Proof.
  rewrite app_assoc, <- length_app. apply char_at_app_r.
Qed.

Lemma skipn_app2 (a b t : cstring) k :
  skipn (length a + length b + k) (a ++ b ++ t) = skipn k t.
Proof.
  rewrite app_assoc, <- length_app, Nat.add_comm, <- skipn_skipn.
  rewrite skipn_app_exact. reflexivity.
Qed.

(** Cutting one item out of a well-formed string. *)
Lemma remove_option_at_item B R tail :
  (tail = [] \/ exists c T, tail = COMMA :: c :: T) ->
  mnt_optstr_remove_option_at (joinc B ++ R ++ tail)
    (length (joinc B)) (length (joinc B) + length R)
  = match tail with
    | [] => join B
    | _ :: T => joinc B ++ T
    end.
Proof.
  intros Htail. unfold mnt_optstr_remove_option_at.
  assert (H1 : (length (joinc B) =? 0)
               || Ascii.eqb (char_at (joinc B ++ R ++ tail)
                               (length (joinc B) - 1)) COMMA = true).
  { destruct B as [|b B]; [reflexivity|].
    rewrite char_at_before_joinc by congruence.
    rewrite Ascii.eqb_refl. apply orb_true_r. }
  rewrite H1. cbn [andb]. clear H1.
  rewrite firstn_app_exact.
  pose proof (char_at_app2 (joinc B) R tail 0) as Hc.
  rewrite Nat.add_0_r in Hc. rewrite Hc. clear Hc.
  destruct Htail as [->|[c [T ->]]].
  - cbn [char_at nth]. change (Ascii.eqb NUL COMMA) with false. cbv iota.
    pose proof (skipn_app2 (joinc B) R [] 0) as Hs.
    rewrite Nat.add_0_r in Hs. rewrite Hs. clear Hs.
    cbn [skipn]. rewrite app_nil_r.
    unfold at_end. rewrite Nat.leb_refl. cbn [andb].
    destruct B as [|b B]; [reflexivity|].
    replace (joinc (b :: B)) with (joinc (b :: B) ++ []) at 2
      by apply app_nil_r.
    rewrite char_at_before_joinc by congruence.
    rewrite Ascii.eqb_refl.
    replace (length (joinc (b :: B)) =? 0) with false
      by (symmetry; apply Nat.eqb_neq; simpl; rewrite length_app; simpl; lia).
    cbn [negb andb]. rewrite joinc_join by congruence.
    rewrite length_app. cbn [length].
    replace (length (join (b :: B)) + 1 - 1) with (length (join (b :: B)))
      by lia.
    apply firstn_app_exact.
  - cbn [char_at nth]. rewrite Ascii.eqb_refl. cbv iota.
    pose proof (skipn_app2 (joinc B) R (COMMA :: c :: T) 1) as Hs.
    rewrite Nat.add_1_r in Hs. rewrite Hs. clear Hs. cbn [skipn].
    unfold at_end. rewrite length_app. cbn [length].
    replace (length (joinc B) + S (length T) <=? length (joinc B)) with false
      by (symmetry; apply Nat.leb_gt; lia).
    reflexivity.
Qed.

Lemma split_named name its :
  existsb (named name) its = true ->
  exists before it after,
    its = before ++ it :: after
    /\ existsb (named name) before = false
    /\ named name it = true
    /\ remove_named name its = before ++ after.
Proof.
  induction its as [|x its IH]; [discriminate|]. simpl.
  destruct (named name x) eqn:E.
  - intros _. exists [], x, its. auto.
  - simpl. intros H. destruct (IH H) as (b & it & a & -> & Hb & Hit & Hr).
    exists (x :: b), it, a. simpl. rewrite E, Hr. auto.
Qed.

Lemma join_nonempty l :
  l <> [] -> forallb item_ok l = true -> join (map render l) <> [].
Proof.
  destruct l as [|x l]; [congruence|]. intros _ H. simpl in H.
  apply andb_true_iff in H as [Hx _]. pose proof (item_ok_nonempty x Hx).
  cbn [map]. destruct (map render l); cbn [join];
    destruct (render x); simpl; congruence.
Qed.

(** [mnt_optstr_remove_option] on a well-formed string deletes the first
    item that carries the name. *)
Lemma remove_option_items name its :
  forallb item_ok its = true ->
  mnt_optstr_remove_option (Some (optstr_of its)) name
  = if existsb (named name) its
    then (0%Z, Some (optstr_of (remove_named name its)))
    else (1%Z, Some (optstr_of its)).
Proof.
  intros Hok. unfold mnt_optstr_remove_option.
  destruct (existsb (named name) its) eqn:E.
  - destruct (split_named name its E) as (B & it & A & -> & HB & Hit & Hr).
    rewrite locate_found by assumption. rewrite Hr.
    cbn [located_item ol_begin ol_end]. unfold optstr_of.
    rewrite !map_app. cbn [map]. rewrite join_app_cons.
    rewrite forallb_app in Hok. apply andb_true_iff in Hok as [_ Hok].
    simpl in Hok. apply andb_true_iff in Hok as [_ HA].
    do 2 f_equal.
    destruct A as [|a A].
    + cbn [map].
      rewrite (remove_option_at_item (map render B) (render it) []) by auto.
      rewrite app_nil_r. reflexivity.
    + pose proof (join_nonempty (a :: A) ltac:(congruence) HA) as Hne.
      destruct (join (map render (a :: A))) as [|c T] eqn:EJ; [congruence|].
      change (match map render (a :: A) with
              | [] => []
              | _ :: _ => COMMA :: c :: T
              end) with (COMMA :: c :: T).
      rewrite (remove_option_at_item (map render B) (render it)
                 (COMMA :: c :: T)) by eauto.
      rewrite <- EJ. apply join_app_nonempty. discriminate.
  - rewrite locate_not_found by assumption. reflexivity.
Qed.

Lemma firstn_length_all (A : Type) (l : list A) : firstn (length l) l = l.
Proof. apply firstn_all. Qed.

Lemma optstr_of_nil its :
  forallb item_ok its = true -> (length (optstr_of its) =? 0) = true ->
  its = [].
Proof.
  intros Hok H. apply Nat.eqb_eq in H. destruct its as [|x its]; auto.
  pose proof (join_nonempty (x :: its) ltac:(congruence) Hok) as Hne.
  unfold optstr_of in H. destruct (join (map render (x :: its)));
    [congruence|discriminate].
Qed.

Lemma join_snoc_item l x :
  l <> [] -> join (l ++ [x]) = join l ++ COMMA :: x.
Proof.
  intros H. rewrite join_app_cons, app_nil_r. apply join_snoc; assumption.
Qed.

Lemma append_raw_render old n v :
  __mnt_optstr_append_option old n (length n)
    match v with Some v0 => v0 | None => [] end
    (length match v with Some v0 => v0 | None => [] end)
  = (if length match old with Some s => s | None => [] end =? 0
     then [] else match old with Some s => s | None => [] end ++ [COMMA])
    ++ render (appended_item n v).
Proof.
  unfold __mnt_optstr_append_option, render, appended_item.
  cbn [o_name o_value]. rewrite firstn_all.
  destruct v as [[|c v]|]; cbn [length Nat.eqb]; try reflexivity.
  change (S (length v)) with (length (c :: v)). rewrite firstn_all.
  reflexivity.
Qed.

Lemma append_option_items its n v :
  forallb item_ok its = true ->
  mnt_optstr_append_option (Some (optstr_of its)) (Some n) v
  = (0%Z, Some (optstr_of (its ++ [appended_item n v]))).
Proof.
  intros Hok. unfold mnt_optstr_append_option.
  rewrite append_raw_render. do 2 f_equal.
  destruct (length (optstr_of its) =? 0) eqn:E.
  - apply optstr_of_nil in E; [|assumption]. subst. reflexivity.
  - unfold optstr_of. rewrite map_app. cbn [map].
    rewrite join_snoc_item.
    + rewrite <- app_assoc. reflexivity.
    + destruct its; [discriminate|]. discriminate.
Qed.

Lemma remove_named_snoc name its x :
  existsb (named name) its = false -> named name x = true ->
  remove_named name (its ++ [x]) = its.
Proof.
  induction its as [|y its IH]; simpl; intros H Hx.
  - rewrite Hx. reflexivity.
  - apply orb_false_iff in H as [Hy H]. rewrite Hy, IH by assumption.
    reflexivity.
Qed.

Lemma named_refl n v : named n {| o_name := n; o_value := v |} = true.
Proof. apply cstring_eqb_refl. Qed.

Lemma char_at_name_last B n rest :
  n <> [] ->
  char_at (B ++ n ++ rest) (length B + length n - 1) = last n NUL.
Proof.
  intros H. replace (length B + length n - 1)
    with (length B + (length n - 1)) by (destruct n; [congruence|simpl; lia]).
  rewrite char_at_app_r. unfold char_at.
  rewrite app_nth1 by (destruct n; [congruence|simpl; lia]).
  apply char_at_last; assumption.
Qed.

Lemma name_ok_last n : name_ok n = true -> n <> [] -> plain (last n NUL) = true.
Proof.
  intros H Hne. unfold name_ok in H. rewrite forallb_forall in H.
  apply H. destruct (exists_last Hne) as [n' [c ->]].
  rewrite last_last. apply in_or_app. right. left. reflexivity.
Qed.

(** Cutting [=old] out of the item [n=old] that starts at [|B|]. *)
Lemma remove_value_at B n old tail :
  name_ok n = true -> n <> [] ->
  mnt_optstr_remove_option_at (B ++ (n ++ old) ++ tail)
    (length B + length n) (length B + length (n ++ old))
  = B ++ n ++ tail.
Proof.
  intros Hn Hne.
  pose proof (name_ok_last n Hn Hne) as Hl.
  assert (Hlen : 0 < length n) by (destruct n; [congruence|simpl; lia]).
  unfold mnt_optstr_remove_option_at.
  replace (length B + length n =? 0) with false
    by (symmetry; apply Nat.eqb_neq; lia).
  rewrite <- (app_assoc n old tail).
  rewrite (char_at_name_last B n (old ++ tail) Hne).
  rewrite (plain_not_comma _ Hl). cbn [orb andb].
  assert (Hf : firstn (length B + length n) (B ++ n ++ old ++ tail) = B ++ n).
  { rewrite app_assoc, <- length_app. apply firstn_app_exact. }
  assert (Hs : skipn (length B + length (n ++ old)) (B ++ n ++ old ++ tail)
               = tail).
  { rewrite (app_assoc n old tail), app_assoc, <- length_app.
    apply skipn_app_exact. }
  rewrite Hf, Hs. clear Hf Hs.
  rewrite <- (app_assoc B n tail).
  rewrite (char_at_name_last B n tail Hne), (plain_not_comma _ Hl).
  rewrite !andb_false_r. reflexivity.
Qed.

(** Writing [=v] behind the name of the item that starts at [|B|]. *)
Lemma insert_value_at B n tail v :
  name_ok n = true -> n <> [] ->
  insert_value (B ++ n ++ tail) (length B + length n) v
  = B ++ (n ++ EQUALS :: v) ++ tail.
Proof.
  intros Hn Hne.
  pose proof (name_ok_last n Hn Hne) as Hl.
  unfold insert_value.
  rewrite (char_at_name_last B n tail Hne), (plain_not_equals _ Hl).
  rewrite andb_false_r. cbn [negb].
  replace (length B + length n <=? length (B ++ n ++ tail)) with true
    by (symmetry; apply Nat.leb_le; rewrite !length_app; lia).
  rewrite (app_assoc B n tail), <- length_app.
  rewrite firstn_app_exact, skipn_app_exact.
  rewrite <- !app_assoc. reflexivity.
Qed.

Lemma optstr_of_split B it A :
  optstr_of (B ++ it :: A) = joinc (map render B) ++ render it ++ tail_of A.
Proof.
  unfold optstr_of, tail_of. rewrite map_app. cbn [map].
  apply join_app_cons.
Qed.

(** [mnt_optstr_set_option] on an item that is present: the value is
    rewritten where the item stands. *)
Lemma set_option_items B it A v :
  forallb item_ok (B ++ it :: A) = true ->
  existsb (named (o_name it)) B = false ->
  o_name it <> [] ->
  mnt_optstr_set_option (Some (optstr_of (B ++ it :: A))) (o_name it) (Some v)
  = (0%Z, Some (optstr_of (B ++ with_value it v :: A))).
Proof.
  intros Hok Hno Hne. unfold mnt_optstr_set_option.
  rewrite locate_found by (auto; apply cstring_eqb_refl).
  cbn [located_item ol_begin ol_end ol_value ol_valsz ol_namesz].
  rewrite forallb_app in Hok. apply andb_true_iff in Hok as [_ Hok].
  simpl in Hok. apply andb_true_iff in Hok as [Hit _].
  pose proof (item_ok_name it Hit) as Hn.
  rewrite !optstr_of_split.
  set (Bs := joinc (map render B)). set (tl := tail_of A).
  change (render (with_value it v)) with (o_name it ++ EQUALS :: v).
  destruct (o_value it) as [old|] eqn:Ev.
  - assert (Hr : render it = o_name it ++ EQUALS :: old)
      by (unfold render; rewrite Ev; reflexivity).
    rewrite !Hr.
    destruct (length v =? length old) eqn:El.
    + apply Nat.eqb_eq in El. do 2 f_equal.
      replace (S (length Bs + length (o_name it)))
        with (length (Bs ++ o_name it ++ [EQUALS]))
        by (rewrite !length_app; simpl; lia).
      replace (Bs ++ (o_name it ++ EQUALS :: old) ++ tl)
        with ((Bs ++ o_name it ++ [EQUALS]) ++ old ++ tl)
        by (rewrite <- !app_assoc; reflexivity).
      rewrite firstn_app_exact.
      rewrite <- El at 1.
      rewrite Nat.add_comm, <- skipn_skipn, skipn_app_exact.
      rewrite El, skipn_app_exact.
      rewrite <- !app_assoc. reflexivity.
    + rewrite remove_value_at by assumption.
      rewrite insert_value_at by assumption. reflexivity.
  - assert (Hr : render it = o_name it)
      by (unfold render; rewrite Ev; apply app_nil_r).
    rewrite !Hr. rewrite insert_value_at by assumption. reflexivity.
Qed.

Lemma existsb_cnt name its :
  existsb (named name) its = (0 <? cnt name its).
Proof.
  unfold cnt. induction its as [|x its IH]; simpl; [reflexivity|].
  destruct (named name x); simpl; [reflexivity|exact IH].
Qed.

Lemma cnt_remove_same name its :
  cnt name (remove_named name its) = cnt name its - 1.
Proof.
  unfold cnt. induction its as [|x its IH]; simpl; [reflexivity|].
  destruct (named name x) eqn:E; simpl; [lia|].
  rewrite E. exact IH.
Qed.

Lemma named_exclusive n m it :
  n <> m -> named n it = true -> named m it = false.
Proof.
  unfold named. intros Hnm H. apply cstring_eqb_eq in H.
  apply cstring_eqb_neq. congruence.
Qed.

Lemma cnt_remove_other n m its :
  n <> m -> cnt m (remove_named n its) = cnt m its.
Proof.
  intros Hnm. unfold cnt. induction its as [|x its IH]; simpl; [reflexivity|].
  destruct (named n x) eqn:E.
  - rewrite (named_exclusive n m x Hnm E). reflexivity.
  - simpl. destruct (named m x); simpl; rewrite IH; reflexivity.
Qed.

Lemma flagless_remove n its :
  n = RW \/ n = RO -> flagless (remove_named n its) = flagless its.
Proof.
  intros Hn. unfold flagless. induction its as [|x its IH]; simpl; [reflexivity|].
  destruct (named n x) eqn:E.
  - assert (is_flag x = true) as ->; [|reflexivity].
    unfold is_flag. destruct Hn; subst n; rewrite E; auto using orb_true_r.
  - simpl. rewrite IH. reflexivity.
Qed.

Lemma flagless_all its :
  cnt RW its = 0 -> cnt RO its = 0 -> flagless its = its.
Proof.
  unfold cnt, flagless, is_flag.
  induction its as [|x its IH]; simpl; [reflexivity|].
  destruct (named RW x); simpl; [discriminate|].
  destruct (named RO x); simpl; [discriminate|].
  intros H1 H2. rewrite IH by assumption. reflexivity.
Qed.

Lemma cnt_flags its :
  length (filter is_flag its) = cnt RW its + cnt RO its.
Proof.
  unfold cnt, is_flag. induction its as [|x its IH]; simpl; [reflexivity|].
  destruct (named RW x) eqn:E; simpl.
  - rewrite (named_exclusive RW RO x ltac:(discriminate) E). simpl. lia.
  - destruct (named RO x); simpl; lia.
Qed.

Lemma item_ok_remove name its :
  forallb item_ok its = true -> forallb item_ok (remove_named name its) = true.
Proof.
  induction its as [|x its IH]; simpl; [reflexivity|].
  intros H. apply andb_true_iff in H as [Hx H].
  destruct (named name x); [assumption|].
  simpl. rewrite Hx, IH by assumption. reflexivity.
Qed.

Lemma optstr_of_app A B :
  A <> [] -> B <> [] ->
  optstr_of A ++ COMMA :: optstr_of B = optstr_of (A ++ B).
Proof.
  intros HA HB. unfold optstr_of. rewrite map_app.
  rewrite <- join_app_nonempty by (destruct B; [congruence|discriminate]).
  rewrite joinc_join by (destruct A; [congruence|discriminate]).
  rewrite <- app_assoc. reflexivity.
Qed.

Lemma optstr_of_empty its :
  forallb item_ok its = true -> optstr_of its = [] -> its = [].
Proof.
  intros Hok H. apply optstr_of_nil; [assumption|]. rewrite H. reflexivity.
Qed.

Lemma remove_step_spec name its :
  forallb item_ok its = true ->
  mnt_optstr_remove_option (Some (optstr_of its)) name
  = ((if 0 <? cnt name its then 0%Z else 1%Z),
     Some (optstr_of (snd (remove_step name its)))).
Proof.
  intros H. rewrite remove_option_items by assumption.
  unfold remove_step. rewrite <- existsb_cnt.
  destruct (existsb (named name) its); reflexivity.
Qed.

Lemma remove_step_ok name its :
  forallb item_ok its = true ->
  forallb item_ok (snd (remove_step name its)) = true.
Proof.
  intros H. unfold remove_step.
  destruct (existsb (named name) its); simpl; auto using item_ok_remove.
Qed.

Lemma remove_step_cnt_same name its :
  cnt name (snd (remove_step name its)) = cnt name its - 1.
Proof.
  unfold remove_step. rewrite existsb_cnt.
  destruct (0 <? cnt name its) eqn:E; simpl.
  - apply cnt_remove_same.
  - apply Nat.ltb_ge in E. lia.
Qed.

Lemma remove_step_cnt_other n m its :
  n <> m -> cnt m (snd (remove_step n its)) = cnt m its.
Proof.
  intros H. unfold remove_step.
  destruct (existsb (named n) its); simpl; auto using cnt_remove_other.
Qed.

Lemma remove_step_flagless n its :
  n = RW \/ n = RO -> flagless (snd (remove_step n its)) = flagless its.
Proof.
  intros H. unfold remove_step.
  destruct (existsb (named n) its); simpl; auto using flagless_remove.
Qed.

Lemma RW_neq_RO : RW <> RO.
Proof. discriminate. Qed.

(** Two different well-formed strings with at most two [rw]/[ro] items. *)
Lemma merge_optstr_distinct A B :
  A <> [] -> B <> [] ->
  forallb item_ok (A ++ B) = true ->
  optstr_of A <> optstr_of B ->
  length (filter is_flag (A ++ B)) <= 2 ->
  merge_optstr (Some (optstr_of A)) (Some (optstr_of B))
  = Some (with_flag (flag_of (A ++ B)) (optstr_of (flagless (A ++ B)))).
Proof.
  intros HA HB Hok Hne Hcnt. unfold merge_optstr.
  replace (streq (optstr_of A) (optstr_of B)) with false
    by (symmetry; apply cstring_eqb_neq; assumption).
  rewrite optstr_of_app by assumption.
  set (L := A ++ B) in *. rewrite cnt_flags in Hcnt.
  fold RW RO.
  set (L1 := snd (remove_step RW L)).
  set (L2 := snd (remove_step RW L1)).
  set (L3 := snd (remove_step RO L2)).
  set (L4 := snd (remove_step RO L3)).
  assert (Hok1 : forallb item_ok L1 = true) by (apply remove_step_ok; auto).
  assert (Hok2 : forallb item_ok L2 = true) by (apply remove_step_ok; auto).
  assert (Hok3 : forallb item_ok L3 = true) by (apply remove_step_ok; auto).
  assert (Hok4 : forallb item_ok L4 = true) by (apply remove_step_ok; auto).
  assert (Hw1 : cnt RW L1 = cnt RW L - 1) by apply remove_step_cnt_same.
  assert (Hw2 : cnt RW L2 = cnt RW L - 2)
    by (subst L2; rewrite remove_step_cnt_same; lia).
  assert (Hw3 : cnt RW L3 = cnt RW L - 2)
    by (subst L3; rewrite remove_step_cnt_other by (symmetry; apply RW_neq_RO);
        assumption).
  assert (Hw4 : cnt RW L4 = cnt RW L - 2)
    by (subst L4; rewrite remove_step_cnt_other by (symmetry; apply RW_neq_RO);
        assumption).
  assert (Hr2 : cnt RO L2 = cnt RO L)
    by (subst L2 L1; rewrite !remove_step_cnt_other by apply RW_neq_RO;
        reflexivity).
  assert (Hr3 : cnt RO L3 = cnt RO L - 1)
    by (subst L3; rewrite remove_step_cnt_same; lia).
  assert (Hr4 : cnt RO L4 = cnt RO L - 2)
    by (subst L4; rewrite remove_step_cnt_same; lia).
  assert (Hf2 : flagless L2 = flagless L)
    by (subst L2 L1; rewrite !remove_step_flagless by auto; reflexivity).
  assert (Hf3 : flagless L3 = flagless L)
    by (subst L3; rewrite remove_step_flagless by auto; assumption).
  assert (Hf4 : flagless L4 = flagless L)
    by (subst L4; rewrite remove_step_flagless by auto; assumption).
  rewrite (remove_step_spec RW L Hok). cbv beta iota. fold L1.
  rewrite (remove_step_spec RW L1 Hok1). cbv beta iota. fold L2.
  rewrite (remove_step_spec RO L2 Hok2). cbv beta iota. fold L3.
  rewrite (remove_step_spec RO L3 Hok3). cbv beta iota. fold L4.
  rewrite Hw1, Hr2, Hr3.
  unfold flag_of. rewrite (existsb_cnt RO L).
  clearbody L1 L2 L3 L4.
  assert (Hfin : forall P flag,
             flagless P = flagless L -> cnt RW P = 0 -> cnt RO P = 0 ->
             Some (match optstr_of P with
                   | [] => flag
                   | _ :: _ => flag ++ COMMA :: optstr_of P
                   end)
             = Some (with_flag flag (optstr_of (flagless L)))).
  { intros P flag HfP H1 H2. rewrite <- HfP, flagless_all by assumption.
    reflexivity. }
  destruct (cnt RW L) as [|[|[|krw]]]; [| | |lia];
    destruct (cnt RO L) as [|[|[|kro]]]; try lia;
    cbn -[optstr_of RW RO with_flag]; apply Hfin; auto; lia.
Qed.

Lemma chars_ok_iff w : forall oq,
  chars_ok oq w = negb (unquoted_comma oq w) && negb (quote_state oq w).
Proof.
  induction w as [|c w IH]; intros oq; simpl.
  - reflexivity.
  - rewrite IH. unfold quote_state. simpl.
    destruct (toggle oq c), (Ascii.eqb c COMMA); reflexivity.
Qed.

(** The loop runs to the end of the string exactly when no item end is
    met: no comma outside quotes, and a quote still open at the end. *)
Lemma parse_loop_end l : forall p start oq sep,
  start_of start p <= p ->
  (parse_loop l p start oq sep = ParseEnd
   <-> l = [] \/ (unquoted_comma oq l = false /\ quote_state oq l = true)).
Proof.
  induction l as [|c l IH]; intros p start oq sep Hst.
  - simpl. split; auto.
  - cbn [parse_loop unquoted_comma]. fold (toggle oq c).
    fold (start_of start p). unfold quote_state. cbn [fold_left].
    fold (quote_state (toggle oq c) l).
    destruct (toggle oq c) eqn:Hq.
    + cbn [negb andb orb]. rewrite IH by (simpl; lia).
      split.
      * intros [->|[H1 H2]]; right; auto.
      * intros [H|[H1 H2]]; [discriminate|].
        destruct l; [left; reflexivity|right; auto].
    + cbn [negb andb]. destruct (Ascii.eqb c COMMA) eqn:Hc.
      * cbn [orb]. destruct (p <=? start_of start p); split;
          try discriminate; intros [H|[H _]]; discriminate.
      * cbn [orb]. destruct l as [|d l].
        -- replace (S p <=? start_of start p) with false
             by (symmetry; apply Nat.leb_gt; lia).
           split; [discriminate|]. intros [H|[_ H]]; discriminate.
        -- rewrite IH by (simpl; lia). split.
           ++ intros [H|H]; [discriminate|right; exact H].
           ++ intros [H|H]; [discriminate|right; exact H].
Qed.

Lemma parse_loop_no_error l : forall p start oq sep,
  start_of start p < p -> parse_loop l p start oq sep <> ParseError.
Proof.
  induction l as [|c l IH]; intros p start oq sep Hst; simpl.
  - discriminate.
  - fold (start_of start p).
    destruct (if Ascii.eqb c DQUOTE then negb oq else oq).
    + apply IH. simpl. lia.
    + destruct (Ascii.eqb c COMMA).
      * replace (p <=? start_of start p) with false
          by (symmetry; apply Nat.leb_gt; lia). discriminate.
      * destruct l.
        -- replace (S p <=? start_of start p) with false
             by (symmetry; apply Nat.leb_gt; lia). discriminate.
        -- apply IH. simpl. lia.
Qed.

(** The only malformed item is the empty one: the cursor is on a comma. *)
Lemma parse_loop_error l p :
  parse_loop l p None false None = ParseError <-> exists r, l = COMMA :: r.
Proof.
  destruct l as [|c l].
  - simpl. split; [discriminate|]. intros [r H]. discriminate.
  - cbn [parse_loop start_of].
    destruct (Ascii.eqb c COMMA) eqn:Hc.
    + apply Ascii.eqb_eq in Hc. subst c.
      change (Ascii.eqb COMMA DQUOTE) with false. cbv iota.
      rewrite Nat.leb_refl. split; eauto.
    + assert (Hne : ~ exists r, c :: l = COMMA :: r).
      { intros [r H]. inversion H. subst. rewrite Ascii.eqb_refl in Hc.
        discriminate. }
      split; [|intros H; contradiction].
      intros H. exfalso.
      destruct (Ascii.eqb c DQUOTE).
      * cbn [negb] in H. revert H. apply parse_loop_no_error. simpl. lia.
      * destruct l.
        -- replace (S p <=? p) with false in H
             by (symmetry; apply Nat.leb_gt; lia). discriminate.
        -- revert H. apply parse_loop_no_error. simpl. lia.
Qed.

(** Up to its first comma outside quotes, a string is comma-free. *)
Lemma split_unquoted_comma l : forall oq,
  unquoted_comma oq l = true ->
  exists w r, l = w ++ COMMA :: r
              /\ unquoted_comma oq w = false /\ quote_state oq w = false.
Proof.
  induction l as [|c l IH]; intros oq H; [discriminate|].
  simpl in H. destruct (negb (toggle oq c) && Ascii.eqb c COMMA) eqn:E.
  - apply andb_true_iff in E as [E1 E2]. apply Ascii.eqb_eq in E2. subst c.
    exists [], l. repeat split. unfold quote_state. simpl.
    apply negb_true_iff in E1. unfold toggle in E1.
    change (Ascii.eqb COMMA DQUOTE) with false in E1. exact E1.
  - simpl in H. destruct (IH _ H) as (w & r & -> & Hw & Hq).
    exists (c :: w), r. repeat split.
    + simpl. rewrite E, Hw. reflexivity.
    + unfold quote_state in *. simpl. exact Hq.
Qed.

(** Every string falls under one of the four cases of the parser. *)
Lemma optstr_cases l :
  l = []
  \/ (exists r, l = COMMA :: r)
  \/ (exists w tail, l = w ++ tail /\ w <> [] /\ chars_ok false w = true
                     /\ (tail = [] \/ exists r, tail = COMMA :: r))
  \/ (l <> [] /\ unquoted_comma false l = false /\ quote_state false l = true).
Proof.
  destruct l as [|c l]; [left; reflexivity|right].
  destruct (unquoted_comma false (c :: l)) eqn:Hu.
  - destruct (split_unquoted_comma _ _ Hu) as (w & r & Hl & Hw & Hq).
    destruct w as [|d w].
    + left. exists r. exact Hl.
    + right; left. exists (d :: w), (COMMA :: r).
      repeat split; eauto; try discriminate.
      rewrite chars_ok_iff, Hw, Hq. reflexivity.
  - right. destruct (quote_state false (c :: l)) eqn:Hq.
    + right. repeat split; auto. discriminate.
    + left. exists (c :: l), []. rewrite app_nil_r.
      repeat split; auto; try discriminate.
      rewrite chars_ok_iff, Hu, Hq. reflexivity.
Qed.

(** ** The option-string engine: the claims *)

(** C1, as amended.  For non-empty well-formed option strings that hold at
    most two [rw]/[ro] items together, [merge_optstr] returns the items
    of both strings without the [rw]/[ro] ones behind one leading flag;
    the flag is [ro] exactly when one of the strings holds an [ro] item
    and [rw] otherwise, and no comma follows it when nothing is left.
    Two identical strings are returned as they are. *)
Theorem merge_optstr_well_formed (A B : list optitem) :
  A <> [] -> B <> [] ->
  forallb item_ok (A ++ B) = true ->
  length (filter is_flag (A ++ B)) <= 2 ->
  merge_optstr (Some (optstr_of A)) (Some (optstr_of B))
  = Some (if streq (optstr_of A) (optstr_of B) then optstr_of A
          else with_flag (flag_of (A ++ B)) (optstr_of (flagless (A ++ B)))).
Proof.
  intros HA HB Hok Hcnt.
  destruct (streq (optstr_of A) (optstr_of B)) eqn:E.
  - unfold merge_optstr. rewrite E. reflexivity.
  - apply merge_optstr_distinct; auto. apply cstring_eqb_neq. exact E.
Qed.

Lemma merge_optstr_well_formed_witness :
  merge_optstr (Some (cstr "rw,noexec")) (Some (cstr "ro,journal=update"))
  = Some (cstr "ro,noexec,journal=update").
Proof.
  apply (merge_optstr_well_formed
           [flag_item (cstr "rw"); flag_item (cstr "noexec")]
           [flag_item (cstr "ro");
            value_item (cstr "journal") (cstr "update")]).
  - discriminate.
  - discriminate.
  - reflexivity.
  - vm_compute. lia.
Defined.

(** C1 as stated fails: neither input holds [rw], yet the merged string
    leads with [rw]. *)
Lemma merge_without_flags_leads_with_rw :
  mnt_optstr_locate_option (Some (cstr "noexec")) (cstr "rw") = NotFound
  /\ mnt_optstr_locate_option (Some (cstr "nosuid")) (cstr "rw") = NotFound
  /\ merge_optstr (Some (cstr "noexec")) (Some (cstr "nosuid"))
     = Some (cstr "rw,noexec,nosuid").
Proof. repeat split. Qed.

(** C4, as amended.  For a well-formed option string that holds no item
    named [n], appending the well-formed item [n] or [n=v] and then
    removing the first item named [n] gives the string back, byte for
    byte. *)
Theorem append_then_remove (its : list optitem) (n : cstring)
        (v : option cstring) :
  forallb item_ok its = true ->
  item_ok (appended_item n v) = true ->
  existsb (named n) its = false ->
  exists s,
    mnt_optstr_append_option (Some (optstr_of its)) (Some n) v = (0%Z, Some s)
    /\ mnt_optstr_remove_option (Some s) n = (0%Z, Some (optstr_of its)).
Proof.
  intros Hok Hit Hno. exists (optstr_of (its ++ [appended_item n v])).
  split; [apply append_option_items; assumption|].
  rewrite remove_option_items
    by (rewrite forallb_app, Hok; simpl; rewrite Hit; reflexivity).
  rewrite existsb_app, Hno. cbn [existsb orb].
  assert (Hn : named n (appended_item n v) = true) by apply cstring_eqb_refl.
  rewrite Hn. cbn [orb].
  rewrite remove_named_snoc by assumption. reflexivity.
Qed.

Lemma append_then_remove_witness :
  exists s,
    mnt_optstr_append_option (Some (cstr "a,b=1")) (Some (cstr "c"))
      (Some (cstr "2")) = (0%Z, Some s)
    /\ mnt_optstr_remove_option (Some s) (cstr "c")
       = (0%Z, Some (cstr "a,b=1")).
Proof.
  apply (append_then_remove
           [flag_item (cstr "a"); value_item (cstr "b") (cstr "1")]
           (cstr "c") (Some (cstr "2"))); reflexivity.
Defined.

(** C4 as stated fails on a string that already holds the name: the
    first item of that name is removed, not the appended one. *)
Lemma append_then_remove_existing_name :
  mnt_optstr_append_option (Some (cstr "a,b")) (Some (cstr "a")) None
  = (0%Z, Some (cstr "a,b,a"))
  /\ mnt_optstr_remove_option (Some (cstr "a,b,a")) (cstr "a")
     = (0%Z, Some (cstr "b,a"))
  /\ strip_trailing_commas (cstr "b,a") <> strip_trailing_commas (cstr "a,b").
Proof. repeat split. discriminate. Qed.

(** C5, as amended.  On a well-formed string whose first item named
    [name] (a non-empty name) is [it], [mnt_optstr_set_option] rewrites
    the value where the item stands: the item keeps its place whatever
    the length of the new value, and a new value as long as the old one
    is copied over it in place.  When no item carries the name, the
    option is appended. *)
Theorem set_option_well_formed (B : list optitem) (it : optitem)
        (A : list optitem) (v : cstring) :
  forallb item_ok (B ++ it :: A) = true ->
  existsb (named (o_name it)) B = false ->
  o_name it <> [] ->
  mnt_optstr_set_option (Some (optstr_of (B ++ it :: A))) (o_name it) (Some v)
  = (0%Z, Some (optstr_of (B ++ with_value it v :: A)))
  /\ (forall old, o_value it = Some old -> length v = length old ->
      optstr_of (B ++ with_value it v :: A)
      = overwrite (optstr_of (B ++ it :: A))
          (length (joinc (map render B)) + length (o_name it) + 1) v)
  /\ (forall n, existsb (named n) (B ++ it :: A) = false ->
      mnt_optstr_set_option (Some (optstr_of (B ++ it :: A))) n (Some v)
      = mnt_optstr_append_option (Some (optstr_of (B ++ it :: A))) (Some n)
          (Some v)).
Proof.
  intros Hok Hno Hne. split; [|split].
  - apply set_option_items; assumption.
  - intros old Hold Hlen. unfold overwrite. rewrite !optstr_of_split.
    change (render (with_value it v)) with (o_name it ++ EQUALS :: v).
    assert (Hr : render it = o_name it ++ EQUALS :: old)
      by (unfold render; rewrite Hold; reflexivity).
    rewrite Hr.
    set (Bs := joinc (map render B)). set (tl := tail_of A).
    replace (length Bs + length (o_name it) + 1)
      with (length (Bs ++ o_name it ++ [EQUALS]))
      by (rewrite !length_app; simpl; lia).
    replace (Bs ++ (o_name it ++ EQUALS :: old) ++ tl)
      with ((Bs ++ o_name it ++ [EQUALS]) ++ old ++ tl)
      by (rewrite <- !app_assoc; reflexivity).
    rewrite firstn_app_exact.
    rewrite Nat.add_comm, <- skipn_skipn, skipn_app_exact.
    rewrite Hlen, skipn_app_exact.
    rewrite <- !app_assoc. reflexivity.
  - intros n Hn. unfold mnt_optstr_set_option.
    rewrite locate_not_found by assumption. reflexivity.
Qed.

Lemma set_option_well_formed_witness :
  mnt_optstr_set_option (Some (cstr "a,size=1,b")) (cstr "size")
    (Some (cstr "4096"))
  = (0%Z, Some (cstr "a,size=4096,b")).
Proof.
  apply (set_option_well_formed
           [flag_item (cstr "a")] (value_item (cstr "size") (cstr "1"))
           [flag_item (cstr "b")] (cstr "4096")).
  - reflexivity.
  - reflexivity.
  - discriminate.
Defined.

(** C5 as stated fails: with a longer value the item is not moved to the
    end of the string. *)
Lemma set_option_longer_value_keeps_place :
  mnt_optstr_set_option (Some (cstr "a=1,b")) (cstr "a") (Some (cstr "22"))
  = (0%Z, Some (cstr "a=22,b"))
  /\ cstr "a=22,b" <> cstr "b,a=22".
Proof. split; [reflexivity|discriminate]. Qed.

(** C6, as amended.  [mnt_optstr_parse_next] fails with -EINVAL exactly
    when the cursor stands on a comma (an empty item).  It returns 1
    (end) when the cursor is at the end of the string and also when the
    rest of the string has no comma outside quotes and ends inside a
    quoted block that is never closed.  In every other case the rest of
    the string starts with a non-empty item [w] that is closed by the end
    of the string or by a comma, and the call returns the item: its name
    at the cursor, the name length up to the first [=] outside quotes,
    the value behind it, and the new cursor behind the separator. *)
Theorem parse_next_cases (buf : cstring) (off : nat) :
  let l := skipn off buf in
  (mnt_optstr_parse_next buf off = ParseError <-> exists r, l = COMMA :: r)
  /\ (mnt_optstr_parse_next buf off = ParseEnd
      <-> l = [] \/ (unquoted_comma false l = false
                     /\ quote_state false l = true))
  /\ (forall r, mnt_optstr_parse_next buf off = ParseOk r ->
      exists w tail,
        l = w ++ tail /\ w <> [] /\ chars_ok false w = true
        /\ (tail = [] \/ exists t, tail = COMMA :: t)
        /\ r = item_of off (scan_sep false None off w) (off + length w)
                 (nonempty tail)).
Proof.
  intros l. unfold mnt_optstr_parse_next. fold l.
  split; [apply parse_loop_error|].
  split; [apply parse_loop_end; simpl; lia|].
  intros r Hr.
  destruct (optstr_cases l) as [H|[[t H]|[(w & tail & H & Hw & Hok & Ht)|H]]].
  - rewrite H in Hr. discriminate.
  - assert (He : parse_loop l off None false None = ParseError)
      by (apply parse_loop_error; eauto).
    congruence.
  - exists w, tail. repeat split; auto.
    pose proof (parse_loop_item w false None off None tail Hok Ht
                  (le_n off) (or_introl Hw)) as Hp.
    rewrite H, Hp in Hr. inversion Hr. destruct tail; reflexivity.
  - assert (He : parse_loop l off None false None = ParseEnd)
      by (apply parse_loop_end; [simpl; lia|right; tauto]).
    congruence.
Qed.

Lemma parse_next_cases_witness :
  exists w tail,
    skipn 2 (cstr "a,b=1,c") = w ++ tail /\ w <> []
    /\ chars_ok false w = true
    /\ (tail = [] \/ exists t, tail = COMMA :: t)
    /\ {| it_name := 2; it_namesz := 1; it_value := Some 4; it_valsz := 1;
          it_next := 6 |}
       = item_of 2 (scan_sep false None 2 w) (2 + length w) (nonempty tail).
Proof.
  apply (proj2 (proj2 (parse_next_cases (cstr "a,b=1,c") 2))). reflexivity.
Defined.

(** C6 as stated fails: with a comma inside a quoted block that is never
    closed the call returns 1 (end), not -EINVAL, although the cursor is
    not at the end of the string. *)
Lemma unterminated_quote_reads_as_end :
  parse_rc (mnt_optstr_parse_next (cstr "a=" ++ DQUOTE :: cstr "b,c") 0) = 1%Z
  /\ parse_rc (mnt_optstr_parse_next (cstr "a=" ++ DQUOTE :: cstr "b,c") 0)
     <> (- EINVAL)%Z
  /\ skipn 0 (cstr "a=" ++ DQUOTE :: cstr "b,c") <> [].
Proof. repeat split; discriminate. Qed.

(** ** Mount entries *)

Lemma land_pow2_testbit a k :
  (0 <= k)%Z -> negb (Z.land a (2 ^ k) =? 0)%Z = Z.testbit a k.
Proof.
  intros Hk. destruct (Z.testbit a k) eqn:E.
  - apply negb_true_iff, Z.eqb_neq. intros H.
    assert (Ht : Z.testbit (Z.land a (2 ^ k)) k = true)
      by (rewrite Z.land_spec, E, Z.pow2_bits_true; auto).
    rewrite H, Z.bits_0 in Ht. discriminate.
  - apply negb_false_iff, Z.eqb_eq. apply Z.bits_inj'. intros n Hn.
    rewrite Z.land_spec, Z.bits_0, Z.pow2_bits_eqb by assumption.
    destruct (Z.eqb_spec k n); [subst; rewrite E|]; auto using andb_false_r.
Qed.

Lemma has_flag_pseudo fs : has_flag fs MNT_FS_PSEUDO = Z.testbit (flags fs) 1.
Proof. apply (land_pow2_testbit (flags fs) 1). lia. Qed.

Lemma has_flag_net fs : has_flag fs MNT_FS_NET = Z.testbit (flags fs) 2.
Proof. apply (land_pow2_testbit (flags fs) 2). lia. Qed.

Lemma has_flag_swap fs : has_flag fs MNT_FS_SWAP = Z.testbit (flags fs) 3.
Proof. apply (land_pow2_testbit (flags fs) 3). lia. Qed.

Ltac flag_bits :=
  unfold MNT_FS_PSEUDO, MNT_FS_NET, MNT_FS_SWAP;
  repeat first [ rewrite Z.lor_spec | rewrite Z.land_spec
               | rewrite Z.lnot_spec by lia
               | rewrite (Z.shiftl_1_l 1) | rewrite (Z.shiftl_1_l 2)
               | rewrite (Z.shiftl_1_l 3)
               | rewrite Z.pow2_bits_eqb by lia ];
  cbn [Z.eqb Pos.eqb negb andb orb];
  rewrite ?andb_true_r, ?orb_false_r, ?orb_true_r, ?andb_false_r.

Section FsTypeFlags.

Variable is_pseudofs : cstring -> bool.
Variable is_netfs : cstring -> bool.

Local Abbreviation set_fstype fs t :=
  (snd (mnt_fs_set_fstype is_pseudofs is_netfs fs t)).

Lemma set_fstype_fstype fs t : fstype (set_fstype fs t) = t.
Proof. reflexivity. Qed.

(** The setter never clears the swap bit. *)
Lemma set_fstype_keeps_swap fs t :
  has_flag fs MNT_FS_SWAP = true ->
  has_flag (set_fstype fs t) MNT_FS_SWAP = true.
Proof.
  rewrite !has_flag_swap. intros H.
  unfold mnt_fs_set_fstype, __mnt_fs_set_fstype_ptr.
  cbn [snd flags with_fstype].
  destruct t as [t|]; [destruct (is_pseudofs t); [|destruct (is_netfs t);
    [|destruct (streq t (cstr "swap"))]]|]; flag_bits; rewrite ?H; reflexivity.
Qed.

Lemma set_fstype_swap fs :
  is_pseudofs (cstr "swap") = false -> is_netfs (cstr "swap") = false ->
  has_flag (set_fstype fs (Some (cstr "swap"))) MNT_FS_SWAP = true.
Proof.
  intros Hp Hn. rewrite has_flag_swap.
  unfold mnt_fs_set_fstype, __mnt_fs_set_fstype_ptr.
  cbn [snd flags with_fstype]. rewrite Hp, Hn.
  change (streq (cstr "swap") (cstr "swap")) with true. cbv iota.
  flag_bits. reflexivity.
Qed.

Lemma set_fstype_pseudo fs t :
  is_pseudofs t = true ->
  has_flag (set_fstype fs (Some t)) MNT_FS_PSEUDO = true.
Proof.
  intros Hp. rewrite has_flag_pseudo.
  unfold mnt_fs_set_fstype, __mnt_fs_set_fstype_ptr.
  cbn [snd flags with_fstype]. rewrite Hp. flag_bits. reflexivity.
Qed.

(** The pseudo and network bits do follow the type. *)
Lemma set_fstype_pseudo_net fs t :
  has_flag (set_fstype fs t) MNT_FS_PSEUDO
  = match t with Some s => is_pseudofs s | None => false end
  /\ has_flag (set_fstype fs t) MNT_FS_NET
     = match t with
       | Some s => negb (is_pseudofs s) && is_netfs s
       | None => false
       end.
Proof.
  rewrite has_flag_pseudo, has_flag_net.
  unfold mnt_fs_set_fstype, __mnt_fs_set_fstype_ptr.
  cbn [snd flags with_fstype].
  destruct t as [t|]; [destruct (is_pseudofs t); [|destruct (is_netfs t);
    [|destruct (streq t (cstr "swap"))]]|]; flag_bits; auto.
Qed.

(** C2: what the code does where the claim fails.  Once an entry has been
    typed [swap], the swap bit stays set whatever type is set next: the
    setter clears the pseudo and the network bit and never the swap bit.
    So the swap bit need not reflect the current type, and it stands
    beside the pseudo bit when the next type is a pseudo filesystem. *)
Theorem swap_flag_is_sticky (fs : mnt_fs) (t : option cstring) :
  is_pseudofs (cstr "swap") = false -> is_netfs (cstr "swap") = false ->
  let fs1 := set_fstype fs (Some (cstr "swap")) in
  let fs2 := set_fstype fs1 t in
  fstype fs2 = t
  /\ has_flag fs2 MNT_FS_SWAP = true
  /\ has_flag fs2 MNT_FS_PSEUDO
     = match t with Some s => is_pseudofs s | None => false end.
Proof.
  intros Hp Hn fs1 fs2. split; [reflexivity|]. split.
  - apply set_fstype_keeps_swap, set_fstype_swap; assumption.
  - apply set_fstype_pseudo_net.
Qed.

End FsTypeFlags.

Lemma swap_flag_is_sticky_witness :
  fstype (sample_fstype (sample_fstype mnt_new_fs "swap") "proc") = Some (cstr "proc")
  /\ has_flag (sample_fstype (sample_fstype mnt_new_fs "swap") "proc") MNT_FS_SWAP
     = true
  /\ has_flag (sample_fstype (sample_fstype mnt_new_fs "swap") "proc") MNT_FS_PSEUDO
     = true.
Proof.
  apply (swap_flag_is_sticky sample_is_pseudofs sample_is_netfs mnt_new_fs
           (Some (cstr "proc"))); reflexivity.
Defined.

(** The other setters leave the flags alone. *)
Lemma other_setters_keep_flags
      (parse_tag : cstring -> option (cstring * cstring)) (fs : mnt_fs)
      (s : option cstring) :
  flags (snd (__mnt_fs_set_source_ptr parse_tag fs s)) = flags fs
  /\ flags (snd (mnt_fs_set_target fs s)) = flags fs
  /\ flags (snd (mnt_fs_set_vfs_options fs s)) = flags fs
  /\ flags (snd (mnt_fs_set_fs_options fs s)) = flags fs
  /\ flags (snd (mnt_fs_set_userspace_options fs s)) = flags fs.
Proof.
  repeat split; try (destruct s; reflexivity).
  unfold __mnt_fs_set_source_ptr.
  destruct s as [s|]; [destruct (streq s (cstr "none"))|]; try reflexivity.
  destruct (has_char EQUALS s); [destruct (parse_tag s) as [[t v]|]|];
    reflexivity.
Qed.

Section SourceSetter.

Variable parse_tag : cstring -> option (cstring * cstring).

(** After a successful call at most one of the two views is set. *)
Lemma set_source_exclusive fs src fs' :
  __mnt_fs_set_source_ptr parse_tag fs src = (0%Z, fs') ->
  mnt_fs_get_srcpath fs' = None \/ mnt_fs_get_tag fs' = None.
Proof.
  unfold __mnt_fs_set_source_ptr, mnt_fs_get_srcpath, mnt_fs_get_tag.
  destruct src as [s|]; [destruct (streq s (cstr "none"))|].
  - intros H; inversion H; auto.
  - destruct (has_char EQUALS s); [destruct (parse_tag s) as [[t v]|]|];
      intros H; inversion H; auto.
  - intros H; inversion H; auto.
Qed.

(** C7, as amended.  The source setter, for a string [s]: the literal
    [none] gives a null source and no tag; a string without [=] becomes
    the source and the tag pair is cleared; a string with [=] that the
    tag parser accepts fills the tag pair while the source field keeps
    the string as written, and it is the source path of
    [mnt_fs_get_srcpath] that reads as null, so that the source path and
    the tag pair are never both set; a string with [=] that the tag
    parser rejects makes the setter fail with the entry unchanged. *)
Theorem set_source_cases (fs : mnt_fs) (s : cstring) :
  let r := __mnt_fs_set_source_ptr parse_tag fs (Some s) in
  (streq s (cstr "none") = true ->
   r = (0%Z, with_source fs None None None))
  /\ (streq s (cstr "none") = false -> has_char EQUALS s = false ->
      r = (0%Z, with_source fs (Some s) None None)
      /\ mnt_fs_get_srcpath (snd r) = Some s
      /\ mnt_fs_get_tag (snd r) = None)
  /\ (forall t v, has_char EQUALS s = true -> parse_tag s = Some (t, v) ->
      r = (0%Z, with_source fs (Some s) (Some t) (Some v))
      /\ mnt_fs_get_source (snd r) = Some s
      /\ mnt_fs_get_srcpath (snd r) = None
      /\ mnt_fs_get_tag (snd r) = Some (t, Some v))
  /\ (has_char EQUALS s = true -> parse_tag s = None -> r = ((-1)%Z, fs)).
Proof.
  cbv zeta. unfold __mnt_fs_set_source_ptr.
  destruct (streq s (cstr "none")) eqn:Hn.
  - apply cstring_eqb_eq in Hn. subst s.
    change (has_char EQUALS (cstr "none")) with false.
    repeat split; intros; try discriminate; reflexivity.
  - repeat split; intros; try discriminate.
    + rewrite H0. reflexivity.
    + rewrite H0. reflexivity.
    + rewrite H0. reflexivity.
    + rewrite H, H0. reflexivity.
    + rewrite H, H0. reflexivity.
    + rewrite H, H0. reflexivity.
    + rewrite H, H0. reflexivity.
    + rewrite H, H0. reflexivity.
Qed.

End SourceSetter.

Lemma set_source_cases_witness :
  mnt_fs_get_source (sample_source mnt_new_fs "LABEL=data")
  = Some (cstr "LABEL=data")
  /\ mnt_fs_get_srcpath (sample_source mnt_new_fs "LABEL=data") = None
  /\ mnt_fs_get_tag (sample_source mnt_new_fs "LABEL=data")
     = Some (cstr "LABEL", Some (cstr "data")).
Proof.
  apply (proj1 (proj2 (proj2 (set_source_cases blkid_parse_tag_string
                                mnt_new_fs (cstr "LABEL=data"))))
           (cstr "LABEL") (cstr "data") eq_refl eq_refl).
Defined.

(** C7 as stated fails: after a TAG=VALUE string the source of the entry
    is not cleared, it holds the string. *)
Lemma set_source_tag_keeps_source :
  fst (__mnt_fs_set_source_ptr blkid_parse_tag_string mnt_new_fs
         (Some (cstr "UUID=1234"))) = 0%Z
  /\ tagname (sample_source mnt_new_fs "UUID=1234") = Some (cstr "UUID")
  /\ tagval (sample_source mnt_new_fs "UUID=1234") = Some (cstr "1234")
  /\ source (sample_source mnt_new_fs "UUID=1234") = Some (cstr "UUID=1234")
  /\ source (sample_source mnt_new_fs "UUID=1234") <> None.
Proof. repeat split. discriminate. Qed.

(** ** Table lookups *)

Lemma find_some_test (f : mnt_fs -> bool) l fs :
  find f l = Some fs -> f fs = true /\ In fs l.
Proof. intros H. apply find_some in H. tauto. Qed.

Lemma find_ext_in (f g : mnt_fs -> bool) l :
  (forall fs, In fs l -> f fs = g fs) -> find f l = find g l.
Proof.
  induction l as [|x l IH]; intros H; simpl; [reflexivity|].
  rewrite (H x) by (left; reflexivity).
  destruct (g x); [reflexivity|]. apply IH. intros; apply H; right; assumption.
Qed.

Lemma in_iter_entries tb dir fs : In fs (iter_entries tb dir) <-> In fs (ents tb).
Proof.
  destruct dir; simpl; [tauto|]. symmetry. apply in_rev.
Qed.

Lemma target_canonical_match_swap c cn fs :
  target_canonical_match c cn fs = true ->
  has_flag fs MNT_FS_SWAP = true
  /\ exists t, target fs = Some t /\ is_root_path t = false
               /\ exists p, mnt_resolve_path c t = Some p /\ streq cn p = true.
Proof.
  unfold target_canonical_match.
  destruct (target fs) as [t|] eqn:Et; [|discriminate].
  destruct (has_flag fs MNT_FS_SWAP) eqn:Es; [|discriminate].
  destruct (is_root_path t) eqn:Er; [discriminate|]. cbn [negb orb].
  destruct (mnt_resolve_path c t) as [p|] eqn:Ep; [|discriminate].
  intros H. split; [reflexivity|]. exists t.
  split; [reflexivity|]. split; [assumption|].
  exists p. split; [assumption|assumption].
Qed.

(** C10.  In the third loop of [mnt_tab_find_target] an entry is
    compared only when it carries the swap flag and its target is not
    ["/"]; an entry without the swap flag is found by the first two
    loops only, and its stored target is never handed to the cache: the
    result is the same for two caches that agree on the looked-up path
    and on the targets of the swap entries. *)
Theorem find_target_third_pass (tb : mnt_tab) (path : cstring)
        (dir : mnt_direction) :
  (forall c cn fs, target_canonical_match c cn fs = true ->
     has_flag fs MNT_FS_SWAP = true
     /\ exists t, target fs = Some t /\ is_root_path t = false)
  /\ (forall fs, mnt_tab_find_target tb path dir = Some fs ->
        has_flag fs MNT_FS_SWAP = false ->
        mnt_fs_streq_target fs (Some path) = true
        \/ exists c cn, cache tb = Some c /\ mnt_resolve_path c path = Some cn
                        /\ mnt_fs_streq_target fs (Some cn) = true)
  /\ (forall c1 c2,
        mnt_resolve_path c1 path = mnt_resolve_path c2 path ->
        (forall fs t, In fs (ents tb) -> has_flag fs MNT_FS_SWAP = true ->
                      target fs = Some t ->
                      mnt_resolve_path c1 t = mnt_resolve_path c2 t) ->
        mnt_tab_find_target (mnt_tab_set_cache tb (Some c1)) path dir
        = mnt_tab_find_target (mnt_tab_set_cache tb (Some c2)) path dir).
Proof.
  split; [|split].
  - intros c cn fs H.
    destruct (target_canonical_match_swap c cn fs H) as [Hs [t [Ht [Hr _]]]].
    eauto.
  - intros fs H Hns. unfold mnt_tab_find_target in H.
    destruct (first_match _ (iter_entries tb dir)) as [f1|] eqn:E1.
    + inversion H; subst. left. apply find_some_test in E1. tauto.
    + destruct (cache tb) as [c|]; [|discriminate].
      destruct (mnt_resolve_path c path) as [cn|] eqn:Ecn; [|discriminate].
      destruct (first_match (fun fs0 => mnt_fs_streq_target fs0 (Some cn))
                  (iter_entries tb dir)) as [f2|] eqn:E2.
      * inversion H; subst. right. exists c, cn.
        apply find_some_test in E2. tauto.
      * apply find_some_test in H. destruct H as [H _].
        apply target_canonical_match_swap in H. destruct H as [H _].
        congruence.
  - intros c1 c2 Hp Hsw. unfold mnt_tab_find_target.
    replace (iter_entries (mnt_tab_set_cache tb (Some c1)) dir)
      with (iter_entries tb dir) by (destruct dir; reflexivity).
    replace (iter_entries (mnt_tab_set_cache tb (Some c2)) dir)
      with (iter_entries tb dir) by (destruct dir; reflexivity).
    cbn [cache mnt_tab_set_cache]. rewrite Hp.
    destruct (first_match _ (iter_entries tb dir)); [reflexivity|].
    destruct (mnt_resolve_path c2 path) as [cn|]; [|reflexivity].
    destruct (first_match _ (iter_entries tb dir)); [reflexivity|].
    apply find_ext_in. intros fs Hin. apply in_iter_entries in Hin.
    unfold target_canonical_match.
    destruct (target fs) as [t|] eqn:Et; [|reflexivity].
    destruct (has_flag fs MNT_FS_SWAP) eqn:Es; [|reflexivity].
    rewrite (Hsw fs t Hin Es Et). reflexivity.
Qed.

Lemma find_target_third_pass_witness :
  has_flag swap_entry MNT_FS_SWAP = true
  /\ exists t, target swap_entry = Some t /\ is_root_path t = false.
Proof.
  apply (proj1 (find_target_third_pass swap_table (cstr "/home")
                  MNT_ITER_FORWARD) sample_cache (cstr "/home") swap_entry).
  reflexivity.
Defined.

(** The swap row is found through its canonicalized target; the row in
    front of it, with the same target and no swap flag, is passed over. *)
Example third_pass_skips_non_swap :
  mnt_tab_find_target swap_table (cstr "/home") MNT_ITER_FORWARD
  = Some swap_entry
  /\ iter_entries swap_table MNT_ITER_FORWARD = [home_entry; swap_entry]
  /\ target home_entry = target swap_entry.
Proof. repeat split. Qed.

Lemma filter_length_all (A : Type) (f : A -> bool) l :
  length (filter f l) = length l -> forall x, In x l -> f x = true.
Proof.
  induction l as [|y l IH]; simpl; [tauto|].
  destruct (f y) eqn:E; simpl; intros H x [->|Hx]; auto.
  - pose proof (filter_length_le f l). lia.
  - pose proof (filter_length_le f l). lia.
Qed.

Lemma filter_length_none (A : Type) (f : A -> bool) l :
  length (filter f l) = 0 -> forall x, In x l -> f x = false.
Proof.
  induction l as [|y l IH]; simpl; [tauto|].
  destruct (f y) eqn:E; simpl; [discriminate|].
  intros H x [->|Hx]; auto.
Qed.

Lemma find_none_all (f : mnt_fs -> bool) l :
  (forall x, In x l -> f x = false) -> find f l = None.
Proof.
  induction l as [|y l IH]; simpl; intros H; [reflexivity|].
  rewrite (H y) by auto. apply IH. auto.
Qed.

Lemma tag_entry_streq fs cn :
  is_tag_entry fs = true -> mnt_fs_streq_srcpath fs (Some cn) = false.
Proof.
  unfold is_tag_entry, mnt_fs_streq_srcpath.
  destruct (mnt_fs_get_srcpath fs); [discriminate|]. intros _.
  destruct (negb (has_flag fs MNT_FS_PSEUDO)); reflexivity.
Qed.

Lemma path_entry_no_tag fs :
  is_tag_entry fs = false -> mnt_fs_get_tag fs = None.
Proof.
  unfold is_tag_entry, mnt_fs_get_srcpath, mnt_fs_get_tag.
  destruct (tagname fs); [discriminate|reflexivity].
Qed.

Lemma evaluated_tag_none c cn l :
  (forall fs, In fs l -> is_tag_entry fs = false) ->
  srcpath_evaluated_tag c cn l = None.
Proof.
  intros H. unfold srcpath_evaluated_tag.
  destruct (mnt_cache_read_tags c cn) as [rc errno].
  destruct (rc =? 0)%Z; [|destruct ((rc <? 0)%Z && (errno =? EACCES)%Z)];
    try reflexivity; apply find_none_all; intros fs Hin;
    unfold tag_in_cache, tag_by_udev;
    rewrite (path_entry_no_tag fs (H fs Hin)); reflexivity.
Qed.

(** C3, as amended.  [mnt_tab_find_srcpath] is the sequence of its
    loops in the order of the code: the raw comparison; with a cache that
    resolves the path, the canonicalized input against the stored paths;
    then the evaluation of the tag entries through the cache; and last the
    canonicalized input against the canonicalized stored paths.  Without a
    cache (or when the path does not resolve) only the first loop runs. *)
Theorem find_srcpath_passes (tb : mnt_tab) (path : cstring)
        (dir : mnt_direction) :
  nents tb = Z.of_nat (length (ents tb)) ->
  let l := iter_entries tb dir in
  mnt_tab_find_srcpath tb path dir
  = or_else (srcpath_native path l)
      match cache tb with
      | None => None
      | Some c =>
          match mnt_resolve_path c path with
          | None => None
          | Some cn =>
              or_else (srcpath_canonical_input cn l)
                (or_else (srcpath_evaluated_tag c cn l)
                   (srcpath_canonical_stored c cn l))
          end
      end.
Proof.
  intros Hn l. unfold mnt_tab_find_srcpath. fold l.
  destruct (srcpath_native path l); [reflexivity|]. cbn [or_else].
  destruct (cache tb) as [c|]; [|reflexivity].
  destruct (mnt_resolve_path c path) as [cn|]; [|reflexivity].
  assert (Hlen : length l = length (ents tb))
    by (subst l; destruct dir; simpl; auto using length_rev).
  unfold mnt_tab_get_nents. rewrite Hn, <- Hlen.
  unfold count_tags. fold is_tag_entry.
  pose proof (filter_length_le is_tag_entry l) as Hle.
  replace (Z.of_nat (length (filter is_tag_entry l)) <=? Z.of_nat (length l))%Z
    with true by (symmetry; apply Z.leb_le; lia).
  assert (H2 : (if (Z.of_nat (length (filter is_tag_entry l))
                    <? Z.of_nat (length l))%Z
                then srcpath_canonical_input cn l else None)
               = srcpath_canonical_input cn l).
  { destruct (Z.ltb_spec (Z.of_nat (length (filter is_tag_entry l)))
                (Z.of_nat (length l))); [reflexivity|].
    symmetry. apply find_none_all. intros fs Hin. apply tag_entry_streq.
    apply (filter_length_all _ is_tag_entry l); [lia|assumption]. }
  assert (H3 : (if negb (Z.of_nat (length (filter is_tag_entry l)) =? 0)%Z
                then srcpath_evaluated_tag c cn l else None)
               = srcpath_evaluated_tag c cn l).
  { destruct (Z.eqb_spec (Z.of_nat (length (filter is_tag_entry l))) 0);
      [|reflexivity].
    symmetry. apply evaluated_tag_none.
    apply filter_length_none. lia. }
  rewrite H2, H3. reflexivity.
Qed.

Lemma find_srcpath_passes_witness :
  mnt_tab_find_srcpath sample_table (cstr "/dev/dm-0") MNT_ITER_FORWARD
  = or_else (srcpath_native (cstr "/dev/dm-0") [mapper_entry; label_entry])
      (or_else
         (srcpath_canonical_input (cstr "/dev/dm-0")
            [mapper_entry; label_entry])
         (or_else
            (srcpath_evaluated_tag sample_cache (cstr "/dev/dm-0")
               [mapper_entry; label_entry])
            (srcpath_canonical_stored sample_cache (cstr "/dev/dm-0")
               [mapper_entry; label_entry]))).
Proof.
  apply (find_srcpath_passes sample_table (cstr "/dev/dm-0") MNT_ITER_FORWARD).
  reflexivity.
Defined.

(** C3 as stated fails: the first row matches only through its
    canonicalized stored path and the second only through its resolved
    tag, and the lookup returns the second, the tag row. *)
Lemma tag_row_beats_canonical_row :
  srcpath_native (cstr "/dev/dm-0") [mapper_entry; label_entry] = None
  /\ srcpath_canonical_input (cstr "/dev/dm-0") [mapper_entry; label_entry]
     = None
  /\ srcpath_canonical_stored sample_cache (cstr "/dev/dm-0")
       [mapper_entry; label_entry] = Some mapper_entry
  /\ srcpath_evaluated_tag sample_cache (cstr "/dev/dm-0")
       [mapper_entry; label_entry] = Some label_entry
  /\ mnt_tab_find_srcpath sample_table (cstr "/dev/dm-0") MNT_ITER_FORWARD
     = Some label_entry
  /\ label_entry <> mapper_entry.
Proof. repeat split. discriminate. Qed.

(** ** The parser's error protocol *)

Section ParseStream.

Variable parse_tab_line : mnt_fs -> cstring -> Z * mnt_fs.
Variable parse_mountinfo_line : mnt_fs -> cstring -> Z * mnt_fs.
Variable guess_format : cstring -> mnt_format.

Local Abbreviation parse_next :=
  (mnt_tab_parse_next parse_tab_line parse_mountinfo_line guess_format).
Local Abbreviation parse_stream :=
  (mnt_tab_parse_stream parse_tab_line parse_mountinfo_line guess_format).
Local Abbreviation rejected := (rejected_line parse_tab_line).

Lemma parse_next_rejected tb buf rest line filename n :
  fmt tb = MNT_FMT_FSTAB ->
  rejected buf line ->
  rest <> [] ->
  exists fs',
    parse_next tb {| pending := buf :: rest; at_eof := false |} mnt_new_fs
      filename n
    = (parse_error_code tb filename (n + 1), tb,
       {| pending := rest; at_eof := false |}, fs', (n + 1)%Z).
Proof.
  intros Hfmt (Hnl & Hline & (c & r & Hc & Hh) & Hrc) Hrest.
  unfold mnt_tab_parse_next. cbn [pending at_eof next_line_loop].
  rewrite Hnl. destruct rest as [|b rest]; [congruence|].
  cbn [hits_eof negb andb orb]. rewrite Hline, Hc. rewrite Hc in Hrc.
  rewrite Hh, Hfmt.
  destruct (parse_tab_line mnt_new_fs (c :: r)) as [rc fs'] eqn:E.
  exists fs'. simpl in Hrc. apply Z.eqb_neq in Hrc.
  cbv beta iota zeta. rewrite ?Hfmt. cbv beta iota. rewrite Hrc. reflexivity.
Qed.

(** One pass of the [while (!feof(f))] loop. *)
Lemma parse_stream_loop_step fuel tb f filename n rc tb' f' fs' n' :
  feof f = false ->
  parse_next tb f mnt_new_fs filename n = (rc, tb', f', fs', n') ->
  parse_stream_loop parse_tab_line parse_mountinfo_line guess_format
    (S fuel) tb f filename n
  = if (rc =? 0)%Z
    then parse_stream_loop parse_tab_line parse_mountinfo_line guess_format
           fuel (snd (mnt_tab_add_fs tb' fs')) f' filename n'
    else if (rc =? 1)%Z
         then parse_stream_loop parse_tab_line parse_mountinfo_line
                guess_format fuel tb' f' filename n'
         else if feof f' then Some (0%Z, tb', f') else Some (rc, tb', f').
Proof.
  intros Hf Hp. cbn [parse_stream_loop]. rewrite Hf.
  rewrite Hp. cbv beta iota.
  destruct (rc =? 0)%Z eqn:E0; cbn [mnt_tab_add_fs snd negb Z.eqb].
  - reflexivity.
  - cbv beta iota. rewrite E0. reflexivity.
Qed.

(** C8: what the code does where the claim fails.  When the callback
    answers a rejected line with a code above 1 and more lines follow,
    [mnt_tab_parse_stream] does not skip the line and go on: it returns
    that code at once, and the lines behind are left unread. *)
Theorem positive_code_stops_parse (tb : mnt_tab) (buf : cstring)
        (rest : list cstring) (line filename : cstring)
        (cb : cstring -> Z -> Z) (k : Z) :
  fmt tb = MNT_FMT_FSTAB ->
  errcb tb = Some cb ->
  rejected buf line ->
  rest <> [] ->
  cb filename 1%Z = k ->
  (1 < k)%Z ->
  parse_stream tb {| pending := buf :: rest; at_eof := false |} filename
  = Some (k, tb, {| pending := rest; at_eof := false |}).
Proof.
  intros Hfmt Hcb Hrej Hrest Hk Hgt.
  unfold mnt_tab_parse_stream.
  destruct (parse_next_rejected tb buf rest line filename 0%Z Hfmt Hrej Hrest)
    as [fs' Hp].
  rewrite (parse_stream_loop_step _ _ {| pending := buf :: rest; at_eof := false |}
             _ _ _ _ _ _ _ eq_refl Hp).
  unfold parse_error_code. rewrite Hcb. change (0 + 1)%Z with 1%Z. rewrite Hk.
  replace (k =? 0)%Z with false by (symmetry; apply Z.eqb_neq; lia).
  replace (k =? 1)%Z with false by (symmetry; apply Z.eqb_neq; lia).
  reflexivity.
Qed.

(** The answer 1, or no callback at all, skips the line and goes on. *)
Lemma skip_code_continues tb buf rest line filename fuel :
  fmt tb = MNT_FMT_FSTAB ->
  parse_error_code tb filename 1%Z = 1%Z ->
  rejected buf line ->
  rest <> [] ->
  parse_stream_loop parse_tab_line parse_mountinfo_line guess_format
    (S fuel) tb {| pending := buf :: rest; at_eof := false |} filename 0%Z
  = parse_stream_loop parse_tab_line parse_mountinfo_line guess_format
      fuel tb {| pending := rest; at_eof := false |} filename 1%Z.
Proof.
  intros Hfmt Hcode Hrej Hrest.
  destruct (parse_next_rejected tb buf rest line filename 0%Z Hfmt Hrej Hrest)
    as [fs' Hp].
  rewrite (parse_stream_loop_step _ _ {| pending := buf :: rest; at_eof := false |}
             _ _ _ _ _ _ _ eq_refl Hp).
  change (0 + 1)%Z with 1%Z. rewrite Hcode. reflexivity.
Qed.

End ParseStream.

Lemma positive_code_stops_parse_witness :
  mnt_tab_parse_stream sample_parse_tab_line sample_parse_mountinfo_line
    guess_tab_format (fstab_with_callback 2)
    {| pending := two_lines; at_eof := false |} (cstr "fstab")
  = Some (2%Z, fstab_with_callback 2,
          {| pending := [cstr "/dev/sda1 / ext4 defaults 0 1" ++ [NEWLINE]];
             at_eof := false |}).
Proof.
  apply (positive_code_stops_parse sample_parse_tab_line
           sample_parse_mountinfo_line guess_tab_format
           (fstab_with_callback 2) (cstr "garbage" ++ [NEWLINE])
           [cstr "/dev/sda1 / ext4 defaults 0 1" ++ [NEWLINE]]
           (cstr "garbage") (cstr "fstab") (fun _ _ => 2%Z) 2%Z).
  - reflexivity.
  - reflexivity.
  - repeat split.
    + exists "g"%char, (cstr "arbage"). split; reflexivity.
    + discriminate.
  - discriminate.
  - reflexivity.
  - lia.
Defined.

(** With the answer 1 the same stream is read to its end: the rejected
    line is skipped and the second line gives the one entry. *)
Example skip_code_reads_on :
  match mnt_tab_parse_stream sample_parse_tab_line sample_parse_mountinfo_line
          guess_tab_format (fstab_with_callback 1)
          {| pending := two_lines; at_eof := false |} (cstr "fstab") with
  | Some (rc, tb, f) =>
      rc = 0%Z /\ nents tb = 1%Z /\ pending f = []
      /\ map target (ents tb) = [Some (cstr "/")]
  | None => False
  end.
Proof. repeat split. Qed.

(** ** The mtab lock *)

Lemma wait_after_deadline now maxtime r :
  (maxtime <= now)%Z -> mnt_wait_mtab_lock now maxtime r = 1%Z.
Proof.
  intros H. unfold mnt_wait_mtab_lock.
  replace (now >=? maxtime)%Z with true by (symmetry; apply Z.geb_le; lia).
  reflexivity.
Qed.

Lemma lock_mtab_deadline ml t0 script :
  locked ml = false -> lockfile ml <> None -> linkfile ml <> None ->
  lock_mtab ml None t0 script
  = lock_mtab_loop ml (t0 + 30)%Z 5000000%Z (-1)%Z script.
Proof.
  intros Hl H1 H2. unfold lock_mtab. rewrite Hl.
  destruct (lockfile ml); [|congruence].
  destruct (linkfile ml); [|congruence]. reflexivity.
Qed.

Lemma pass_after_deadline ml maxtime w rc a rest :
  locked ml = false ->
  (maxtime <= now_after_open a)%Z ->
  (maxtime <= now_at_wait a)%Z ->
  lock_mtab_loop ml maxtime w rc (a :: rest)
  = Some (late_pass_outcome ml rc a, []).
Proof.
  intros Hl Ho Hw. unfold late_pass_outcome. cbn [lock_mtab_loop].
  destruct (sys_link a) as [e|].
  - destruct (e =? EEXIST)%Z.
    + destruct (sys_open a) as [fd|e'].
      * cbn [locked with_lock_state]. rewrite Hl.
        rewrite wait_after_deadline by assumption. reflexivity.
      * replace (now_after_open a <? maxtime)%Z with false
          by (symmetry; apply Z.ltb_ge; assumption).
        rewrite andb_false_r. reflexivity.
    + reflexivity.
  - destruct (sys_open a) as [fd|e'].
    + cbn [locked with_lock_state]. reflexivity.
    + replace (now_after_open a <? maxtime)%Z with false
        by (symmetry; apply Z.ltb_ge; assumption).
      rewrite andb_false_r. reflexivity.
Qed.

(** A pass that waits is followed by a sleep and the next pass; a pass
    that finds no lockfile is followed by the next pass at once. *)
Lemma pass_retried ml maxtime w rc b script :
  locked ml = false ->
  pass_retries maxtime b = true ->
  lock_mtab_loop ml maxtime w rc (b :: script)
  = (if pass_waits maxtime b then nanosleep w else fun r => r)
      (lock_mtab_loop (with_lock_state ml (-1)%Z false) maxtime w rc script).
Proof.
  intros Hl H. unfold pass_retries, pass_waits, pass_finds_no_lockfile in *.
  cbn [lock_mtab_loop].
  destruct (sys_link b) as [e|].
  - destruct (e =? EEXIST)%Z.
    + destruct (sys_open b) as [fd|errsv].
      * cbn [locked with_lock_state]. rewrite Hl.
        cbv zeta in H |- *. cbn [andb orb] in H |- *.
        rewrite orb_false_r in H.
        destruct (_ =? 1)%Z; [discriminate|].
        destruct (_ <? 0)%Z; [discriminate|]. reflexivity.
      * cbn [andb orb] in H. rewrite H. reflexivity.
    + destruct (sys_open b); cbn [andb orb] in H; discriminate.
  - destruct (sys_open b) as [fd|errsv]; [discriminate|].
    cbn [andb orb] in H. rewrite H. reflexivity.
Qed.

Lemma late_pass_outcome_retried ml rc a :
  late_pass_outcome (with_lock_state ml (-1)%Z false) rc a
  = late_pass_outcome ml rc a.
Proof. reflexivity. Qed.

Lemma retries_then_late_pass maxtime w rc a rest retrying : forall ml,
  locked ml = false ->
  (maxtime <= now_after_open a)%Z ->
  (maxtime <= now_at_wait a)%Z ->
  forallb (pass_retries maxtime) retrying = true ->
  lock_mtab_loop ml maxtime w rc (retrying ++ a :: rest)
  = Some (late_pass_outcome ml rc a, sleeps_of maxtime w retrying).
Proof.
  induction retrying as [|b retrying IH]; intros ml Hl Ho Hw Hr.
  - apply pass_after_deadline; assumption.
  - cbn [forallb] in Hr. apply andb_prop in Hr. destruct Hr as [Hb Hr].
    rewrite <- app_comm_cons, pass_retried by assumption.
    rewrite IH by (try assumption; reflexivity).
    rewrite late_pass_outcome_retried.
    unfold sleeps_of. cbn [filter].
    destruct (late_pass_outcome ml rc a) as [r m].
    destruct (pass_waits maxtime b); reflexivity.
Qed.

(** The loop never starts another pass behind one that began after the
    deadline: from there on the script is not consulted. *)
Lemma loop_ends_by_deadline pre : forall ml maxtime w rc a,
  (maxtime <= now_after_open a)%Z ->
  (maxtime <= now_at_wait a)%Z ->
  exists r, forall rest,
    lock_mtab_loop ml maxtime w rc (pre ++ a :: rest) = Some r.
Proof.
  induction pre as [|b pre IH]; intros ml maxtime w rc a Ho Hw.
  - cbn [app lock_mtab_loop].
    destruct (sys_link a) as [e|].
    + destruct (e =? EEXIST)%Z; [|eexists; intros; reflexivity].
      destruct (sys_open a) as [fd|e'].
      * cbn [locked with_lock_state].
        destruct (locked ml); [eexists; intros; reflexivity|].
        rewrite wait_after_deadline by assumption.
        eexists; intros; reflexivity.
      * replace (now_after_open a <? maxtime)%Z with false
          by (symmetry; apply Z.ltb_ge; assumption).
        rewrite andb_false_r. eexists; intros; reflexivity.
    + destruct (sys_open a) as [fd|e'].
      * cbn [locked with_lock_state]. eexists; intros; reflexivity.
      * replace (now_after_open a <? maxtime)%Z with false
          by (symmetry; apply Z.ltb_ge; assumption).
        rewrite andb_false_r. eexists; intros; reflexivity.
  - cbn [app lock_mtab_loop].
    destruct (match sys_link b with
              | Some e => if (e =? EEXIST)%Z then None else Some e
              | None => None
              end); [eexists; intros; reflexivity|].
    destruct (sys_open b) as [fd|e'].
    + match goal with
      | |- context [if ?c then _ else _] =>
          destruct c; [eexists; intros; reflexivity|]
      end.
      destruct (_ =? 1)%Z; [eexists; intros; reflexivity|].
      destruct (_ <? 0)%Z; [eexists; intros; reflexivity|].
      destruct (IH (with_lock_state
                      (with_lock_state
                         match sys_link b with
                         | Some _ => ml
                         | None => with_lock_state ml (lockfile_fd ml) true
                         end fd
                         (locked
                            match sys_link b with
                            | Some _ => ml
                            | None =>
                                with_lock_state ml (lockfile_fd ml) true
                            end)) (-1)%Z false) maxtime w rc a Ho Hw)
        as [[[r m] sl] Hr].
      exists (r, m, w :: sl). intros rest. rewrite Hr. reflexivity.
    + destruct ((e' =? ENOENT)%Z && (now_after_open b <? maxtime)%Z);
        [|eexists; intros; reflexivity].
      apply IH; assumption.
Qed.

(** Whatever the script, a finished run slept [waittime] once for every
    pass that waited, among the passes it made, and at no other time. *)
Lemma lock_mtab_loop_sleeps maxtime w rc script : forall ml r ml' sleeps,
  locked ml = false ->
  lock_mtab_loop ml maxtime w rc script = Some (r, ml', sleeps) ->
  exists n, sleeps = sleeps_of maxtime w (firstn n script).
Proof.
  induction script as [|b script IH]; intros ml r ml' sleeps Hl H;
    [discriminate|].
  destruct (pass_retries maxtime b) eqn:Hb.
  - rewrite pass_retried in H by assumption.
    destruct (lock_mtab_loop (with_lock_state ml (-1)%Z false) maxtime w rc
                script) as [[[r1 m1] s1]|] eqn:E.
    + destruct (IH (with_lock_state ml (-1)%Z false) _ _ _ eq_refl E)
        as [n Hn].
      exists (S n). unfold sleeps_of in *. cbn [firstn filter].
      destruct (pass_waits maxtime b); cbn [nanosleep] in H;
        inversion H; subst; reflexivity.
    + destruct (pass_waits maxtime b); discriminate.
  - exists 0. cbn [firstn]. unfold sleeps_of. cbn [filter map].
    unfold pass_retries, pass_waits, pass_finds_no_lockfile in Hb.
    cbn [lock_mtab_loop] in H.
    destruct (sys_link b) as [e|].
    + destruct (e =? EEXIST)%Z; [|inversion H; reflexivity].
      destruct (sys_open b) as [fd|errsv].
      * cbn [locked with_lock_state] in H. rewrite Hl in H.
        cbv zeta in Hb, H. cbn [andb orb] in Hb.
        rewrite orb_false_r in Hb.
        destruct (_ =? 1)%Z; [inversion H; reflexivity|].
        destruct (_ <? 0)%Z; [inversion H; reflexivity|discriminate].
      * cbn [andb orb] in Hb. rewrite Hb in H. inversion H; reflexivity.
    + destruct (sys_open b) as [fd|errsv].
      * inversion H; reflexivity.
      * cbn [andb orb] in Hb. rewrite Hb in H. inversion H; reflexivity.
Qed.

(** C9, as amended.  [lock_mtab] sets its deadline 30 seconds behind the
    clock it reads (in whole seconds of the monotonic clock) and runs its
    loop with a sleep of 5 ms.  The loop sleeps that long after every
    pass in which it waited for the holder of the lockfile, and starts
    the next pass at once after one that found the lockfile gone.  A
    pass that starts when the deadline has passed is the last one,
    whatever would follow: it ends with ownership when [link] and [open]
    succeed, with -ETIMEDOUT when the lockfile exists and opens (another
    holder), and with the -errno of [link] or [open] otherwise, -ENOENT
    for a lockfile that has vanished among them; this code is what
    [mnt_lock_file] returns. *)
Theorem lock_pass_after_deadline (ml : libmnt_lock) (maxtime waittime rc : Z)
        (a : lock_pass) (retrying pre : list lock_pass) :
  locked ml = false ->
  (maxtime <= now_after_open a)%Z ->
  (maxtime <= now_at_wait a)%Z ->
  forallb (pass_retries maxtime) retrying = true ->
  (forall t0 script, lockfile ml <> None -> linkfile ml <> None ->
     lock_mtab ml None t0 script
     = lock_mtab_loop ml (t0 + 30)%Z 5000000%Z (-1)%Z script)
  /\ (forall rest,
        lock_mtab_loop ml maxtime waittime rc (retrying ++ a :: rest)
        = Some (late_pass_outcome ml rc a,
                sleeps_of maxtime waittime retrying))
  /\ (exists r, forall rest,
        lock_mtab_loop ml maxtime waittime rc (pre ++ a :: rest) = Some r)
  /\ (forall script r ml' sleeps,
        lock_mtab_loop ml maxtime waittime rc script = Some (r, ml', sleeps) ->
        exists n, sleeps = sleeps_of maxtime waittime (firstn n script))
  /\ (forall ans t0 rest,
        simplelock ml = false ->
        lockfile ml <> None -> linkfile ml <> None ->
        maxtime = (t0 + 30)%Z ->
        mnt_lock_file (Some ml) ans None t0 (retrying ++ a :: rest)
        = Some (fst (late_pass_outcome ml (-1) a),
                Some (snd (late_pass_outcome ml (-1) a)))).
Proof.
  intros Hl Ho Hw Hr. split; [|split; [|split; [|split]]].
  - intros t0 script H1 H2. apply lock_mtab_deadline; assumption.
  - intros rest. apply retries_then_late_pass; assumption.
  - apply loop_ends_by_deadline; assumption.
  - intros script r ml' sleeps H.
    apply (lock_mtab_loop_sleeps _ _ _ _ _ _ _ _ Hl H).
  - intros ans t0 rest Hs H1 H2 Hmax. unfold mnt_lock_file. rewrite Hs.
    rewrite lock_mtab_deadline by assumption. rewrite <- Hmax.
    rewrite retries_then_late_pass by assumption.
    destruct (late_pass_outcome ml (-1) a) as [r m]. reflexivity.
Qed.

(** The lock is busy, then gone, then busy again at the deadline: one
    sleep of 5 ms behind the pass that waited, none behind the pass that
    found no lockfile, and -ETIMEDOUT from the third pass. *)
Lemma lock_pass_after_deadline_witness :
  lock_mtab_loop sample_lock 130%Z 5000000%Z (-1)%Z
    [busy_pass 101%Z; vanished_pass 102%Z; busy_pass 130%Z]
  = Some ((- ETIMEDOUT)%Z, mnt_unlock_file sample_lock, [5000000%Z]).
Proof.
  apply (proj1 (proj2 (lock_pass_after_deadline sample_lock 130%Z 5000000%Z
                         (-1)%Z (busy_pass 130%Z)
                         [busy_pass 101%Z; vanished_pass 102%Z] []
                         eq_refl ltac:(discriminate) ltac:(discriminate)
                         eq_refl)) []).
Defined.

(** C9 as stated fails: the lock is busy until the deadline (100 + 30),
    then the lockfile vanishes between [link] and [open]; ownership was
    never established and the call returns -ENOENT, not -ETIMEDOUT. *)
Lemma vanished_lockfile_after_deadline :
  mnt_lock_file (Some sample_lock) no_simple_answers None 100%Z
    [busy_pass 101%Z; busy_pass 129%Z; vanished_pass 130%Z]
  = Some ((- ENOENT)%Z, Some (mnt_unlock_file sample_lock))
  /\ (- ENOENT)%Z <> (- ETIMEDOUT)%Z.
Proof. split; [reflexivity|discriminate]. Qed.

(** ** Walking an option string item by item *)

Lemma parsed_name_item pre it tail c :
  parsed_name (pre ++ render it ++ tail) (parsed_item (length pre) it c)
  = o_name it.
Proof.
  unfold parsed_name, parsed_item, render; simpl.
  rewrite skipn_app_exact, <- app_assoc. apply firstn_app_exact.
Qed.

Lemma append_parsed_item out pre it tail c :
  append_parsed out (pre ++ render it ++ tail) (parsed_item (length pre) it c)
  = snd (mnt_optstr_append_option out (Some (o_name it)) (o_value it)).
Proof.
  unfold append_parsed, mnt_optstr_append_option, parsed_item; simpl.
  f_equal. unfold __mnt_optstr_append_option. f_equal. f_equal.
  - rewrite skipn_app_exact. unfold render. rewrite <- app_assoc.
    rewrite firstn_app_exact, firstn_length_all. reflexivity.
  - unfold render. destruct (o_value it) as [v|]; [|reflexivity].
    replace (pre ++ (o_name it ++ EQUALS :: v) ++ tail)
      with ((pre ++ o_name it ++ [EQUALS]) ++ v ++ tail)
      by (rewrite <- !app_assoc; reflexivity).
    replace (S (length pre + length (o_name it)))
      with (length (pre ++ o_name it ++ [EQUALS]))
      by (rewrite !length_app; simpl; lia).
    rewrite skipn_app_exact, firstn_app_exact, firstn_length_all.
    reflexivity.
Qed.

(** A walk passes the well-formed items in front of it one by one. *)
Lemma optstr_foreach_skip (A : Type)
      (body : A -> cstring -> mnt_optitem -> A) (f : A -> optitem -> A) :
  (forall acc pre it tail,
      body acc (pre ++ render it ++ tail)
        (parsed_item (length pre) it (nonempty tail)) = f acc it) ->
  forall its pre rest acc fuel,
    forallb item_ok its = true ->
    optstr_foreach (length its + fuel) body
      (pre ++ joinc (map render its) ++ rest) (length pre) acc
    = optstr_foreach fuel body (pre ++ joinc (map render its) ++ rest)
        (length (pre ++ joinc (map render its))) (fold_left f its acc).
Proof.
  intros Hbody its. induction its as [|it its IH]; intros pre rest acc fuel Hok.
  - simpl. rewrite app_nil_r. reflexivity.
  - simpl in Hok. apply andb_true_iff in Hok as [Hit Hok].
    cbn [length Nat.add map joinc fold_left optstr_foreach
         mnt_optstr_next_option].
    rewrite <- !app_assoc. rewrite <- !app_comm_cons.
    rewrite (parse_next_item pre it
               (COMMA :: joinc (map render its) ++ rest) Hit)
      by (right; eexists; reflexivity).
    cbv beta iota.
    rewrite (Hbody acc pre it (COMMA :: joinc (map render its) ++ rest)).
    cbn [it_next parsed_item nonempty].
    specialize (IH (pre ++ render it ++ [COMMA]) rest (f acc it) fuel Hok).
    rewrite <- !app_assoc in IH. cbn [app] in IH.
    replace (length pre + length (render it) + 1)
      with (length (pre ++ render it ++ [COMMA]))
      by (rewrite !length_app; simpl; lia).
    exact IH.
Qed.

(** A walk over a well-formed string visits its items in order. *)
Lemma optstr_foreach_items (A : Type)
      (body : A -> cstring -> mnt_optitem -> A) (f : A -> optitem -> A) :
  (forall acc pre it tail,
      body acc (pre ++ render it ++ tail)
        (parsed_item (length pre) it (nonempty tail)) = f acc it) ->
  forall its acc fuel,
    forallb item_ok its = true ->
    length its < fuel ->
    optstr_foreach fuel body (optstr_of its) 0 acc
    = Some (fold_left f its acc).
Proof.
  intros Hbody its acc fuel Hok Hfuel.
  induction its as [|lst init _] using rev_ind.
  - destruct fuel; [lia|]. reflexivity.
  - rewrite forallb_app in Hok. apply andb_true_iff in Hok as [Hinit Hlst].
    simpl in Hlst. rewrite andb_true_r in Hlst.
    assert (Hbuf : optstr_of (init ++ [lst])
                   = [] ++ joinc (map render init) ++ render lst).
    { rewrite optstr_of_split. unfold tail_of; simpl.
      rewrite app_nil_r. reflexivity. }
    rewrite Hbuf.
    rewrite length_app in Hfuel. simpl in Hfuel.
    replace fuel with (length init + (S (S (fuel - length init - 2))))
      by lia.
    change 0 with (length (@nil ascii)).
    rewrite (optstr_foreach_skip A body f Hbody init [] (render lst) acc _ Hinit).
    cbn [app optstr_foreach mnt_optstr_next_option].
    pose proof (parse_next_item (joinc (map render init)) lst [] Hlst
                  (or_introl eq_refl)) as Hp.
    rewrite app_nil_r in Hp. rewrite Hp.
    cbv beta iota.
    pose proof (Hbody (fold_left f init acc) (joinc (map render init)) lst [])
      as Hb.
    rewrite app_nil_r in Hb. rewrite Hb.
    cbn [it_next parsed_item nonempty].
    replace (length (joinc (map render init)) + length (render lst) + 0)
      with (length (joinc (map render init) ++ render lst))
      by (rewrite length_app; lia).
    rewrite parse_next_at_end. rewrite fold_left_app. reflexivity.
Qed.

Lemma normal_ok it :
  item_ok it = true -> has_name it = true -> item_ok (normal it) = true.
Proof.
  unfold item_ok, has_name, normal, appended_item, render; simpl.
  intros H Hn. apply andb_true_iff in H as [H _].
  apply andb_true_iff in H as [H1 H2]. rewrite H1. simpl.
  destruct (o_name it) as [|c n]; [discriminate|].
  destruct (o_value it) as [[|d v]|]; simpl in *; try reflexivity.
  rewrite H2. reflexivity.
Qed.

Lemma normal_all_ok l :
  forallb item_ok l = true -> forallb has_name l = true ->
  forallb item_ok (map normal l) = true.
Proof.
  induction l as [|it l IH]; simpl; intros H Hn; [reflexivity|].
  apply andb_true_iff in H as [H1 H2]. apply andb_true_iff in Hn as [Hn1 Hn2].
  rewrite normal_ok, IH by assumption. reflexivity.
Qed.

Lemma append_collected l it :
  forallb item_ok l = true -> forallb has_name l = true ->
  snd (mnt_optstr_append_option (collected l) (Some (o_name it)) (o_value it))
  = collected (l ++ [it]).
Proof.
  intros Hok Hn. destruct l as [|x l].
  - simpl. unfold optstr_of; simpl. f_equal.
    rewrite append_raw_render. reflexivity.
  - change (collected (x :: l)) with (Some (optstr_of (map normal (x :: l)))).
    rewrite append_option_items by (apply normal_all_ok; assumption).
    simpl. rewrite map_app. reflexivity.
Qed.

Lemma length_optstr_of its :
  forallb item_ok its = true -> length its <= length (optstr_of its).
Proof.
  unfold optstr_of. induction its as [|it its IH]; intros Hok; simpl; [lia|].
  simpl in Hok. apply andb_true_iff in Hok as [Hit Hok].
  pose proof (item_ok_nonempty it Hit) as Hne.
  assert (1 <= length (render it))
    by (destruct (render it); [congruence|simpl; lia]).
  destruct its as [|it' its']; [simpl; lia|].
  specialize (IH Hok). cbn [map] in *.
  set (J := join (render it' :: map render its')) in *.
  rewrite length_app. simpl in *. lia.
Qed.

Lemma length_joinc_items its (rest : cstring) :
  length its <= length (joinc (map render its) ++ rest).
Proof.
  rewrite length_app. pose proof (length_joinc (map render its)) as H.
  rewrite length_map in H. lia.
Qed.

Section OptMapFacts.

Variable optmap : Type.
Variable lookup : list optmap -> cstring -> option nat * option mnt_optmap.
Variable linux_map userspace_map : optmap.

Local Abbreviation get_options := (mnt_optstr_get_options optmap lookup).
Local Abbreviation split_optstr_by_maps :=
  (mnt_split_optstr optmap lookup linux_map userspace_map).

Lemma get_options_body_item om ignore acc pre it tail :
  get_options_body optmap lookup om ignore acc (pre ++ render it ++ tail)
    (parsed_item (length pre) it (nonempty tail))
  = get_options_step (lookup [om]) ignore acc it.
Proof.
  unfold get_options_body, get_options_step, kept_by.
  rewrite parsed_name_item, append_parsed_item.
  destruct (snd (lookup [om] (o_name it))) as [e|]; [|reflexivity].
  destruct (om_id e =? 0)%Z; [reflexivity|].
  destruct (masked ignore e); reflexivity.
Qed.

Lemma get_options_fold om ignore its : forall acc,
  forallb item_ok (acc ++ its) = true ->
  forallb has_name (acc ++ its) = true ->
  fold_left (get_options_step (lookup [om]) ignore) its (collected acc)
  = collected (acc ++ filter (kept_by (lookup [om]) ignore) its).
Proof.
  induction its as [|it its IH]; intros acc Hok Hn; simpl.
  - rewrite app_nil_r. reflexivity.
  - unfold get_options_step at 2.
    destruct (kept_by (lookup [om]) ignore it) eqn:Hk.
    + rewrite append_collected.
      * rewrite IH.
        -- rewrite <- app_assoc. reflexivity.
        -- rewrite <- app_assoc. exact Hok.
        -- rewrite <- app_assoc. exact Hn.
      * rewrite forallb_app in Hok. apply andb_true_iff in Hok. tauto.
      * rewrite forallb_app in Hn. apply andb_true_iff in Hn. tauto.
    + apply IH.
      * rewrite forallb_app in *. simpl in Hok.
        apply andb_true_iff in Hok as [H1 H2].
        apply andb_true_iff in H2 as [_ H2]. rewrite H1, H2. reflexivity.
      * rewrite forallb_app in *. simpl in Hn.
        apply andb_true_iff in Hn as [H1 H2].
        apply andb_true_iff in H2 as [_ H2]. rewrite H1, H2. reflexivity.
Qed.

(** X1.  On a well-formed option string whose items all have a name,
    [mnt_optstr_get_options] returns 0 and the items that the map knows
    under a non-zero id and that the ignore mask does not hide, in their
    order, written again by the append function (an empty value loses
    its [=]); the subset is NULL when no item is kept. *)
Theorem get_options_keeps_known_items (its : list optitem) (om : optmap)
        (ignore : Z) :
  forallb item_ok its = true ->
  forallb has_name its = true ->
  get_options (Some (optstr_of its)) om ignore
  = Some (0%Z, collected (filter (kept_by (lookup [om]) ignore) its)).
Proof.
  intros Hok Hn. unfold mnt_optstr_get_options.
  rewrite (optstr_foreach_items _ _ (get_options_step (lookup [om]) ignore)
             (get_options_body_item om ignore) its None _ Hok)
    by (pose proof (length_optstr_of its Hok); lia).
  pose proof (get_options_fold om ignore its [] Hok Hn) as Hf.
  cbn [collected app] in Hf. rewrite Hf. reflexivity.
Qed.

(** X2.  A walk over an option string ends at an empty item without an
    error code: on a string whose well-formed items are followed by a
    second comma, [mnt_optstr_get_options] returns 0 with the kept items
    in front of that comma, and what stands behind it is not read. *)
Theorem get_options_stops_at_empty_item (its : list optitem) (rest : cstring)
        (om : optmap) (ignore : Z) :
  forallb item_ok its = true ->
  forallb has_name its = true ->
  get_options (Some (joinc (map render its) ++ COMMA :: rest)) om ignore
  = Some (0%Z, collected (filter (kept_by (lookup [om]) ignore) its)).
Proof.
  intros Hok Hn. unfold mnt_optstr_get_options.
  set (buf := joinc (map render its) ++ COMMA :: rest).
  pose proof (length_joinc_items its (COMMA :: rest)) as Hlen. fold buf in Hlen.
  replace (S (length buf)) with (length its + S (length buf - length its))
    by lia.
  pose proof (optstr_foreach_skip _ _ (get_options_step (lookup [om]) ignore)
                (get_options_body_item om ignore) its [] (COMMA :: rest)
                None (S (length buf - length its)) Hok) as Hs.
  cbn [app length] in Hs. fold buf in Hs. rewrite Hs.
  cbn [optstr_foreach mnt_optstr_next_option].
  unfold mnt_optstr_parse_next, buf. rewrite skipn_app_exact.
  assert (He : parse_loop (COMMA :: rest)
                 (length (joinc (map render its))) None false None
               = ParseError)
    by (apply parse_loop_error; eexists; reflexivity).
  rewrite He.
  pose proof (get_options_fold om ignore its [] Hok Hn) as Hf.
  cbn [collected app] in Hf. rewrite Hf. reflexivity.
Qed.

Local Abbreviation part_of :=
  (split_part_of (lookup [linux_map; userspace_map])).

Lemma split_body_item wu wv wf iu iv acc pre it tail :
  split_body optmap lookup linux_map userspace_map wu wv wf iu iv acc
    (pre ++ render it ++ tail) (parsed_item (length pre) it (nonempty tail))
  = split_step (part_of wu wv wf iu iv) acc it.
Proof.
  unfold split_body, split_step, split_part_of.
  rewrite parsed_name_item, !append_parsed_item.
  destruct (lookup [linux_map; userspace_map] (o_name it)) as [m ent].
  destruct ent as [e|].
  - destruct (om_id e =? 0)%Z; [destruct acc; reflexivity|].
    destruct (map_is m 0 && wv).
    + destruct (masked iv e); destruct acc; reflexivity.
    + destruct (map_is m 1 && wu).
      * destruct (masked iu e); destruct acc; reflexivity.
      * destruct (is_none m && wf); destruct acc; reflexivity.
  - destruct (is_none m && wf); destruct acc; reflexivity.
Qed.

Lemma forallb_snoc_l (P : optitem -> bool) a it its :
  forallb P (a ++ it :: its) = true ->
  forallb P a = true /\ forallb P ((a ++ [it]) ++ its) = true
  /\ forallb P (a ++ its) = true.
Proof.
  rewrite <- app_assoc. cbn [app]. rewrite !forallb_app. simpl.
  intros H. apply andb_true_iff in H as [H1 H2].
  apply andb_true_iff in H2 as [H2 H3]. rewrite H1, H2, H3. auto.
Qed.

Lemma split_fold part its : forall u v f,
  forallb item_ok (u ++ its) = true -> forallb has_name (u ++ its) = true ->
  forallb item_ok (v ++ its) = true -> forallb has_name (v ++ its) = true ->
  forallb item_ok (f ++ its) = true -> forallb has_name (f ++ its) = true ->
  fold_left (split_step part) its
    {| sp_user := collected u; sp_vfs := collected v; sp_fs := collected f |}
  = {| sp_user := collected
         (u ++ filter (fun it => split_part_eqb (part it) ToUser) its);
       sp_vfs := collected
         (v ++ filter (fun it => split_part_eqb (part it) ToVfs) its);
       sp_fs := collected
         (f ++ filter (fun it => split_part_eqb (part it) ToFs) its) |}.
Proof.
  induction its as [|it its IH]; intros u v f Hu Hu' Hv Hv' Hf Hf'.
  - simpl. rewrite !app_nil_r. reflexivity.
  - apply forallb_snoc_l in Hu as (Hu1 & Hu2 & Hu3).
    apply forallb_snoc_l in Hu' as (Hu1' & Hu2' & Hu3').
    apply forallb_snoc_l in Hv as (Hv1 & Hv2 & Hv3).
    apply forallb_snoc_l in Hv' as (Hv1' & Hv2' & Hv3').
    apply forallb_snoc_l in Hf as (Hf1 & Hf2 & Hf3).
    apply forallb_snoc_l in Hf' as (Hf1' & Hf2' & Hf3').
    cbn [fold_left filter]. unfold split_step at 2.
    destruct (part it); cbn [split_part_eqb sp_user sp_vfs sp_fs];
      rewrite ?append_collected by assumption;
      rewrite IH by assumption; rewrite <- ?app_assoc; reflexivity.
Qed.

(** [mnt_split_optstr] on the items. *)
Lemma split_optstr_items (its : list optitem)
        (want_user want_vfs want_fs : bool) (ignore_user ignore_vfs : Z) :
  forallb item_ok its = true ->
  forallb has_name its = true ->
  split_optstr_by_maps (Some (optstr_of its)) want_user want_vfs want_fs
    ignore_user ignore_vfs
  = Some (0%Z,
          {| sp_user := collected
               (filter (fun it =>
                  split_part_eqb
                    (part_of want_user want_vfs want_fs ignore_user
                       ignore_vfs it) ToUser) its);
             sp_vfs := collected
               (filter (fun it =>
                  split_part_eqb
                    (part_of want_user want_vfs want_fs ignore_user
                       ignore_vfs it) ToVfs) its);
             sp_fs := collected
               (filter (fun it =>
                  split_part_eqb
                    (part_of want_user want_vfs want_fs ignore_user
                       ignore_vfs it) ToFs) its) |}).
Proof.
  intros Hok Hn. unfold mnt_split_optstr.
  rewrite (optstr_foreach_items _ _
             (split_step (part_of want_user want_vfs want_fs ignore_user
                            ignore_vfs))
             (split_body_item want_user want_vfs want_fs ignore_user
                ignore_vfs) its _ _ Hok)
    by (pose proof (length_optstr_of its Hok); lia).
  pose proof (split_fold (part_of want_user want_vfs want_fs ignore_user
                            ignore_vfs) its [] [] [] Hok Hn Hok Hn Hok Hn)
    as Hf.
  cbn [collected app] in Hf. rewrite Hf. reflexivity.
Qed.

(** X3.  On a well-formed option string whose items all have a name,
    [mnt_split_optstr] returns 0 and puts every item into at most one of
    its three strings, keeping the order: into the VFS string when the
    kernel map holds it, into the userspace string when the userspace
    map holds it, into the FS string when no map holds it.  An item with
    id 0, an item hidden by the ignore mask of its map and an item whose
    output string was not asked for are dropped; a string that receives
    no item stays NULL. *)
Theorem split_optstr_partitions (its : list optitem)
        (want_user want_vfs want_fs : bool) (ignore_user ignore_vfs : Z) :
  forallb item_ok its = true ->
  forallb has_name its = true ->
  split_optstr_by_maps (Some (optstr_of its)) want_user want_vfs want_fs
    ignore_user ignore_vfs
  = Some (0%Z,
          {| sp_user := collected
               (filter (fun it =>
                  split_part_eqb
                    (part_of want_user want_vfs want_fs ignore_user
                       ignore_vfs it) ToUser) its);
             sp_vfs := collected
               (filter (fun it =>
                  split_part_eqb
                    (part_of want_user want_vfs want_fs ignore_user
                       ignore_vfs it) ToVfs) its);
             sp_fs := collected
               (filter (fun it =>
                  split_part_eqb
                    (part_of want_user want_vfs want_fs ignore_user
                       ignore_vfs it) ToFs) its) |}).
Proof. apply split_optstr_items. Qed.

End OptMapFacts.

Lemma get_options_keeps_known_items_witness :
  mnt_optstr_get_options sample_optmap sample_optmap_get_entry
    (Some (cstr "ro,data=ordered,defaults,noexec")) SAMPLE_LINUX_MAP 0%Z
  = Some (0%Z, Some (cstr "ro,noexec")).
Proof.
  apply (get_options_keeps_known_items sample_optmap sample_optmap_get_entry
           [flag_item (cstr "ro"); value_item (cstr "data") (cstr "ordered");
            flag_item (cstr "defaults"); flag_item (cstr "noexec")]
           SAMPLE_LINUX_MAP 0%Z).
  - reflexivity.
  - reflexivity.
Defined.

Lemma get_options_stops_at_empty_item_witness :
  mnt_optstr_get_options sample_optmap sample_optmap_get_entry
    (Some (cstr "ro,noexec,,nosuid")) SAMPLE_LINUX_MAP 0%Z
  = Some (0%Z, Some (cstr "ro,noexec")).
Proof.
  apply (get_options_stops_at_empty_item sample_optmap
           sample_optmap_get_entry
           [flag_item (cstr "ro"); flag_item (cstr "noexec")] (cstr "nosuid")
           SAMPLE_LINUX_MAP 0%Z).
  - reflexivity.
  - reflexivity.
Defined.

Lemma split_optstr_partitions_witness :
  mnt_split_optstr sample_optmap sample_optmap_get_entry SAMPLE_LINUX_MAP
    SAMPLE_USERSPACE_MAP (Some (cstr "ro,user,data=ordered,defaults,noauto"))
    true true true 2%Z 0%Z
  = Some (0%Z, {| sp_user := Some (cstr "user"); sp_vfs := Some (cstr "ro");
                  sp_fs := Some (cstr "data=ordered") |}).
Proof.
  apply (split_optstr_partitions sample_optmap sample_optmap_get_entry
           SAMPLE_LINUX_MAP SAMPLE_USERSPACE_MAP
           [flag_item (cstr "ro"); flag_item (cstr "user");
            value_item (cstr "data") (cstr "ordered");
            flag_item (cstr "defaults"); flag_item (cstr "noauto")]
           true true true 2%Z 0%Z).
  - reflexivity.
  - reflexivity.
Defined.

(** ** Looking up, setting and prepending options *)

Lemma find_named_split name its it :
  find (named name) its = Some it ->
  exists before after,
    its = before ++ it :: after
    /\ existsb (named name) before = false
    /\ named name it = true.
Proof.
  induction its as [|x its IH]; simpl; [discriminate|].
  destruct (named name x) eqn:Hx.
  - intros [= <-]. exists [], its. auto.
  - intros H. destruct (IH H) as (b & a & -> & Hb & Hit).
    exists (x :: b), a. simpl. rewrite Hx. auto.
Qed.

Lemma find_named_none name its :
  find (named name) its = None -> existsb (named name) its = false.
Proof.
  induction its as [|x its IH]; simpl; [reflexivity|].
  destruct (named name x); [discriminate|]. exact IH.
Qed.

(** The value that [mnt_optstr_get_option] points to is the value of the
    first item that carries the name. *)
Lemma get_option_at name before it after :
  forallb item_ok (before ++ it :: after) = true ->
  existsb (named name) before = false ->
  named name it = true ->
  exists loc,
    mnt_optstr_get_option (Some (optstr_of (before ++ it :: after))) name
    = (0%Z, Some loc)
    /\ value_at (optstr_of (before ++ it :: after)) loc = o_value it.
Proof.
  intros Hok Hb Hit. unfold mnt_optstr_get_option.
  rewrite (locate_found name before it after Hok Hb Hit).
  eexists. split; [reflexivity|].
  unfold value_at, located_item; cbn [fst snd ol_value ol_valsz].
  destruct (o_value it) as [v|] eqn:Hv; [|reflexivity].
  f_equal. rewrite optstr_of_split.
  assert (Hr : render it = o_name it ++ EQUALS :: v)
    by (unfold render; rewrite Hv; reflexivity).
  rewrite Hr. set (Bs := joinc (map render before)).
  replace (Bs ++ (o_name it ++ EQUALS :: v) ++ tail_of after)
    with ((Bs ++ o_name it ++ [EQUALS]) ++ v ++ tail_of after)
    by (rewrite <- !app_assoc; reflexivity).
  replace (S (length Bs + length (o_name it)))
    with (length (Bs ++ o_name it ++ [EQUALS]))
    by (rewrite !length_app; simpl; lia).
  rewrite skipn_app_exact. apply firstn_app_exact.
Qed.

(** [mnt_optstr_get_option] reads the first item of the name. *)
Lemma get_option_find (its : list optitem) (name : cstring) :
  forallb item_ok its = true ->
  match find (named name) its with
  | Some it =>
      exists loc,
        mnt_optstr_get_option (Some (optstr_of its)) name = (0%Z, Some loc)
        /\ value_at (optstr_of its) loc = o_value it
  | None =>
      mnt_optstr_get_option (Some (optstr_of its)) name = (1%Z, None)
  end.
Proof.
  intros Hok. destruct (find (named name) its) as [it|] eqn:Hf.
  - destruct (find_named_split name its it Hf) as (b & a & -> & Hb & Hit).
    apply get_option_at; assumption.
  - unfold mnt_optstr_get_option.
    rewrite locate_not_found by (auto using find_named_none). reflexivity.
Qed.

(** X4.  On a well-formed option string [mnt_optstr_get_option] returns 0
    and points to the value of the first item that carries the name
    (NULL when that item has no [=]), whatever items of the same name
    follow; it returns 1 when no item carries the name. *)
Theorem get_option_first_value (its : list optitem) (name : cstring) :
  forallb item_ok its = true ->
  match find (named name) its with
  | Some it =>
      exists loc,
        mnt_optstr_get_option (Some (optstr_of its)) name = (0%Z, Some loc)
        /\ value_at (optstr_of its) loc = o_value it
  | None =>
      mnt_optstr_get_option (Some (optstr_of its)) name = (1%Z, None)
  end.
Proof. apply get_option_find. Qed.

Lemma get_option_first_value_witness :
  exists loc,
    mnt_optstr_get_option (Some (cstr "a=1,b,a=2")) (cstr "a")
    = (0%Z, Some loc)
    /\ value_at (cstr "a=1,b,a=2") loc = Some (cstr "1").
Proof.
  apply (get_option_first_value
           [value_item (cstr "a") (cstr "1"); flag_item (cstr "b");
            value_item (cstr "a") (cstr "2")] (cstr "a")).
  reflexivity.
Defined.

Lemma item_ok_with_value it v :
  item_ok it = true -> chars_ok false v = true ->
  item_ok (with_value it v) = true.
Proof.
  unfold item_ok, with_value, render; simpl. intros H Hv.
  apply andb_true_iff in H as [H _]. apply andb_true_iff in H as [H _].
  rewrite H, Hv. simpl. destruct (o_name it); reflexivity.
Qed.

Lemma forallb_replace (P : optitem -> bool) b x y a :
  forallb P (b ++ x :: a) = true -> P y = true ->
  forallb P (b ++ y :: a) = true.
Proof.
  rewrite !forallb_app. simpl. intros H Hy.
  apply andb_true_iff in H as [H1 H2]. apply andb_true_iff in H2 as [_ H2].
  rewrite H1, Hy, H2. reflexivity.
Qed.

Lemma forallb_item_of (P : optitem -> bool) b x a :
  forallb P (b ++ x :: a) = true -> P x = true.
Proof.
  rewrite forallb_app. simpl. intros H.
  apply andb_true_iff in H as [_ H]. apply andb_true_iff in H as [H _].
  exact H.
Qed.

(** X5.  Set, then get.  On a well-formed option string, setting the
    option [n] (a non-empty name free of commas, quotes and [=]) to the
    non-empty value [v] (commas only inside closed quotes) succeeds, and
    a lookup of [n] in the new string returns [v], whether the string
    held the name before or not. *)
Theorem set_then_get (its : list optitem) (n v : cstring) :
  forallb item_ok its = true ->
  name_ok n = true -> n <> [] ->
  chars_ok false v = true -> v <> [] ->
  exists s loc,
    mnt_optstr_set_option (Some (optstr_of its)) n (Some v) = (0%Z, Some s)
    /\ mnt_optstr_get_option (Some s) n = (0%Z, Some loc)
    /\ value_at s loc = Some v.
Proof.
  intros Hok Hn Hne Hv Hvne.
  destruct (existsb (named n) its) eqn:Hex.
  - destruct (split_named n its Hex) as (b & it & a & -> & Hb & Hit & _).
    assert (Hname : o_name it = n) by (apply cstring_eqb_eq; exact Hit).
    assert (Hok' : forallb item_ok (b ++ with_value it v :: a) = true).
    { apply (forallb_replace item_ok b it); [exact Hok|].
      apply item_ok_with_value; [|exact Hv].
      exact (forallb_item_of item_ok b it a Hok). }
    destruct (get_option_at n b (with_value it v) a Hok' Hb)
      as (loc & Hg & Hval); [exact Hit|].
    exists (optstr_of (b ++ with_value it v :: a)), loc.
    split; [|split; assumption].
    rewrite <- Hname. apply set_option_items.
    + exact Hok.
    + rewrite Hname. exact Hb.
    + rewrite Hname. exact Hne.
  - set (new := {| o_name := n; o_value := Some v |}).
    assert (Happ : appended_item n (Some v) = new)
      by (destruct v; [congruence|reflexivity]).
    assert (Hnew : item_ok new = true).
    { unfold item_ok, new, render; simpl. rewrite Hn, Hv.
      destruct n; reflexivity. }
    assert (Hok' : forallb item_ok (its ++ [new]) = true)
      by (rewrite forallb_app; simpl; rewrite Hok, Hnew; reflexivity).
    destruct (get_option_at n its new [] Hok' Hex (named_refl n (Some v)))
      as (loc & Hg & Hval).
    exists (optstr_of (its ++ [new])), loc. split; [|split; assumption].
    unfold mnt_optstr_set_option. rewrite locate_not_found by assumption.
    rewrite append_option_items by assumption. rewrite Happ. reflexivity.
Qed.

Lemma set_then_get_witness :
  exists s loc,
    mnt_optstr_set_option (Some (cstr "a,size=1,b")) (cstr "size")
      (Some (cstr "4096")) = (0%Z, Some s)
    /\ mnt_optstr_get_option (Some s) (cstr "size") = (0%Z, Some loc)
    /\ value_at s loc = Some (cstr "4096").
Proof.
  apply (set_then_get
           [flag_item (cstr "a"); value_item (cstr "size") (cstr "1");
            flag_item (cstr "b")] (cstr "size") (cstr "4096")).
  - reflexivity.
  - reflexivity.
  - discriminate.
  - reflexivity.
  - discriminate.
Defined.

(** [mnt_optstr_prepend_option] on the items. *)
Lemma prepend_option_items its n v :
  forallb item_ok its = true ->
  render (appended_item n v) <> [] ->
  mnt_optstr_prepend_option (Some (optstr_of its)) (Some n) v
  = (0%Z, Some (optstr_of (appended_item n v :: its))).
Proof.
  intros Hok Hne. unfold mnt_optstr_prepend_option.
  unfold mnt_optstr_append_option at 1. rewrite append_raw_render.
  cbn [length Nat.eqb app].
  set (new := render (appended_item n v)) in *.
  destruct (optstr_of its) as [|c t] eqn:Hs.
  - cbn [Z.eqb]. apply optstr_of_empty in Hs; [|exact Hok]. subst its.
    reflexivity.
  - cbn [Z.eqb]. unfold mnt_optstr_append_option, __mnt_optstr_append_option.
    rewrite firstn_length_all.
    destruct new as [|d new'] eqn:Hnew; [congruence|].
    cbn [length Nat.eqb Z.eqb]. rewrite app_nil_r.
    f_equal. f_equal. unfold optstr_of. cbn [map].
    fold (optstr_of its). rewrite join_cons.
    + fold new. rewrite Hnew, <- Hs. rewrite <- app_assoc. reflexivity.
    + intros Hnil. apply map_eq_nil in Hnil. subst its. discriminate.
Qed.

(** X6.  A prepended option shadows the options of the same name: after
    [mnt_optstr_prepend_option] of the well-formed item [n] or [n=v] to
    a well-formed string, a lookup of [n] returns the new value, also
    when the string already holds an item named [n]. *)
Theorem prepend_then_get (its : list optitem) (n : cstring)
        (v : option cstring) :
  forallb item_ok its = true ->
  item_ok (appended_item n v) = true ->
  exists s loc,
    mnt_optstr_prepend_option (Some (optstr_of its)) (Some n) v
    = (0%Z, Some s)
    /\ mnt_optstr_get_option (Some s) n = (0%Z, Some loc)
    /\ value_at s loc = o_value (appended_item n v).
Proof.
  intros Hok Hit.
  assert (Hok' : forallb item_ok ([] ++ appended_item n v :: its) = true)
    by (simpl; rewrite Hit, Hok; reflexivity).
  destruct (get_option_at n [] (appended_item n v) its Hok' eq_refl)
    as (loc & Hg & Hval); [apply named_refl|].
  exists (optstr_of (appended_item n v :: its)), loc.
  split; [|split; assumption].
  apply prepend_option_items; [exact Hok|].
  apply item_ok_nonempty; exact Hit.
Qed.

Lemma prepend_then_get_witness :
  exists s loc,
    mnt_optstr_prepend_option (Some (cstr "a=1,b")) (Some (cstr "a"))
      (Some (cstr "2")) = (0%Z, Some s)
    /\ mnt_optstr_get_option (Some s) (cstr "a") = (0%Z, Some loc)
    /\ value_at s loc = Some (cstr "2").
Proof.
  apply (prepend_then_get
           [value_item (cstr "a") (cstr "1"); flag_item (cstr "b")]
           (cstr "a") (Some (cstr "2"))).
  - reflexivity.
  - reflexivity.
Defined.

(** X7.  Prepend, then remove.  Prepending the well-formed item [n] or
    [n=v] to a well-formed option string and then removing the option
    [n] gives the string back byte for byte, for every such string:
    unlike after an append, the first item of the name is the new one. *)
Theorem prepend_then_remove (its : list optitem) (n : cstring)
        (v : option cstring) :
  forallb item_ok its = true ->
  item_ok (appended_item n v) = true ->
  mnt_optstr_remove_option
    (snd (mnt_optstr_prepend_option (Some (optstr_of its)) (Some n) v)) n
  = (0%Z, Some (optstr_of its)).
Proof.
  intros Hok Hit.
  rewrite prepend_option_items
    by (auto using item_ok_nonempty).
  cbn [snd]. rewrite remove_option_items
    by (simpl; rewrite Hit, Hok; reflexivity).
  assert (Hnm : named n (appended_item n v) = true) by apply named_refl.
  cbn [existsb remove_named]. rewrite Hnm. reflexivity.
Qed.

Lemma prepend_then_remove_witness :
  mnt_optstr_remove_option
    (snd (mnt_optstr_prepend_option (Some (cstr "a=1,b")) (Some (cstr "a"))
            (Some (cstr "2")))) (cstr "a")
  = (0%Z, Some (cstr "a=1,b")).
Proof.
  apply (prepend_then_remove
           [value_item (cstr "a") (cstr "1"); flag_item (cstr "b")]
           (cstr "a") (Some (cstr "2"))).
  - reflexivity.
  - reflexivity.
Defined.

(** ** Unsetting a value and removing an option *)

(** X8.  Unsetting a value.  On a well-formed string whose first item
    named [name] (a non-empty name) is [it], [mnt_optstr_set_option]
    with a NULL value cuts [=value] out of that item and leaves the bare
    name in its place; an item without value and an item with an empty
    value ([name=]) are left as they are.  The call returns 0. *)
Theorem set_option_null_strips_value (B : list optitem) (it : optitem)
        (A : list optitem) :
  forallb item_ok (B ++ it :: A) = true ->
  existsb (named (o_name it)) B = false ->
  o_name it <> [] ->
  mnt_optstr_set_option (Some (optstr_of (B ++ it :: A))) (o_name it) None
  = (0%Z, Some (optstr_of (B ++ without_value it :: A))).
Proof.
  intros Hok Hb Hne. unfold mnt_optstr_set_option.
  rewrite (locate_found (o_name it) B it A Hok Hb)
    by (apply cstring_eqb_refl).
  unfold located_item, without_value;
    cbn [ol_begin ol_end ol_value ol_valsz ol_namesz].
  destruct (o_value it) as [[|c v]|] eqn:Hv; try reflexivity.
  cbn [length Nat.eqb negb]. f_equal. f_equal.
  rewrite !optstr_of_split.
  assert (Hr : render it = o_name it ++ EQUALS :: c :: v)
    by (unfold render; rewrite Hv; reflexivity).
  rewrite Hr.
  rewrite (remove_value_at (joinc (map render B)) (o_name it)
             (EQUALS :: c :: v) (tail_of A)).
  - unfold render at 3. cbn [o_name o_value]. rewrite app_nil_r. reflexivity.
  - apply item_ok_name. exact (forallb_item_of item_ok B it A Hok).
  - exact Hne.
Qed.

Lemma set_option_null_strips_value_witness :
  mnt_optstr_set_option (Some (cstr "a,size=1,b")) (cstr "size") None
  = (0%Z, Some (cstr "a,size,b")).
Proof.
  apply (set_option_null_strips_value
           [flag_item (cstr "a")] (value_item (cstr "size") (cstr "1"))
           [flag_item (cstr "b")]).
  - reflexivity.
  - reflexivity.
  - discriminate.
Defined.

Lemma remove_named_absent name its :
  existsb (named name) its = false -> remove_named name its = its.
Proof.
  induction its as [|x its IH]; simpl; [reflexivity|].
  destruct (named name x); [discriminate|]. simpl. intros H.
  rewrite IH by exact H. reflexivity.
Qed.

(** X9.  On a well-formed option string [mnt_optstr_remove_option]
    returns 0 when an item carries the name and 1 when none does.  It
    takes out the first item of that name and nothing else: the result
    is again a well-formed string (no comma at either end, no two commas
    in a row), it holds one item of the name less, and the items of
    every other name are all kept. *)
Theorem remove_option_first_only (its : list optitem) (name : cstring) :
  forallb item_ok its = true ->
  mnt_optstr_remove_option (Some (optstr_of its)) name
  = ((if existsb (named name) its then 0%Z else 1%Z),
     Some (optstr_of (remove_named name its)))
  /\ forallb item_ok (remove_named name its) = true
  /\ cnt name (remove_named name its) = cnt name its - 1
  /\ (forall other, other <> name ->
      cnt other (remove_named name its) = cnt other its).
Proof.
  intros Hok. repeat split.
  - rewrite remove_option_items by exact Hok.
    destruct (existsb (named name) its) eqn:Hex; [reflexivity|].
    rewrite remove_named_absent by exact Hex. reflexivity.
  - apply item_ok_remove. exact Hok.
  - apply cnt_remove_same.
  - intros other Hne. apply cnt_remove_other. congruence.
Qed.

Lemma remove_option_first_only_witness :
  mnt_optstr_remove_option (Some (cstr "a=1,b,a=2")) (cstr "a")
  = (0%Z, Some (cstr "b,a=2")).
Proof.
  apply (remove_option_first_only
           [value_item (cstr "a") (cstr "1"); flag_item (cstr "b");
            value_item (cstr "a") (cstr "2")] (cstr "a")).
  reflexivity.
Defined.

(** ** The options of an entry *)

Lemma find_app_or (A : Type) (P : A -> bool) (a b : list A) :
  find P (a ++ b)
  = match find P a with
    | Some x => Some x
    | None => find P b
    end.
Proof.
  induction a as [|x a IH]; simpl; [reflexivity|].
  destruct (P x); [reflexivity|exact IH].
Qed.

Lemma get_option_in_found L name it prev :
  fst prev = 1%Z ->
  forallb item_ok (items_of L) = true ->
  find (named name) (items_of L) = Some it ->
  exists buf loc,
    get_option_in (option_map optstr_of L) name prev = (0%Z, Some (buf, loc))
    /\ value_at buf loc = o_value it.
Proof.
  intros Hp Hok Hf. destruct L as [l|]; [|discriminate]. simpl in *.
  pose proof (get_option_find l name Hok) as Hg. rewrite Hf in Hg.
  destruct Hg as (loc & Hg & Hval).
  exists (optstr_of l), loc. split; [|exact Hval].
  unfold get_option_in. rewrite Hp. cbn [Z.eqb Pos.eqb]. rewrite Hg.
  reflexivity.
Qed.

Lemma get_option_in_absent L name prev :
  fst prev = 1%Z ->
  forallb item_ok (items_of L) = true ->
  find (named name) (items_of L) = None ->
  get_option_in (option_map optstr_of L) name prev = prev.
Proof.
  intros Hp Hok Hf. unfold get_option_in. rewrite Hp. cbn [Z.eqb Pos.eqb].
  destruct L as [l|]; [|reflexivity]. simpl in *.
  pose proof (get_option_find l name Hok) as Hg. rewrite Hf in Hg.
  rewrite Hg. destruct prev as [rc x]. simpl in *. subst rc. reflexivity.
Qed.

(** X10.  [mnt_fs_get_option] searches the FS options first, then the VFS
    options, then the userspace options: on an entry whose option
    strings are well-formed (or NULL) it returns 0 with the value of the
    first item of that name in this order, and 1 when none of the three
    strings holds the name. *)
Theorem fs_get_option_precedence (fs : mnt_fs)
        (F V U : option (list optitem)) (name : cstring) :
  fs_optstr fs = option_map optstr_of F ->
  vfs_optstr fs = option_map optstr_of V ->
  user_optstr fs = option_map optstr_of U ->
  forallb item_ok (items_of F ++ items_of V ++ items_of U) = true ->
  match find (named name) (items_of F ++ items_of V ++ items_of U) with
  | Some it =>
      exists buf loc,
        mnt_fs_get_option fs name = (0%Z, Some (buf, loc))
        /\ value_at buf loc = o_value it
  | None => mnt_fs_get_option fs name = (1%Z, None)
  end.
Proof.
  intros HF HV HU Hok. rewrite !forallb_app in Hok.
  apply andb_true_iff in Hok as [HokF Hok].
  apply andb_true_iff in Hok as [HokV HokU].
  unfold mnt_fs_get_option. rewrite HF, HV, HU. rewrite !find_app_or.
  destruct (find (named name) (items_of F)) as [it|] eqn:Hf.
  - destruct (get_option_in_found F name it (1%Z, None) eq_refl HokF Hf)
      as (buf & loc & Hg & Hval).
    exists buf, loc. rewrite Hg. split; [reflexivity|exact Hval].
  - rewrite (get_option_in_absent F name (1%Z, None) eq_refl HokF Hf).
    destruct (find (named name) (items_of V)) as [it|] eqn:Hv.
    + destruct (get_option_in_found V name it (1%Z, None) eq_refl HokV Hv)
        as (buf & loc & Hg & Hval).
      exists buf, loc. rewrite Hg. split; [reflexivity|exact Hval].
    + rewrite (get_option_in_absent V name (1%Z, None) eq_refl HokV Hv).
      destruct (find (named name) (items_of U)) as [it|] eqn:Hu.
      * destruct (get_option_in_found U name it (1%Z, None) eq_refl HokU Hu)
          as (buf & loc & Hg & Hval).
        exists buf, loc. split; assumption.
      * apply (get_option_in_absent U name (1%Z, None) eq_refl HokU Hu).
Qed.

Lemma fs_get_option_precedence_witness :
  exists buf loc,
    mnt_fs_get_option
      (entry_with_options (Some (cstr "size=1")) (Some (cstr "ro,size=2"))
         None) (cstr "size")
    = (0%Z, Some (buf, loc))
    /\ value_at buf loc = Some (cstr "2").
Proof.
  apply (fs_get_option_precedence
           (entry_with_options (Some (cstr "size=1"))
              (Some (cstr "ro,size=2")) None)
           (Some [flag_item (cstr "ro"); value_item (cstr "size") (cstr "2")])
           (Some [value_item (cstr "size") (cstr "1")]) None (cstr "size")).
  - reflexivity.
  - reflexivity.
  - reflexivity.
  - reflexivity.
Defined.

Lemma with_flag_nonempty flag body :
  flag <> [] -> (length (with_flag flag body) =? 0) = false.
Proof.
  intros H. unfold with_flag.
  destruct body; destruct flag; try congruence; reflexivity.
Qed.

(** X11.  [mnt_fs_strdup_options] on an entry with two different
    well-formed VFS and FS option strings (at most two rw/ro items
    together) and a userspace string [u]: the result is the merged VFS
    and FS options behind their single rw/ro flag, a comma, and [u] as it
    stands, also when [u] is empty. *)
Theorem strdup_options_appends_user (fs : mnt_fs) (A B : list optitem)
        (u : cstring) :
  vfs_optstr fs = Some (optstr_of A) ->
  fs_optstr fs = Some (optstr_of B) ->
  user_optstr fs = Some u ->
  A <> [] -> B <> [] ->
  forallb item_ok (A ++ B) = true ->
  optstr_of A <> optstr_of B ->
  length (filter is_flag (A ++ B)) <= 2 ->
  mnt_fs_strdup_options fs
  = Some (with_flag (flag_of (A ++ B)) (optstr_of (flagless (A ++ B)))
            ++ COMMA :: u).
Proof.
  intros HV HF HU HA HB Hok Hne Hfl.
  unfold mnt_fs_strdup_options, strdup_options. rewrite HV, HF, HU.
  rewrite (merge_optstr_distinct A B HA HB Hok Hne Hfl).
  unfold mnt_optstr_append_option, __mnt_optstr_append_option.
  rewrite with_flag_nonempty
    by (unfold flag_of; destruct (existsb (named RO) (A ++ B)); discriminate).
  cbn [length Nat.eqb Z.eqb]. rewrite firstn_length_all, app_nil_r.
  rewrite <- app_assoc. reflexivity.
Qed.

Lemma strdup_options_appends_user_witness :
  mnt_fs_strdup_options
    (entry_with_options (Some (cstr "rw,noexec"))
       (Some (cstr "ro,journal=update")) (Some (cstr "user")))
  = Some (cstr "ro,noexec,journal=update,user").
Proof.
  apply (strdup_options_appends_user
           (entry_with_options (Some (cstr "rw,noexec"))
              (Some (cstr "ro,journal=update")) (Some (cstr "user")))
           [flag_item (cstr "rw"); flag_item (cstr "noexec")]
           [flag_item (cstr "ro");
            value_item (cstr "journal") (cstr "update")] (cstr "user")).
  - reflexivity.
  - reflexivity.
  - reflexivity.
  - discriminate.
  - discriminate.
  - reflexivity.
  - discriminate.
  - vm_compute. lia.
Defined.

Lemma forallb_filter (P Q : optitem -> bool) l :
  forallb P l = true -> forallb P (filter Q l) = true.
Proof.
  induction l as [|x l IH]; simpl; [reflexivity|]. intros H.
  apply andb_true_iff in H as [H1 H2].
  destruct (Q x); simpl; rewrite ?H1; auto.
Qed.

Lemma optstr_of_normal_nonempty l :
  l <> [] -> forallb item_ok l = true -> forallb has_name l = true ->
  optstr_of (map normal l) <> [].
Proof.
  intros Hne Hok Hn. apply join_nonempty.
  - destruct l; [congruence|discriminate].
  - apply normal_all_ok; assumption.
Qed.

Lemma add_part_append field l :
  forallb item_ok l = true -> forallb has_name l = true ->
  add_part mnt_optstr_append_option field (collected l) 0%Z
  = (0%Z, field_with field l).
Proof.
  intros Hok Hn. unfold add_part. cbn [Z.eqb].
  destruct l as [|x l]; [reflexivity|].
  cbn [collected field_with].
  unfold mnt_optstr_append_option, __mnt_optstr_append_option.
  rewrite firstn_length_all. cbn [length Nat.eqb]. rewrite app_nil_r.
  destruct field as [[|c s]|]; cbn [length Nat.eqb app];
    rewrite <- ?app_assoc; reflexivity.
Qed.

Lemma field_with_app field l1 l2 :
  forallb item_ok l1 = true -> forallb has_name l1 = true ->
  field_with (field_with field l1) l2 = field_with field (l1 ++ l2).
Proof.
  intros Hok Hn. destruct l1 as [|x l1]; [reflexivity|].
  destruct l2 as [|y l2]; [rewrite app_nil_r; reflexivity|].
  pose proof (optstr_of_normal_nonempty (x :: l1) ltac:(discriminate) Hok Hn)
    as Hne.
  assert (Happ : optstr_of (map normal ((x :: l1) ++ y :: l2))
                 = optstr_of (map normal (x :: l1))
                     ++ COMMA :: optstr_of (map normal (y :: l2))).
  { rewrite map_app. symmetry. apply optstr_of_app; discriminate. }
  change ((x :: l1) ++ y :: l2) with (x :: (l1 ++ y :: l2)) at 1.
  cbn [field_with]. change (x :: (l1 ++ y :: l2)) with ((x :: l1) ++ y :: l2).
  rewrite Happ. f_equal.
  destruct field as [[|c s]|].
  - destruct (optstr_of (map normal (x :: l1))); [congruence|reflexivity].
  - rewrite <- app_assoc. reflexivity.
  - destruct (optstr_of (map normal (x :: l1))); [congruence|reflexivity].
Qed.

Section FsOptionFacts.

Variable optmap : Type.
Variable lookup : list optmap -> cstring -> option nat * option mnt_optmap.
Variable linux_map userspace_map : optmap.

Local Abbreviation append_options :=
  (mnt_fs_append_options optmap lookup linux_map userspace_map).

Local Abbreviation part_of_item :=
  (split_part_of (lookup [linux_map; userspace_map]) true true true 0%Z 0%Z).

Lemma append_options_items fs its :
  forallb item_ok its = true ->
  forallb has_name its = true ->
  append_options fs (Some (optstr_of its))
  = Some (0%Z,
          with_optstrs fs
            (field_with (vfs_optstr fs)
               (filter (fun it => split_part_eqb (part_of_item it) ToVfs) its))
            (field_with (fs_optstr fs)
               (filter (fun it => split_part_eqb (part_of_item it) ToFs) its))
            (field_with (user_optstr fs)
               (filter (fun it => split_part_eqb (part_of_item it) ToUser) its))).
Proof.
  intros Hok Hn. unfold mnt_fs_append_options, add_options, split_all.
  rewrite (split_optstr_items optmap lookup linux_map userspace_map its
             true true true 0%Z 0%Z Hok Hn).
  cbn [sp_user sp_vfs sp_fs].
  rewrite !add_part_append by (apply forallb_filter; assumption).
  reflexivity.
Qed.

(** X12.  [mnt_fs_append_options] composes: appending the well-formed
    options [A] and then the well-formed options [B] (all items named)
    leaves the entry in the state that one call with [A] and [B] joined
    by a comma gives, whatever the three option strings of the entry
    held before; all three calls return 0. *)
Theorem append_options_in_two_calls (fs : mnt_fs) (A B : list optitem) :
  forallb item_ok (A ++ B) = true ->
  forallb has_name (A ++ B) = true ->
  exists fs1 fs2,
    append_options fs (Some (optstr_of A)) = Some (0%Z, fs1)
    /\ append_options fs1 (Some (optstr_of B)) = Some (0%Z, fs2)
    /\ append_options fs (Some (optstr_of (A ++ B))) = Some (0%Z, fs2).
Proof.
  intros Hok Hn. rewrite forallb_app in Hok, Hn.
  apply andb_true_iff in Hok as [HA HB]. apply andb_true_iff in Hn as [HnA HnB].
  eexists. eexists. split; [apply append_options_items; assumption|].
  split; [apply append_options_items; assumption|].
  rewrite append_options_items
    by (rewrite forallb_app; apply andb_true_iff; auto).
  cbn [vfs_optstr fs_optstr user_optstr with_optstrs].
  rewrite !filter_app.
  rewrite <- !field_with_app by (apply forallb_filter; assumption).
  reflexivity.
Qed.

End FsOptionFacts.

Lemma append_options_in_two_calls_witness :
  exists fs1 fs2,
    mnt_fs_append_options sample_optmap sample_optmap_get_entry
      SAMPLE_LINUX_MAP SAMPLE_USERSPACE_MAP
      (entry_with_options (Some (cstr "rw")) None None)
      (Some (cstr "noexec,user")) = Some (0%Z, fs1)
    /\ mnt_fs_append_options sample_optmap sample_optmap_get_entry
         SAMPLE_LINUX_MAP SAMPLE_USERSPACE_MAP fs1
         (Some (cstr "data=ordered,nosuid")) = Some (0%Z, fs2)
    /\ mnt_fs_append_options sample_optmap sample_optmap_get_entry
         SAMPLE_LINUX_MAP SAMPLE_USERSPACE_MAP
         (entry_with_options (Some (cstr "rw")) None None)
         (Some (cstr "noexec,user,data=ordered,nosuid")) = Some (0%Z, fs2).
Proof.
  apply (append_options_in_two_calls sample_optmap sample_optmap_get_entry
           SAMPLE_LINUX_MAP SAMPLE_USERSPACE_MAP
           (entry_with_options (Some (cstr "rw")) None None)
           [flag_item (cstr "noexec"); flag_item (cstr "user")]
           [value_item (cstr "data") (cstr "ordered");
            flag_item (cstr "nosuid")]).
  - reflexivity.
  - reflexivity.
Defined.

(** ** The flag word of an entry *)

Section FsTypeBits.

Variable is_pseudofs : cstring -> bool.
Variable is_netfs : cstring -> bool.

(** X13.  The flag word after [mnt_fs_set_fstype], bit by bit: bit 1
    (pseudo) is set exactly when the new type is a pseudo filesystem,
    bit 2 (network) exactly when it is a network filesystem and no pseudo
    one, so the two are never set together; bit 3 (swap) is set when it
    was set before or the new type is [swap] (and neither pseudo nor
    network); every other bit keeps its value. *)
Theorem set_fstype_flag_bits (fs : mnt_fs) (t : option cstring) (n : Z) :
  Z.testbit (flags (snd (mnt_fs_set_fstype is_pseudofs is_netfs fs t))) n
  = if (n =? 1)%Z then
      match t with Some s => is_pseudofs s | None => false end
    else if (n =? 2)%Z then
      match t with
      | Some s => negb (is_pseudofs s) && is_netfs s
      | None => false
      end
    else if (n =? 3)%Z then
      Z.testbit (flags fs) 3
      || match t with
         | Some s => negb (is_pseudofs s) && negb (is_netfs s)
                     && streq s (cstr "swap")
         | None => false
         end
    else Z.testbit (flags fs) n.
Proof.
  destruct (Z.ltb_spec n 0) as [Hneg|Hpos].
  - rewrite (Z.testbit_neg_r _ n Hneg).
    destruct (Z.eqb_spec n 1); [lia|]. destruct (Z.eqb_spec n 2); [lia|].
    destruct (Z.eqb_spec n 3); [lia|].
    symmetry. apply Z.testbit_neg_r. exact Hneg.
  - unfold mnt_fs_set_fstype, __mnt_fs_set_fstype_ptr.
    cbn [snd flags with_fstype].
    unfold MNT_FS_PSEUDO, MNT_FS_NET, MNT_FS_SWAP.
    rewrite (Z.shiftl_1_l 1), (Z.shiftl_1_l 2), (Z.shiftl_1_l 3).
    assert (Hbits : Z.testbit
                      (Z.land (Z.land (flags fs) (Z.lnot (2 ^ 1)))
                         (Z.lnot (2 ^ 2))) n
                    = Z.testbit (flags fs) n && negb (1 =? n)%Z
                      && negb (2 =? n)%Z).
    { rewrite !Z.land_spec, !Z.lnot_spec by exact Hpos.
      rewrite !Z.pow2_bits_eqb by lia. reflexivity. }
    assert (Hlor : forall k, (0 <= k)%Z ->
              Z.testbit
                (Z.lor (Z.land (Z.land (flags fs) (Z.lnot (2 ^ 1)))
                          (Z.lnot (2 ^ 2))) (2 ^ k)) n
              = Z.testbit (flags fs) n && negb (1 =? n)%Z
                && negb (2 =? n)%Z || (k =? n)%Z).
    { intros k Hk. rewrite Z.lor_spec, Hbits, Z.pow2_bits_eqb by exact Hk.
      reflexivity. }
    assert (Hn : (n = 1 \/ n = 2 \/ n = 3
                  \/ (n <> 1 /\ n <> 2 /\ n <> 3))%Z) by lia.
    destruct t as [s|];
      [destruct (is_pseudofs s);
       [|destruct (is_netfs s); [|destruct (streq s (cstr "swap"))]]|];
      rewrite ?Hlor, ?Hbits by lia;
      destruct Hn as [->|[->|[->|(H1 & H2 & H3)]]];
      try (cbn; rewrite ?andb_false_r, ?andb_true_r, ?orb_true_r,
             ?orb_false_r; reflexivity);
      (destruct (Z.eqb_spec n 1); [lia|]);
      (destruct (Z.eqb_spec n 2); [lia|]);
      (destruct (Z.eqb_spec n 3); [lia|]);
      (destruct (Z.eqb_spec 1 n); [lia|]);
      (destruct (Z.eqb_spec 2 n); [lia|]);
      try (destruct (Z.eqb_spec 3 n); [lia|]);
      cbn; rewrite ?andb_true_r, ?orb_false_r; reflexivity.
Qed.

End FsTypeBits.

(** ** Lookups in a table *)

Lemma first_match_in test l fs :
  first_match test l = Some fs -> In fs l /\ test fs = true.
Proof. apply find_some. Qed.

Lemma first_match_exists test l x :
  In x l -> test x = true ->
  exists fs, first_match test l = Some fs /\ test fs = true /\ In fs l.
Proof.
  unfold first_match. induction l as [|y l IH]; simpl; [tauto|].
  intros Hin Hx. destruct (test y) eqn:Hy.
  - exists y. auto.
  - destruct Hin as [->|Hin]; [congruence|].
    destruct (IH Hin Hx) as (fs & H1 & H2 & H3). exists fs. auto.
Qed.

Lemma iter_entries_in tb d fs :
  In fs (iter_entries tb d) <-> In fs (ents tb).
Proof.
  destruct d; simpl; [tauto|]. symmetry. apply in_rev.
Qed.

Lemma find_target_in tb path d fs :
  mnt_tab_find_target tb path d = Some fs -> In fs (ents tb).
Proof.
  unfold mnt_tab_find_target. intros H. apply (iter_entries_in tb d).
  destruct (first_match _ _) as [x|] eqn:H1.
  - inversion H; subst. apply (first_match_in _ _ _ H1).
  - destruct (cache tb) as [c|]; [|discriminate].
    destruct (mnt_resolve_path c path) as [cn|]; [|discriminate].
    destruct (first_match (fun fs0 => mnt_fs_streq_target fs0 (Some cn)) _)
      as [x|] eqn:H2.
    + inversion H; subst. apply (first_match_in _ _ _ H2).
    + apply (first_match_in _ _ _ H).
Qed.

Lemma find_srcpath_in tb path d fs :
  mnt_tab_find_srcpath tb path d = Some fs -> In fs (ents tb).
Proof.
  unfold mnt_tab_find_srcpath. intros H. apply (iter_entries_in tb d).
  destruct (srcpath_native path _) as [x|] eqn:H1.
  - inversion H; subst. apply (first_match_in _ _ _ H1).
  - destruct (cache tb) as [c|]; [|discriminate].
    destruct (mnt_resolve_path c path) as [cn|]; [|discriminate].
    destruct (if (_ <? _)%Z then _ else None) as [x|] eqn:H2.
    + inversion H; subst.
      destruct (_ <? _)%Z; [|discriminate].
      apply (first_match_in _ _ _ H2).
    + destruct (if negb _ then _ else None) as [x|] eqn:H3.
      * inversion H; subst. destruct (negb _); [|discriminate].
        unfold srcpath_evaluated_tag in H3.
        destruct (mnt_cache_read_tags c cn) as [rc errno].
        destruct (rc =? 0)%Z; [apply (first_match_in _ _ _ H3)|].
        destruct ((rc <? 0)%Z && (errno =? EACCES)%Z); [|discriminate].
        apply (first_match_in _ _ _ H3).
      * destruct (_ <=? _)%Z; [|discriminate].
        apply (first_match_in _ _ _ H).
Qed.

Lemma find_tag_in tb tag val d fs :
  mnt_tab_find_tag tb tag val d = Some fs -> In fs (ents tb).
Proof.
  unfold mnt_tab_find_tag. intros H.
  destruct (first_match _ _) as [x|] eqn:H1.
  - inversion H; subst. apply (iter_entries_in tb d).
    apply (first_match_in _ _ _ H1).
  - destruct (cache tb) as [c|]; [|discriminate].
    destruct (mnt_resolve_tag c tag (Some val)) as [cn|]; [|discriminate].
    apply (find_srcpath_in _ _ _ _ H).
Qed.

(** X14.  The lookups of a table never make up an entry: whatever the
    cache answers and in either direction, what [mnt_tab_find_target],
    [mnt_tab_find_srcpath], [mnt_tab_find_tag] and [mnt_tab_find_source]
    return is NULL or one of the entries of the table. *)
Theorem lookups_return_table_entries
        (parse_tag : cstring -> option (cstring * cstring)) (tb : mnt_tab)
        (d : mnt_direction) (path tag val : cstring) :
  entry_of tb (mnt_tab_find_target tb path d)
  /\ entry_of tb (mnt_tab_find_srcpath tb path d)
  /\ entry_of tb (mnt_tab_find_tag tb tag val d)
  /\ entry_of tb (mnt_tab_find_source parse_tag tb path d).
Proof.
  unfold entry_of. repeat split.
  - destruct (mnt_tab_find_target tb path d) eqn:E; [|exact I].
    apply (find_target_in _ _ _ _ E).
  - destruct (mnt_tab_find_srcpath tb path d) eqn:E; [|exact I].
    apply (find_srcpath_in _ _ _ _ E).
  - destruct (mnt_tab_find_tag tb tag val d) eqn:E; [|exact I].
    apply (find_tag_in _ _ _ _ _ E).
  - destruct (mnt_tab_find_source parse_tag tb path d) eqn:E; [|exact I].
    unfold mnt_tab_find_source in E.
    destruct (has_char EQUALS path).
    + destruct (parse_tag path) as [[t v]|]; [|discriminate].
      apply (find_tag_in _ _ _ _ _ E).
    + apply (find_srcpath_in _ _ _ _ E).
Qed.

Lemma tag_equal_tag t v fs :
  tag_equal t v fs = true -> tagname fs = Some t /\ tagval fs = Some v.
Proof.
  unfold tag_equal. destruct (tagname fs) as [t'|]; [|discriminate].
  destruct (tagval fs) as [v'|]; [|discriminate].
  intros H. apply andb_true_iff in H as [H1 H2].
  apply cstring_eqb_eq in H1, H2. subst. auto.
Qed.

Lemma has_char_none : has_char EQUALS (cstr "none") = false.
Proof. reflexivity. Qed.

(** X15.  Set the source, then find it.  When the tag parser accepts the
    string [s] (a string with [=]) and the table holds an entry that
    carries the tag which the source setter stores for [s],
    [mnt_tab_find_source] with the same string finds an entry with that
    tag, in either direction and with or without a cache. *)
Theorem find_source_finds_tagged_entry
        (parse_tag : cstring -> option (cstring * cstring)) (tb : mnt_tab)
        (s t v : cstring) (before : list mnt_fs) (e : mnt_fs)
        (after : list mnt_fs) (d : mnt_direction) :
  has_char EQUALS s = true ->
  parse_tag s = Some (t, v) ->
  ents tb = before ++ e :: after ->
  mnt_fs_get_tag e
  = mnt_fs_get_tag (snd (mnt_fs_set_source parse_tag mnt_new_fs s)) ->
  exists fs,
    mnt_tab_find_source parse_tag tb s d = Some fs
    /\ In fs (ents tb)
    /\ mnt_fs_get_tag fs = Some (t, Some v).
Proof.
  intros Heq Hp Hents Htag.
  assert (Hnone : streq s (cstr "none") = false).
  { destruct (streq s (cstr "none")) eqn:E; [|reflexivity].
    apply cstring_eqb_eq in E. subst s. discriminate. }
  assert (Hset : mnt_fs_get_tag
                   (snd (mnt_fs_set_source parse_tag mnt_new_fs s))
                 = Some (t, Some v)).
  { unfold mnt_fs_set_source, __mnt_fs_set_source_ptr.
    rewrite Hnone, Heq, Hp. reflexivity. }
  rewrite Hset in Htag.
  assert (He : tag_equal t v e = true).
  { unfold mnt_fs_get_tag in Htag. unfold tag_equal.
    destruct (tagname e) as [t'|]; [|discriminate].
    inversion Htag as [[H0 H1]]. rewrite H1. unfold streq.
    rewrite !cstring_eqb_refl. reflexivity. }
  assert (Hin : In e (iter_entries tb d)).
  { apply iter_entries_in. rewrite Hents. apply in_elt. }
  destruct (first_match_exists _ _ _ Hin He) as (fs & Hf & Ht & Hl).
  exists fs. unfold mnt_tab_find_source, mnt_tab_find_tag.
  rewrite Heq, Hp, Hf. split; [reflexivity|].
  split; [apply (iter_entries_in tb d); exact Hl|].
  apply tag_equal_tag in Ht as [H1 H2]. unfold mnt_fs_get_tag.
  rewrite H1, H2. reflexivity.
Qed.

Lemma find_source_finds_tagged_entry_witness :
  exists fs,
    mnt_tab_find_source blkid_parse_tag_string sample_table
      (cstr "LABEL=data") MNT_ITER_BACKWARD = Some fs
    /\ In fs (ents sample_table)
    /\ mnt_fs_get_tag fs = Some (cstr "LABEL", Some (cstr "data")).
Proof.
  apply (find_source_finds_tagged_entry blkid_parse_tag_string sample_table
           (cstr "LABEL=data") (cstr "LABEL") (cstr "data")
           [mapper_entry] label_entry [] MNT_ITER_BACKWARD).
  - reflexivity.
  - reflexivity.
  - reflexivity.
  - reflexivity.
Defined.

(** ** The root and the children of a mountinfo table *)

Lemma root_fs_loop_min l : forall r,
  parent r <> 0%Z ->
  exists m,
    root_fs_loop l (Some r) (parent r) = (Some m, parent m)
    /\ In m (r :: with_parent l)
    /\ parent m <> 0%Z
    /\ (forall x, In x (r :: with_parent l) -> (parent m <= parent x)%Z).
Proof.
  induction l as [|fs l IH]; intros r Hr.
  - exists r. simpl. repeat split; auto. intros x [->|[]]. lia.
  - cbn [root_fs_loop with_parent]. unfold mnt_fs_get_parent_id.
    destruct (Z.eqb_spec (parent fs) 0) as [Hz|Hz].
    + exists r. simpl. repeat split; auto. intros x [->|[]]. lia.
    + cbn [is_none orb].
      destruct (Z.ltb_spec (parent fs) (parent r)) as [Hlt|Hge].
      * destruct (IH fs Hz) as (m & Hm & Hin & Hnz & Hmin).
        exists m. rewrite Hm. repeat split; auto.
        -- right. exact Hin.
        -- intros x [->|Hx]; [|apply Hmin; exact Hx].
           specialize (Hmin fs (or_introl eq_refl)). lia.
      * destruct (IH r Hr) as (m & Hm & Hin & Hnz & Hmin).
        exists m. rewrite Hm. repeat split; auto.
        -- destruct Hin as [<-|Hin]; [left; reflexivity|right; right; exact Hin].
        -- intros x [->|[->|Hx]].
           ++ apply Hmin. left. reflexivity.
           ++ specialize (Hmin r (or_introl eq_refl)). lia.
           ++ apply Hmin. right. exact Hx.
Qed.

(** X16.  [mnt_tab_get_root_fs], called with [*root] set to NULL, looks
    at the entries in front of the first one whose parent id is zero.
    When there is none it fails with -EINVAL and leaves [*root] NULL;
    otherwise it returns 0 and an entry of that range whose parent id is
    the least one there. *)
Theorem root_fs_has_least_parent (tb : mnt_tab) :
  match with_parent (ents tb) with
  | [] => mnt_tab_get_root_fs tb None = ((- EINVAL)%Z, None)
  | _ :: _ =>
      exists fs,
        mnt_tab_get_root_fs tb None = (0%Z, Some fs)
        /\ In fs (with_parent (ents tb))
        /\ (forall x, In x (with_parent (ents tb)) ->
            (parent fs <= parent x)%Z)
  end.
Proof.
  unfold mnt_tab_get_root_fs. cbn [iter_entries].
  destruct (ents tb) as [|fs l]; [reflexivity|].
  cbn [with_parent root_fs_loop]. unfold mnt_fs_get_parent_id.
  destruct (Z.eqb_spec (parent fs) 0) as [Hz|Hz]; [reflexivity|].
  cbn [is_none orb].
  destruct (root_fs_loop_min l fs Hz) as (m & Hm & Hin & Hnz & Hmin).
  exists m. rewrite Hm.
  destruct (Z.eqb_spec (parent m) 0) as [E|_]; [contradiction|].
  auto.
Qed.

Section Children.

Variable parent_id : Z.
Variable last : Z.

Lemma next_child_loop_min l : forall c,
  (forall x, In x l -> (0 < id x)%Z) ->
  exists m,
    next_child_loop l parent_id last (Some c) (id c) = (Some m, id m)
    /\ In m (c :: children_after parent_id last l)
    /\ (forall x, In x (c :: children_after parent_id last l) ->
        (id m <= id x)%Z).
Proof.
  induction l as [|fs l IH]; intros c Hpos.
  - exists c. simpl. repeat split; auto. intros x [->|[]]. lia.
  - assert (Hpos' : forall x, In x l -> (0 < id x)%Z)
      by (intros x Hx; apply Hpos; right; exact Hx).
    pose proof (Hpos fs (or_introl eq_refl)) as Hfs.
    cbn [next_child_loop]. unfold children_after. cbn [filter].
    fold (children_after parent_id last l).
    unfold mnt_fs_get_parent_id, mnt_fs_get_id.
    destruct (Z.eqb_spec (parent fs) parent_id) as [Hp|Hp];
      cbn [negb andb]; [|apply IH; exact Hpos'].
    cbn [is_none orb].
    replace ((last =? 0)%Z || (last <? id fs)%Z) with (last <? id fs)%Z
      by (destruct (Z.eqb_spec last 0); destruct (Z.ltb_spec last (id fs));
          simpl; try reflexivity; lia).
    destruct (Z.ltb_spec last (id fs)) as [Hl|Hl]; cbn [andb];
      [|apply IH; exact Hpos'].
    destruct (Z.ltb_spec (id fs) (id c)) as [Hlt|Hge].
    + destruct (IH fs Hpos') as (m & Hm & Hin & Hmin).
      exists m. rewrite Hm. repeat split; auto.
      * right. exact Hin.
      * intros x [->|Hx]; [|apply Hmin; exact Hx].
        specialize (Hmin fs (or_introl eq_refl)). lia.
    + destruct (IH c Hpos') as (m & Hm & Hin & Hmin).
      exists m. rewrite Hm. repeat split; auto.
      * destruct Hin as [<-|Hin]; [left; reflexivity|right; right; exact Hin].
      * intros x [->|[->|Hx]].
        -- apply Hmin. left. reflexivity.
        -- specialize (Hmin c (or_introl eq_refl)). lia.
        -- apply Hmin. right. exact Hx.
Qed.

Lemma next_child_loop_first l :
  (forall x, In x l -> (0 < id x)%Z) ->
  match children_after parent_id last l with
  | [] => next_child_loop l parent_id last None 0%Z = (None, 0%Z)
  | _ :: _ =>
      exists m,
        next_child_loop l parent_id last None 0%Z = (Some m, id m)
        /\ In m (children_after parent_id last l)
        /\ (forall x, In x (children_after parent_id last l) ->
            (id m <= id x)%Z)
  end.
Proof.
  induction l as [|fs l IH]; intros Hpos; [reflexivity|].
  assert (Hpos' : forall x, In x l -> (0 < id x)%Z)
    by (intros x Hx; apply Hpos; right; exact Hx).
  pose proof (Hpos fs (or_introl eq_refl)) as Hfs.
  cbn [next_child_loop]. unfold children_after. cbn [filter].
  fold (children_after parent_id last l).
  unfold mnt_fs_get_parent_id, mnt_fs_get_id.
  destruct (Z.eqb_spec (parent fs) parent_id) as [Hp|Hp];
    cbn [negb andb]; [|apply IH; exact Hpos'].
  cbn [is_none orb]. rewrite andb_true_r.
  replace ((last =? 0)%Z || (last <? id fs)%Z) with (last <? id fs)%Z
    by (destruct (Z.eqb_spec last 0); destruct (Z.ltb_spec last (id fs));
        simpl; try reflexivity; lia).
  destruct (Z.ltb_spec last (id fs)) as [Hl|Hl]; [|apply IH; exact Hpos'].
  apply next_child_loop_min. exact Hpos'.
Qed.

End Children.

(** X17.  In a table whose entries all have a positive id,
    [mnt_tab_next_child_fs] for a parent with a non-zero id returns the
    child with the least id above the id of the entry on which the
    iterator stands (above zero for a fresh iterator) and moves the
    iterator to that child, so that repeated calls list the children by
    ascending id; when no such child is left it returns 1, with a NULL
    child and the iterator at the end. *)
Theorem next_child_has_least_id_above (tb : mnt_tab) (itr : option mnt_fs)
        (par : mnt_fs) :
  id par <> 0%Z ->
  forallb (fun x => (0 <? id x)%Z) (ents tb) = true ->
  let last := match itr with Some e => id e | None => 0%Z end in
  match children_after (id par) last (ents tb) with
  | [] => mnt_tab_next_child_fs tb itr par = (1%Z, None, None)
  | _ :: _ =>
      exists c,
        mnt_tab_next_child_fs tb itr par = (0%Z, Some c, Some c)
        /\ In c (children_after (id par) last (ents tb))
        /\ (forall x, In x (children_after (id par) last (ents tb)) ->
            (id c <= id x)%Z)
  end.
Proof.
  intros Hpar Hall last.
  assert (Hpos : forall x, In x (ents tb) -> (0 < id x)%Z).
  { intros x Hx. rewrite forallb_forall in Hall.
    apply Z.ltb_lt. apply Hall. exact Hx. }
  unfold mnt_tab_next_child_fs. cbn [iter_entries]. unfold mnt_fs_get_id.
  destruct (Z.eqb_spec (id par) 0) as [E|_]; [contradiction|].
  fold last.
  pose proof (next_child_loop_first (id par) last (ents tb) Hpos) as H.
  destruct (children_after (id par) last (ents tb)) as [|y ys] eqn:Hc.
  - rewrite H. reflexivity.
  - destruct H as (m & Hm & Hin & Hmin). exists m. rewrite Hm.
    assert (Hmpos : (0 < id m)%Z).
    { apply Hpos. unfold children_after in Hc.
      assert (Hin' : In m (filter
                (fun fs => (parent fs =? id par)%Z && (last <? id fs)%Z)
                (ents tb))) by (rewrite Hc; exact Hin).
      apply filter_In in Hin'. tauto. }
    destruct (Z.eqb_spec (id m) 0) as [E|_]; [lia|]. auto.
Qed.

Lemma next_child_has_least_id_above_witness :
  exists c,
    mnt_tab_next_child_fs sample_mountinfo
      (Some (mountinfo_entry 16 15 "/sys")) (mountinfo_entry 15 1 "/")
    = (0%Z, Some c, Some c)
    /\ In c [mountinfo_entry 17 15 "/proc"]
    /\ (forall x, In x [mountinfo_entry 17 15 "/proc"] ->
        (id c <= id x)%Z).
Proof.
  apply (next_child_has_least_id_above sample_mountinfo
           (Some (mountinfo_entry 16 15 "/sys")) (mountinfo_entry 15 1 "/")).
  - discriminate.
  - reflexivity.
Defined.

(** ** Reading a table from a stream *)

Lemma next_line_loop_shape pend : forall eof n,
  match next_line_loop pend eof n with
  | NoLine f' _ => pending f' = [] /\ at_eof f' = true
  | BrokenLine f' _ => length (pending f') < length pend
  | Line _ f' _ => length (pending f') < length pend
  end.
Proof.
  induction pend as [|buf rest IH]; intros eof n; [simpl; auto|].
  cbn [next_line_loop].
  set (eof' := eof || hits_eof buf rest).
  destruct (negb (has_char NEWLINE buf) && negb eof'); [simpl; lia|].
  destruct (skip_spaces (strip_cr (before_newline buf))) as [|c s].
  - specialize (IH eof' (n + 1)%Z).
    destruct (next_line_loop rest eof' (n + 1)); simpl in *; auto; lia.
  - destruct (Ascii.eqb c HASH); [|simpl; lia].
    specialize (IH eof' (n + 1)%Z).
    destruct (next_line_loop rest eof' (n + 1)); simpl in *; auto; lia.
Qed.

Section ParseStreamFacts.

Variable parse_tab_line : mnt_fs -> cstring -> Z * mnt_fs.
Variable parse_mountinfo_line : mnt_fs -> cstring -> Z * mnt_fs.
Variable guess_format : cstring -> mnt_format.

Local Abbreviation parse_next :=
  (mnt_tab_parse_next parse_tab_line parse_mountinfo_line guess_format).
Local Abbreviation stream_loop :=
  (parse_stream_loop parse_tab_line parse_mountinfo_line guess_format).
Local Abbreviation parse_stream :=
  (mnt_tab_parse_stream parse_tab_line parse_mountinfo_line guess_format).

(** What one call of [mnt_tab_parse_next] does to the table and to the
    stream. *)
Lemma parse_next_shape tb f fs filename n :
  match parse_next tb f fs filename n with
  | (rc, tb', f', _, _) =>
      ents tb' = ents tb /\ nents tb' = nents tb /\ errcb tb' = errcb tb
      /\ ((rc = (- EINVAL)%Z /\ at_eof f' = true)
          \/ (length (pending f') < length (pending f)
              /\ (errcb tb = None -> rc = 0%Z \/ rc = 1%Z)))
  end.
Proof.
  unfold mnt_tab_parse_next.
  pose proof (next_line_loop_shape (pending f) (at_eof f) n) as Hs.
  destruct (next_line_loop (pending f) (at_eof f) n) as [f' k|f' k|s f' k].
  - do 3 (split; [reflexivity|]). left. tauto.
  - do 3 (split; [reflexivity|]). right. split; [exact Hs|].
    unfold parse_error_code. intros ->. auto.
  - set (tb1 := match fmt tb with
                | MNT_FMT_GUESS => with_fmt tb (guess_format s)
                | _ => tb
                end).
    assert (H1 : ents tb1 = ents tb /\ nents tb1 = nents tb
                 /\ errcb tb1 = errcb tb)
      by (unfold tb1; destruct (fmt tb); auto).
    destruct H1 as (He & Hn & Hc).
    destruct (match fmt tb1 with
              | MNT_FMT_GUESS => (0%Z, fs)
              | MNT_FMT_FSTAB => parse_tab_line fs s
              | MNT_FMT_MOUNTINFO => parse_mountinfo_line fs s
              end) as [rc fs'].
    destruct (rc =? 0)%Z.
    + do 3 (split; [assumption|]). right. split; [exact Hs|]. auto.
    + do 3 (split; [assumption|]). right. split; [exact Hs|].
      unfold parse_error_code. rewrite Hc. intros ->. auto.
Qed.

Lemma stream_loop_total filename : forall fuel tb f n,
  length (pending f) < fuel ->
  exists rc tb' f' added,
    stream_loop fuel tb f filename n = Some (rc, tb', f')
    /\ ents tb' = ents tb ++ added
    /\ nents tb' = (nents tb + Z.of_nat (length added))%Z
    /\ (rc = 0%Z -> at_eof f' = true)
    /\ (errcb tb = None -> rc = 0%Z).
Proof.
  induction fuel as [|fuel IH]; intros tb f n Hfuel; [lia|].
  cbn [parse_stream_loop]. unfold feof.
  destruct (at_eof f) eqn:Heof.
  - exists 0%Z, tb, f, []. rewrite app_nil_r. simpl.
    repeat split; auto. lia.
  - pose proof (parse_next_shape tb f mnt_new_fs filename n) as Hs.
    destruct (parse_next tb f mnt_new_fs filename n)
      as [[[[rc tb1] f1] fs1] n1].
    destruct Hs as (He & Hn & Hc & Hcase).
    destruct (Z.eqb_spec rc 0) as [->|Hrc0].
    + cbn [mnt_tab_add_fs negb Z.eqb].
      destruct Hcase as [[Hbad _]|[Hlen _]]; [discriminate|].
      set (tb2 := {| fmt := fmt tb1; nents := (nents tb1 + 1)%Z;
                     cache := cache tb1; errcb := errcb tb1;
                     ents := ents tb1 ++ [fs1] |}).
      destruct (IH tb2 f1 n1 ltac:(lia))
        as (rc' & tb' & f' & added & Hrun & Hents & Hnents & Hz & Hdef).
      exists rc', tb', f', (fs1 :: added). rewrite Hrun.
      repeat split; auto.
      * rewrite Hents. unfold tb2; cbn [ents]. rewrite He, <- app_assoc.
        reflexivity.
      * rewrite Hnents. unfold tb2; cbn [nents length]. lia.
      * intros Hnone. apply Hdef. unfold tb2; cbn [errcb]. congruence.
    + cbn [negb]. replace (rc =? 0)%Z with false
        by (symmetry; apply Z.eqb_neq; exact Hrc0).
      cbn [negb]. destruct (Z.eqb_spec rc 1) as [->|Hrc1].
      * destruct Hcase as [[Hbad _]|[Hlen _]]; [discriminate|].
        destruct (IH tb1 f1 n1 ltac:(lia))
          as (rc' & tb' & f' & added & Hrun & Hents & Hnents & Hz & Hdef).
        exists rc', tb', f', added. rewrite Hrun.
        repeat split; auto; try congruence.
        intros Hnone. apply Hdef. congruence.
      * destruct (at_eof f1) eqn:Heof1.
        -- exists 0%Z, tb1, f1, []. rewrite app_nil_r. simpl.
           repeat split; auto. lia.
        -- exists rc, tb1, f1, []. rewrite app_nil_r. simpl.
           repeat split; auto; try lia; try contradiction.
           intros Hnone.
           destruct Hcase as [[_ Hbad]|[_ Hdef]]; [congruence|].
           destruct (Hdef Hnone); contradiction.
Qed.

(** X18.  [mnt_tab_parse_stream] returns for every table, stream, line
    parser and error callback.  It only adds entries: the entries of the
    table it leaves are those it found followed by the new ones, and the
    entry counter grows by the number of new entries.  When it returns 0
    the end-of-file indicator of the stream is set. *)
Theorem parse_stream_terminates_and_appends (tb : mnt_tab) (f : FILE)
        (filename : cstring) :
  exists rc tb' f' added,
    parse_stream tb f filename = Some (rc, tb', f')
    /\ ents tb' = ents tb ++ added
    /\ nents tb' = (nents tb + Z.of_nat (length added))%Z
    /\ (rc = 0%Z -> feof f' = true).
Proof.
  unfold mnt_tab_parse_stream.
  destruct (stream_loop_total filename (S (S (length (pending f)))) tb f 0%Z
              ltac:(lia))
    as (rc & tb' & f' & added & Hrun & He & Hn & Hz & _).
  exists rc, tb', f', added. auto.
Qed.

(** X19.  Without an error callback every parse error is recoverable:
    whatever the stream holds and whatever the line parsers answer,
    [mnt_tab_parse_stream] on a table with a NULL callback reads the
    stream to its end and returns 0. *)
Theorem parse_stream_without_callback_succeeds (tb : mnt_tab) (f : FILE)
        (filename : cstring) :
  errcb tb = None ->
  exists tb' f',
    parse_stream tb f filename = Some (0%Z, tb', f') /\ feof f' = true.
Proof.
  intros Hnone. unfold mnt_tab_parse_stream.
  destruct (stream_loop_total filename (S (S (length (pending f)))) tb f 0%Z
              ltac:(lia))
    as (rc & tb' & f' & added & Hrun & He & Hn & Hz & Hdef).
  rewrite (Hdef Hnone) in *. exists tb', f'. auto.
Qed.

Lemma parse_next_one_line tb buf line filename :
  fmt tb = MNT_FMT_FSTAB ->
  has_char NEWLINE buf = true \/ hits_eof buf [] = true ->
  skip_spaces (strip_cr (before_newline buf)) = line ->
  (exists c r, line = c :: r /\ Ascii.eqb c HASH = false) ->
  fst (parse_tab_line mnt_new_fs line) <> 0%Z ->
  parse_next tb {| pending := [buf]; at_eof := false |} mnt_new_fs
    filename 0%Z
  = (parse_error_code tb filename 1, tb,
     {| pending := []; at_eof := hits_eof buf [] |},
     snd (parse_tab_line mnt_new_fs line), 1%Z).
Proof.
  intros Hfmt Hok Hline (c & r & Hc & Hh) Hrc.
  unfold mnt_tab_parse_next. cbn [pending at_eof next_line_loop orb].
  replace (negb (has_char NEWLINE buf) && negb (hits_eof buf [])) with false
    by (destruct Hok as [H|H]; rewrite H;
        [reflexivity|rewrite andb_false_r; reflexivity]).
  rewrite Hline, Hc. rewrite Hc in Hrc. rewrite Hh, Hfmt.
  destruct (parse_tab_line mnt_new_fs (c :: r)) as [rc fs'] eqn:E.
  simpl in Hrc. apply Z.eqb_neq in Hrc.
  cbv beta iota zeta. rewrite ?Hfmt. cbv beta iota. rewrite Hrc.
  reflexivity.
Qed.

(** A chunk without newline that fills the buffer is not parsed: the
    error path is taken with the entry untouched and the end-of-file
    indicator clear. *)
Lemma parse_next_full_buffer tb buf filename :
  has_char NEWLINE buf = false ->
  (BUFSIZ - 1 <= Z.of_nat (length buf))%Z ->
  parse_next tb {| pending := [buf]; at_eof := false |} mnt_new_fs
    filename 0%Z
  = (parse_error_code tb filename 1, tb,
     {| pending := []; at_eof := false |}, mnt_new_fs, 1%Z).
Proof.
  intros Hnl Hlen.
  unfold mnt_tab_parse_next. cbn [pending at_eof next_line_loop orb hits_eof].
  rewrite Hnl.
  replace (Z.of_nat (length buf) <? BUFSIZ - 1)%Z with false
    by (symmetry; apply Z.ltb_ge; exact Hlen).
  reflexivity.
Qed.

(** X20.  A callback that answers 0 keeps the rejected line: when the
    only line of a classic table is rejected by the line parser and the
    callback returns 0 for it, [mnt_tab_parse_stream] returns 0 and the
    entry, as far as the line parser had filled it, is added to the
    table. *)
Theorem callback_zero_keeps_entry (tb : mnt_tab) (buf line filename : cstring)
        (cb : cstring -> Z -> Z) :
  fmt tb = MNT_FMT_FSTAB ->
  errcb tb = Some cb ->
  rejected_line parse_tab_line buf line ->
  cb filename 1%Z = 0%Z ->
  parse_stream tb {| pending := [buf]; at_eof := false |} filename
  = Some (0%Z,
          snd (mnt_tab_add_fs tb (snd (parse_tab_line mnt_new_fs line))),
          {| pending := []; at_eof := true |}).
Proof.
  intros Hfmt Hcb (Hnl & Hline & Hhead & Hrc) Hzero.
  unfold mnt_tab_parse_stream. cbn [pending length].
  rewrite (parse_stream_loop_step parse_tab_line parse_mountinfo_line
             guess_format _ _ {| pending := [buf]; at_eof := false |}
             _ _ _ _ _ _ _ eq_refl
             (parse_next_one_line tb buf line filename Hfmt (or_introl Hnl)
                Hline Hhead Hrc)).
  unfold parse_error_code, hits_eof. rewrite Hcb, Hzero, Hnl.
  cbn [Z.eqb negb andb]. reflexivity.
Qed.

(** X21.  The failure of a last line without newline is not reported
    unless the line fills the read buffer.  When the only chunk of a
    classic table lacks the final newline, is shorter than [BUFSIZ - 1]
    bytes and its line is rejected by the line parser,
    [mnt_tab_parse_stream] returns 0 with the table unchanged for every
    non-zero code of the callback, the negative codes that ask for an
    abort included: [fgets] has met the end of the file.  When the chunk
    fills the buffer, [fgets] has not, and every code of the callback
    other than 0 and 1 is returned. *)
Theorem failure_on_unterminated_last_line_unreported
        (tb : mnt_tab) (buf line filename : cstring) :
  fmt tb = MNT_FMT_FSTAB ->
  rejected_last_line parse_tab_line buf line ->
  parse_error_code tb filename 1%Z <> 0%Z ->
  parse_stream tb {| pending := [buf]; at_eof := false |} filename
  = if (Z.of_nat (length buf) <? BUFSIZ - 1)%Z
       || (parse_error_code tb filename 1 =? 1)%Z
    then Some (0%Z, tb, {| pending := []; at_eof := true |})
    else Some (parse_error_code tb filename 1, tb,
               {| pending := []; at_eof := false |}).
Proof.
  intros Hfmt (Hnl & Hline & Hhead & Hrc) Hcode.
  unfold mnt_tab_parse_stream. cbn [pending length].
  apply Z.eqb_neq in Hcode.
  destruct (Z.ltb_spec (Z.of_nat (length buf)) (BUFSIZ - 1)) as [Hlen|Hlen].
  - assert (Heof : hits_eof buf [] = true).
    { unfold hits_eof. rewrite Hnl. apply Z.ltb_lt in Hlen. rewrite Hlen.
      reflexivity. }
    rewrite (parse_stream_loop_step parse_tab_line parse_mountinfo_line
               guess_format _ _ {| pending := [buf]; at_eof := false |}
               _ _ _ _ _ _ _ eq_refl
               (parse_next_one_line tb buf line filename Hfmt
                  (or_intror Heof) Hline Hhead Hrc)).
    rewrite Heof, Hcode. cbn [orb].
    destruct (parse_error_code tb filename 1 =? 1)%Z; reflexivity.
  - rewrite (parse_stream_loop_step parse_tab_line parse_mountinfo_line
               guess_format _ _ {| pending := [buf]; at_eof := false |}
               _ _ _ _ _ _ _ eq_refl
               (parse_next_full_buffer tb buf filename Hnl Hlen)).
    rewrite Hcode. cbn [orb feof at_eof].
    destruct (parse_error_code tb filename 1 =? 1)%Z; reflexivity.
Qed.

End ParseStreamFacts.

Lemma parse_stream_without_callback_succeeds_witness :
  exists tb' f',
    mnt_tab_parse_stream sample_parse_tab_line sample_parse_mountinfo_line
      guess_tab_format (with_fmt mnt_new_tab MNT_FMT_FSTAB)
      {| pending := two_lines; at_eof := false |} (cstr "fstab")
    = Some (0%Z, tb', f')
    /\ feof f' = true.
Proof.
  apply (parse_stream_without_callback_succeeds sample_parse_tab_line
           sample_parse_mountinfo_line guess_tab_format
           (with_fmt mnt_new_tab MNT_FMT_FSTAB)
           {| pending := two_lines; at_eof := false |} (cstr "fstab")).
  reflexivity.
Defined.

Lemma callback_zero_keeps_entry_witness :
  mnt_tab_parse_stream sample_parse_tab_line sample_parse_mountinfo_line
    guess_tab_format (fstab_with_callback 0)
    {| pending := [cstr "garbage" ++ [NEWLINE]]; at_eof := false |}
    (cstr "fstab")
  = Some (0%Z, snd (mnt_tab_add_fs (fstab_with_callback 0) mnt_new_fs),
          {| pending := []; at_eof := true |}).
Proof.
  apply (callback_zero_keeps_entry sample_parse_tab_line
           sample_parse_mountinfo_line guess_tab_format
           (fstab_with_callback 0) (cstr "garbage" ++ [NEWLINE])
           (cstr "garbage") (cstr "fstab") (fun _ _ => 0%Z)).
  - reflexivity.
  - reflexivity.
  - repeat split.
    + exists "g"%char, (cstr "arbage"). split; reflexivity.
    + discriminate.
  - reflexivity.
Defined.

Lemma failure_on_unterminated_last_line_unreported_witness :
  mnt_tab_parse_stream sample_parse_tab_line sample_parse_mountinfo_line
    guess_tab_format (fstab_with_callback (-5))
    {| pending := [cstr "garbage"]; at_eof := false |} (cstr "fstab")
  = Some (0%Z, fstab_with_callback (-5), {| pending := []; at_eof := true |}).
Proof.
  apply (failure_on_unterminated_last_line_unreported sample_parse_tab_line
           sample_parse_mountinfo_line guess_tab_format
           (fstab_with_callback (-5)) (cstr "garbage") (cstr "garbage")
           (cstr "fstab")).
  - reflexivity.
  - repeat split.
    + exists "g"%char, (cstr "arbage"). split; reflexivity.
    + discriminate.
  - discriminate.
Defined.

(** At the boundary the abort is reported: a last line of [BUFSIZ - 1]
    bytes without newline fills the buffer, [fgets] does not meet the end
    of the file, and the code -5 of the callback is returned. *)
Example full_buffer_line_reports_abort :
  mnt_tab_parse_stream sample_parse_tab_line sample_parse_mountinfo_line
    guess_tab_format (fstab_with_callback (-5))
    {| pending := [repeat "g"%char (Z.to_nat (BUFSIZ - 1))];
       at_eof := false |} (cstr "fstab")
  = Some ((-5)%Z, fstab_with_callback (-5),
          {| pending := []; at_eof := false |}).
Proof. vm_compute. reflexivity. Qed.

(** ** Octal escapes *)

Lemma until_nul_length s : length (until_nul s) <= length s.
Proof.
  induction s as [|c s IH]; cbn [until_nul length]; [lia|].
  destruct (Ascii.eqb c NUL); cbn [length]; lia.
Qed.

Lemma until_nul_id s : has_char NUL s = false -> until_nul s = s.
Proof.
  unfold has_char.
  induction s as [|c s IH]; cbn [existsb until_nul]; [reflexivity|].
  intros H. apply orb_false_iff in H as [H1 H2].
  rewrite Ascii.eqb_sym, H1, IH by exact H2. reflexivity.
Qed.

Lemma unmangle_loop_bound n : forall s sz lim,
  length s <= n ->
  (Z.of_nat (length (unmangle_loop s sz lim)) <= Z.max 0 (lim - sz))%Z.
Proof.
  induction n as [|n IH]; intros s sz lim Hn.
  - destruct s; [cbn [unmangle_loop length]; lia|cbn [length] in Hn; lia].
  - destruct s as [|c r]; [cbn [unmangle_loop length]; lia|].
    cbn [length] in Hn.
    cbn [unmangle_loop].
    destruct (Z.ltb_spec sz lim) as [Hlt|Hge]; [|cbn [length]; lia].
    assert (Hstep : (Z.of_nat (length (c :: unmangle_loop r (sz + 1) lim))
                     <= Z.max 0 (lim - sz))%Z).
    { pose proof (IH r (sz + 1)%Z lim ltac:(lia)). cbn [length]. lia. }
    destruct r as [|a [|b [|d r']]]; try exact Hstep.
    destruct (Ascii.eqb c BACKSLASH && (sz + 4 <? lim)%Z && isoctal a
              && isoctal b && isoctal d) eqn:Hc; [|exact Hstep].
    apply andb_true_iff in Hc as [Hc _]. apply andb_true_iff in Hc as [Hc _].
    apply andb_true_iff in Hc as [Hc _]. apply andb_true_iff in Hc as [_ Hc].
    apply Z.ltb_lt in Hc. cbn [length] in Hn.
    pose proof (IH r' (sz + 4)%Z lim ltac:(lia)). cbn [length]. lia.
Qed.

(** X22.  [unmangle_to_buffer] never writes past its buffer: for a
    buffer of [len >= 1] bytes the string it leaves there, with its
    terminator, takes at most [len] bytes, whatever the input; with
    [len = strlen(s) + 1], as in [unmangle_string], the decoded string
    is never longer than the original. *)
Theorem unmangle_fits_buffer (s : cstring) (len : Z) :
  (1 <= len)%Z ->
  (Z.of_nat (length (unmangle_to_buffer s len)) + 1 <= len)%Z.
Proof.
  intros Hlen. unfold unmangle_to_buffer, size_pred.
  destruct (Z.eqb_spec len 0) as [E|_]; [lia|].
  pose proof (until_nul_length (unmangle_loop s 0 (len - 1))) as H1.
  pose proof (unmangle_loop_bound (length s) s 0%Z (len - 1)%Z (le_n _)) as H2.
  lia.
Qed.

Lemma unmangle_fits_buffer_witness :
  (Z.of_nat (length (unmangle_to_buffer (cstr "/mnt/my disk") 8)) + 1 <= 8)%Z.
Proof.
  apply (unmangle_fits_buffer (cstr "/mnt/my disk") 8). lia.
Defined.

Lemma unmangle_loop_plain c r sz lim :
  Ascii.eqb c BACKSLASH = false -> (sz < lim)%Z ->
  unmangle_loop (c :: r) sz lim = c :: unmangle_loop r (sz + 1) lim.
Proof.
  intros Hc Hlt. cbn [unmangle_loop].
  replace (sz <? lim)%Z with true by (symmetry; apply Z.ltb_lt; exact Hlt).
  rewrite Hc. destruct r as [|a [|b [|d r']]]; reflexivity.
Qed.

(** Bytes in front of the first backslash are copied. *)
Lemma unmangle_loop_prefix pre : forall t sz lim,
  has_char BACKSLASH pre = false ->
  (sz + Z.of_nat (length pre) <= lim)%Z ->
  unmangle_loop (pre ++ t) sz lim
  = pre ++ unmangle_loop t (sz + Z.of_nat (length pre)) lim.
Proof.
  unfold has_char.
  induction pre as [|c pre IH]; intros t sz lim Hb Hlen.
  - cbn [app length Z.of_nat]. rewrite Z.add_0_r. reflexivity.
  - cbn [existsb] in Hb. apply orb_false_iff in Hb as [Hc Hb].
    cbn [app]. rewrite unmangle_loop_plain.
    + rewrite IH.
      * replace (sz + 1 + Z.of_nat (length pre))%Z
          with (sz + Z.of_nat (length (c :: pre)))%Z
          by (cbn [length]; lia).
        reflexivity.
      * exact Hb.
      * cbn [length] in Hlen. lia.
    + rewrite Ascii.eqb_sym. exact Hc.
    + cbn [length] in Hlen. lia.
Qed.

(** X23.  A string without backslash comes out of [unmangle_to_buffer]
    as it went in, once the buffer has room for it and its terminator. *)
Theorem unmangle_plain_is_identity (s : cstring) (len : Z) :
  has_char BACKSLASH s = false ->
  has_char NUL s = false ->
  (Z.of_nat (length s) < len)%Z ->
  unmangle_to_buffer s len = s.
Proof.
  intros Hb Hn Hlen. unfold unmangle_to_buffer, size_pred.
  destruct (Z.eqb_spec len 0) as [E|_]; [lia|].
  pose proof (unmangle_loop_prefix s [] 0%Z (len - 1)%Z Hb ltac:(lia)) as H.
  rewrite app_nil_r in H. rewrite H. cbn [unmangle_loop].
  rewrite app_nil_r. apply until_nul_id. exact Hn.
Qed.

Lemma unmangle_plain_is_identity_witness :
  unmangle_to_buffer (cstr "/dev/sda1") 10 = cstr "/dev/sda1".
Proof.
  apply (unmangle_plain_is_identity (cstr "/dev/sda1") 10).
  - reflexivity.
  - reflexivity.
  - vm_compute. reflexivity.
Defined.

Lemma isoctal_not_nul a : isoctal a = true -> Ascii.eqb NUL a = false.
Proof.
  destruct (Ascii.eqb_spec NUL a) as [<-|]; [discriminate|reflexivity].
Qed.

Lemma has_char_app c (a b : cstring) :
  has_char c (a ++ b) = has_char c a || has_char c b.
Proof. apply existsb_app. Qed.

Lemma unmangle_loop_escape a b d r sz lim :
  isoctal a = true -> isoctal b = true -> isoctal d = true ->
  (sz < lim)%Z ->
  unmangle_loop (BACKSLASH :: a :: b :: d :: r) sz lim
  = if (sz + 4 <? lim)%Z
    then octal_byte a b d :: unmangle_loop r (sz + 4) lim
    else BACKSLASH :: unmangle_loop ([a; b; d] ++ r) (sz + 1) lim.
Proof.
  intros Ha Hb Hd Hlt. cbn [unmangle_loop app].
  replace (sz <? lim)%Z with true by (symmetry; apply Z.ltb_lt; exact Hlt).
  change (Ascii.eqb BACKSLASH BACKSLASH) with true.
  rewrite Ha, Hb, Hd. cbn [andb]. rewrite !andb_true_r. reflexivity.
Qed.

Lemma octal_not_backslash a :
  isoctal a = true -> Ascii.eqb BACKSLASH a = false.
Proof.
  destruct (Ascii.eqb_spec BACKSLASH a) as [<-|]; [discriminate|reflexivity].
Qed.

Lemma until_nul_app pre t :
  has_char NUL pre = false -> until_nul (pre ++ t) = pre ++ until_nul t.
Proof.
  unfold has_char.
  induction pre as [|c pre IH]; cbn [existsb app until_nul]; [reflexivity|].
  intros H. apply orb_false_iff in H as [H1 H2].
  rewrite Ascii.eqb_sym, H1, IH by exact H2. reflexivity.
Qed.

(** X24.  [unmangle_string] on a string with one octal escape (a
    backslash and three octal digits, no other backslash).  When the
    escape ends the string it is copied as it stands, all four bytes.
    When at least one byte follows it, it is replaced by the byte it
    names, the value of the three digits modulo 256; if that byte is NUL
    (the escapes 000 and 400) the string ends in front of it. *)
Theorem unmangle_string_escape (pre rest : cstring) (a b d : ascii) :
  has_char BACKSLASH (pre ++ rest) = false ->
  has_char NUL (pre ++ rest) = false ->
  isoctal a = true -> isoctal b = true -> isoctal d = true ->
  unmangle_string (pre ++ BACKSLASH :: a :: b :: d :: rest)
  = match rest with
    | [] => pre ++ [BACKSLASH; a; b; d]
    | _ :: _ =>
        if Ascii.eqb (octal_byte a b d) NUL then pre
        else pre ++ octal_byte a b d :: rest
    end.
Proof.
  intros Hb Hn Ha Hbb Hd.
  rewrite has_char_app in Hb, Hn.
  apply orb_false_iff in Hb as [Hb1 Hb2].
  apply orb_false_iff in Hn as [Hn1 Hn2].
  unfold unmangle_string, unmangle_to_buffer, size_pred.
  set (s := pre ++ BACKSLASH :: a :: b :: d :: rest).
  assert (Hs : Z.of_nat (length s)
               = (Z.of_nat (length pre) + 4 + Z.of_nat (length rest))%Z)
    by (unfold s; rewrite length_app; cbn [length]; lia).
  destruct (Z.eqb_spec (Z.of_nat (length s) + 1) 0) as [E|_]; [lia|].
  replace (Z.of_nat (length s) + 1 - 1)%Z with (Z.of_nat (length s)) by lia.
  remember (Z.of_nat (length s)) as L eqn:HL. clear HL.
  unfold s. rewrite unmangle_loop_prefix by (try exact Hb1; lia).
  rewrite Z.add_0_l.
  rewrite unmangle_loop_escape by (try assumption; lia).
  destruct rest as [|c rest].
  - replace (Z.of_nat (length pre) + 4 <? L)%Z with false
      by (symmetry; apply Z.ltb_ge; cbn [length] in Hs; lia).
    rewrite unmangle_loop_prefix.
    + cbn [unmangle_loop]. rewrite app_nil_r. apply until_nul_id.
      rewrite has_char_app, Hn1. unfold has_char. cbn [existsb].
      rewrite (isoctal_not_nul a Ha), (isoctal_not_nul b Hbb),
        (isoctal_not_nul d Hd). reflexivity.
    + unfold has_char. cbn [existsb].
      rewrite (octal_not_backslash a Ha), (octal_not_backslash b Hbb),
        (octal_not_backslash d Hd). reflexivity.
    + cbn [length] in *. lia.
  - replace (Z.of_nat (length pre) + 4 <? L)%Z with true
      by (symmetry; apply Z.ltb_lt; cbn [length] in Hs; lia).
    pose proof (unmangle_loop_prefix (c :: rest) []
                  (Z.of_nat (length pre) + 4)%Z L Hb2)
      as Hp.
    rewrite app_nil_r in Hp. rewrite Hp by lia.
    cbn [unmangle_loop]. rewrite app_nil_r.
    rewrite until_nul_app by exact Hn1.
    change (until_nul (octal_byte a b d :: c :: rest))
      with (if Ascii.eqb (octal_byte a b d) NUL then []
            else octal_byte a b d :: until_nul (c :: rest)).
    destruct (Ascii.eqb (octal_byte a b d) NUL).
    + apply app_nil_r.
    + rewrite (until_nul_id _ Hn2). reflexivity.
Qed.

Lemma unmangle_string_escape_witness :
  unmangle_string (cstr "/mnt/my" ++ BACKSLASH :: cstr "040disk")
  = cstr "/mnt/my disk".
Proof.
  apply (unmangle_string_escape (cstr "/mnt/my") (cstr "disk")
           "0"%char "4"%char "0"%char).
  - reflexivity.
  - reflexivity.
  - reflexivity.
  - reflexivity.
  - reflexivity.
Defined.

(** An escape at the end of a field is left undecoded. *)
Example unmangle_string_trailing_escape :
  unmangle_string (cstr "/mnt/my" ++ BACKSLASH :: cstr "040")
  = cstr "/mnt/my" ++ BACKSLASH :: cstr "040".
Proof. reflexivity. Qed.

(** The escapes 000 and 400 both name the byte NUL and cut the field. *)
Example unmangle_string_nul_escape :
  unmangle_string (cstr "/mnt" ++ BACKSLASH :: cstr "000disk") = cstr "/mnt"
  /\ unmangle_string (cstr "/mnt" ++ BACKSLASH :: cstr "400disk")
     = cstr "/mnt".
Proof. split; reflexivity. Qed.

(** ** The lock handle *)

Lemma errno_code_negative e rc : (rc < 0)%Z -> (errno_code e rc < 0)%Z.
Proof.
  intros H. unfold errno_code. destruct (Z.ltb_spec 0 e); lia.
Qed.

Lemma lock_mtab_loop_outcome maxtime w script : forall ml rc r ml' sleeps,
  locked ml = false ->
  (rc < 0)%Z ->
  lock_mtab_loop ml maxtime w rc script = Some (r, ml', sleeps) ->
  (r = 0%Z /\ locked ml' = true)
  \/ ((r < 0)%Z /\ locked ml' = false /\ lockfile_fd ml' = (-1)%Z).
Proof.
  induction script as [|a script IH]; intros ml rc r ml' sleeps Hl Hrc H;
    [discriminate|].
  cbn [lock_mtab_loop] in H.
  assert (Hfail : forall code m,
            (code < 0)%Z ->
            Some (code, mnt_unlock_file m, @nil Z) = Some (r, ml', sleeps) ->
            (r = 0%Z /\ locked ml' = true)
            \/ ((r < 0)%Z /\ locked ml' = false
                /\ lockfile_fd ml' = (-1)%Z)).
  { intros code m Hc E. inversion E; subst. right. cbn. auto. }
  assert (Hnext : forall m s,
            locked m = false ->
            lock_mtab_loop m maxtime w rc script = Some (r, ml', s) ->
            (r = 0%Z /\ locked ml' = true)
            \/ ((r < 0)%Z /\ locked ml' = false
                /\ lockfile_fd ml' = (-1)%Z)).
  { intros m s Hm E. apply (IH _ _ _ _ _ Hm Hrc E). }
  destruct (sys_link a) as [e|].
  - destruct (e =? EEXIST)%Z;
      [|apply (Hfail _ _ (errno_code_negative e rc Hrc) H)].
    destruct (sys_open a) as [fd|errsv].
    + cbn [locked with_lock_state] in H. rewrite Hl in H.
      set (err := mnt_wait_mtab_lock (now_at_wait a) maxtime (sys_setlkw a))
        in H.
      destruct (Z.eqb_spec err 1);
        [apply (Hfail (- ETIMEDOUT)%Z _ ltac:(unfold ETIMEDOUT; lia) H)|].
      destruct (Z.ltb_spec err 0) as [Herr|Herr];
        [apply (Hfail err _ Herr H)|].
      destruct (lock_mtab_loop _ maxtime w rc script)
        as [[[r1 m1] s1]|] eqn:E; [|discriminate].
      cbn [nanosleep] in H. inversion H; subst.
      refine (Hnext _ _ _ E); reflexivity.
    + cbn [locked with_lock_state] in H.
      destruct ((errsv =? ENOENT)%Z && (now_after_open a <? maxtime)%Z).
      * refine (Hnext _ _ _ H); reflexivity.
      * apply (Hfail _ _ (errno_code_negative errsv rc Hrc) H).
  - destruct (sys_open a) as [fd|errsv].
    + cbn [locked with_lock_state] in H. inversion H; subst. left. auto.
    + cbn [locked with_lock_state] in H.
      destruct ((errsv =? ENOENT)%Z && (now_after_open a <? maxtime)%Z).
      * refine (Hnext _ _ _ H); reflexivity.
      * apply (Hfail _ _ (errno_code_negative errsv rc Hrc) H).
Qed.

(** X25.  The code of [mnt_lock_file] tells who owns the lock.  For a
    handle of the classic mtab lock that is not locked, whatever the
    system answers: when the call returns 0 the handle is marked locked,
    and every other code it returns is negative and leaves the handle
    unlocked. *)
Theorem lock_file_code_tells_ownership (ml : libmnt_lock)
        (ans : simple_answers) (create : sys_result) (t0 : Z)
        (script : list lock_pass) (rc : Z) (ml' : libmnt_lock) :
  simplelock ml = false ->
  locked ml = false ->
  mnt_lock_file (Some ml) ans create t0 script = Some (rc, Some ml') ->
  (rc = 0%Z /\ locked ml' = true) \/ ((rc < 0)%Z /\ locked ml' = false).
Proof.
  intros Hs Hl H. unfold mnt_lock_file in H. rewrite Hs in H.
  destruct (lock_mtab ml create t0 script) as [[[r m] sleeps]|] eqn:E;
    [|discriminate].
  cbn [option_map fst] in H. inversion H; subst r m. clear H.
  unfold lock_mtab in E. rewrite Hl in E.
  destruct (lockfile ml); [|inversion E; subst; right; split; [reflexivity|auto]].
  destruct (linkfile ml);
    [|inversion E; subst; right; split; [reflexivity|auto]].
  destruct create as [e|].
  - inversion E; subst. right. split; [|reflexivity].
    apply errno_code_negative. lia.
  - assert (Hinit : (-1 < 0)%Z) by lia.
    destruct (lock_mtab_loop_outcome _ _ _ _ _ _ _ _ Hl Hinit E)
      as [?|(? & ? & _)]; auto.
Qed.

Lemma lock_file_code_tells_ownership_witness :
  ((- ETIMEDOUT)%Z = 0%Z /\ locked (mnt_unlock_file sample_lock) = true)
  \/ ((- ETIMEDOUT < 0)%Z /\ locked (mnt_unlock_file sample_lock) = false).
Proof.
  apply (lock_file_code_tells_ownership sample_lock no_simple_answers None
           0%Z [busy_pass 100]).
  - reflexivity.
  - reflexivity.
  - reflexivity.
Defined.

Section LockNameFacts.

Variable endswith : cstring -> cstring -> bool.

(** X26.  The name of the lock file survives a switch to the simple lock
    and back.  For a handle made by [mnt_new_lock] for [d], whose lock
    file is [d~]: enabling the simple lock renames it to [d.lock],
    disabling it again gives [d~] and the handle as it was; both calls
    return 0.  [endswith] is asked only about these two names. *)
Theorem simplelock_name_round_trip (d : cstring) (id pid : Z) :
  endswith (d ++ cstr "~") (cstr "~") = true ->
  endswith (d ++ cstr ".lock") (cstr ".lock") = true ->
  exists ml0 ml1,
    mnt_new_lock (Some d) id pid = Some ml0
    /\ mnt_lock_use_simplelock endswith (Some ml0) 1%Z = Some (0%Z, Some ml1)
    /\ lockfile ml1 = Some (d ++ cstr ".lock")
    /\ mnt_lock_use_simplelock endswith (Some ml1) 0%Z = Some (0%Z, Some ml0).
Proof.
  intros H1 H2. eexists. eexists. split; [reflexivity|].
  assert (Hcut1 : firstn (length (d ++ cstr "~") - 1) (d ++ cstr "~") = d).
  { rewrite length_app. cbn [length cstr list_ascii_of_string].
    replace (length d + 1 - 1) with (length d) by lia.
    apply firstn_app_exact. }
  assert (Hcut2 : firstn (length (d ++ cstr ".lock") - 5) (d ++ cstr ".lock")
                  = d).
  { rewrite length_app. cbn [length cstr list_ascii_of_string].
    replace (length d + 5 - 5) with (length d) by lia.
    apply firstn_app_exact. }
  assert (Hsz1 : (length (d ++ cstr "~") <? 1) = false)
    by (apply Nat.ltb_ge; rewrite length_app; simpl; lia).
  assert (Hsz2 : (length (d ++ cstr ".lock") <? 1) = false)
    by (apply Nat.ltb_ge; rewrite length_app; simpl; lia).
  split; [|split].
  - unfold mnt_lock_use_simplelock. cbn [lockfile Z.eqb negb andb].
    rewrite Hsz1, H1, Hcut1. reflexivity.
  - reflexivity.
  - unfold mnt_lock_use_simplelock.
    cbn [lockfile with_lockfile Z.eqb negb andb].
    rewrite Hsz2, H2, Hcut2. reflexivity.
Qed.

End LockNameFacts.

Lemma simplelock_name_round_trip_witness :
  exists ml0 ml1,
    mnt_new_lock (Some (cstr "/etc/mtab")) 0%Z 42%Z = Some ml0
    /\ mnt_lock_use_simplelock sample_endswith (Some ml0) 1%Z
       = Some (0%Z, Some ml1)
    /\ lockfile ml1 = Some (cstr "/etc/mtab.lock")
    /\ mnt_lock_use_simplelock sample_endswith (Some ml1) 0%Z
       = Some (0%Z, Some ml0).
Proof.
  apply (simplelock_name_round_trip sample_endswith (cstr "/etc/mtab")
           0%Z 42%Z).
  - reflexivity.
  - reflexivity.
Defined.

(** ** Setting, prepending and appending the options of an entry *)

Lemma add_part_prepend field l :
  forallb item_ok l = true -> forallb has_name l = true ->
  add_part mnt_optstr_prepend_option field (collected l) 0%Z
  = (0%Z, field_before field l).
Proof.
  intros Hok Hn. unfold add_part. cbn [Z.eqb].
  destruct l as [|x l]; [reflexivity|].
  pose proof (optstr_of_normal_nonempty (x :: l) ltac:(discriminate) Hok Hn)
    as Hne.
  cbn [collected field_before].
  set (p := optstr_of (map normal (x :: l))) in *.
  unfold mnt_optstr_prepend_option.
  unfold mnt_optstr_append_option at 1, __mnt_optstr_append_option.
  cbn [length Nat.eqb app]. rewrite firstn_length_all, app_nil_r.
  destruct field as [[|c s]|]; cbn [Z.eqb]; try reflexivity.
  unfold mnt_optstr_append_option, __mnt_optstr_append_option.
  rewrite firstn_length_all.
  destruct p as [|d p']; [congruence|].
  cbn [length Nat.eqb Z.eqb]. rewrite app_nil_r, <- app_assoc. reflexivity.
Qed.

Lemma field_with_before field a b :
  forallb item_ok (a ++ b) = true -> forallb has_name (a ++ b) = true ->
  field_with (field_before field a) b = field_before (field_with field b) a.
Proof.
  intros Hok Hn. rewrite forallb_app in Hok, Hn.
  apply andb_true_iff in Hok as [Ha Hb]. apply andb_true_iff in Hn as [Hna Hnb].
  destruct a as [|x a]; [reflexivity|].
  destruct b as [|y b]; [reflexivity|].
  pose proof (optstr_of_normal_nonempty (x :: a) ltac:(discriminate) Ha Hna)
    as Hpa.
  pose proof (optstr_of_normal_nonempty (y :: b) ltac:(discriminate) Hb Hnb)
    as Hpb.
  cbn [field_with field_before].
  set (pa := optstr_of (map normal (x :: a))) in *.
  set (pb := optstr_of (map normal (y :: b))) in *.
  f_equal. destruct field as [[|c s]|].
  - destruct pa; [congruence|]. destruct pb; [congruence|]. reflexivity.
  - destruct pa; [congruence|]. cbn [app]. rewrite <- app_assoc. reflexivity.
  - destruct pa; [congruence|]. destruct pb; [congruence|]. reflexivity.
Qed.

Section FsOptionAlgebra.

Variable optmap : Type.
Variable lookup : list optmap -> cstring -> option nat * option mnt_optmap.
Variable linux_map userspace_map : optmap.

Local Abbreviation set_options :=
  (mnt_fs_set_options optmap lookup linux_map userspace_map).
Local Abbreviation append_options :=
  (mnt_fs_append_options optmap lookup linux_map userspace_map).
Local Abbreviation prepend_options :=
  (mnt_fs_prepend_options optmap lookup linux_map userspace_map).
Local Abbreviation part_of_item :=
  (split_part_of (lookup [linux_map; userspace_map]) true true true 0%Z 0%Z).

Lemma prepend_options_items fs its :
  forallb item_ok its = true ->
  forallb has_name its = true ->
  prepend_options fs (Some (optstr_of its))
  = Some (0%Z,
          with_optstrs fs
            (field_before (vfs_optstr fs)
               (filter (fun it => split_part_eqb (part_of_item it) ToVfs) its))
            (field_before (fs_optstr fs)
               (filter (fun it => split_part_eqb (part_of_item it) ToFs) its))
            (field_before (user_optstr fs)
               (filter (fun it => split_part_eqb (part_of_item it) ToUser) its))).
Proof.
  intros Hok Hn. unfold mnt_fs_prepend_options, add_options, split_all.
  rewrite (split_optstr_items optmap lookup linux_map userspace_map its
             true true true 0%Z 0%Z Hok Hn).
  cbn [sp_user sp_vfs sp_fs].
  rewrite !add_part_prepend by (apply forallb_filter; assumption).
  reflexivity.
Qed.

(** X27.  [mnt_fs_set_options] with a well-formed option string (all
    items named) gives what [mnt_fs_append_options] with the same string
    gives on the entry with its three option strings cleared: the same
    code and the same entry. *)
Theorem set_options_is_append_to_none (fs : mnt_fs) (its : list optitem) :
  forallb item_ok its = true ->
  forallb has_name its = true ->
  set_options fs (Some (optstr_of its))
  = append_options (with_optstrs fs None None None) (Some (optstr_of its)).
Proof.
  intros Hok Hn. rewrite append_options_items by assumption.
  unfold mnt_fs_set_options, split_all.
  rewrite (split_optstr_items optmap lookup linux_map userspace_map its
             true true true 0%Z 0%Z Hok Hn).
  cbn [Z.eqb negb sp_user sp_vfs sp_fs vfs_optstr fs_optstr user_optstr
       with_optstrs].
  generalize (filter (fun it => split_part_eqb (part_of_item it) ToVfs) its),
    (filter (fun it => split_part_eqb (part_of_item it) ToFs) its),
    (filter (fun it => split_part_eqb (part_of_item it) ToUser) its).
  intros l1 l2 l3. destruct l1, l2, l3; reflexivity.
Qed.

(** X28.  Prepending and appending commute.  For well-formed options [A]
    and [B] (all items named) and any entry, [mnt_fs_prepend_options]
    with [A] followed by [mnt_fs_append_options] with [B] leaves the
    entry in the state that the two calls in the other order give; all
    four calls return 0. *)
Theorem prepend_and_append_commute (fs : mnt_fs) (A B : list optitem) :
  forallb item_ok (A ++ B) = true ->
  forallb has_name (A ++ B) = true ->
  exists fs1 fs2 fs3,
    prepend_options fs (Some (optstr_of A)) = Some (0%Z, fs1)
    /\ append_options fs1 (Some (optstr_of B)) = Some (0%Z, fs3)
    /\ append_options fs (Some (optstr_of B)) = Some (0%Z, fs2)
    /\ prepend_options fs2 (Some (optstr_of A)) = Some (0%Z, fs3).
Proof.
  intros Hok Hn.
  assert (Hok' := Hok). assert (Hn' := Hn).
  rewrite forallb_app in Hok', Hn'.
  apply andb_true_iff in Hok' as [HA HB].
  apply andb_true_iff in Hn' as [HnA HnB].
  eexists. eexists. eexists.
  split; [apply prepend_options_items; assumption|].
  split; [apply append_options_items; assumption|].
  split; [apply append_options_items; assumption|].
  rewrite prepend_options_items by assumption.
  cbn [vfs_optstr fs_optstr user_optstr with_optstrs].
  rewrite !field_with_before
    by (rewrite forallb_app; apply andb_true_iff; split;
        apply forallb_filter; assumption).
  reflexivity.
Qed.

End FsOptionAlgebra.

Lemma set_options_is_append_to_none_witness :
  mnt_fs_set_options sample_optmap sample_optmap_get_entry SAMPLE_LINUX_MAP
    SAMPLE_USERSPACE_MAP
    (entry_with_options (Some (cstr "rw")) None (Some (cstr "loop")))
    (Some (cstr "ro,user,data=ordered"))
  = mnt_fs_append_options sample_optmap sample_optmap_get_entry
      SAMPLE_LINUX_MAP SAMPLE_USERSPACE_MAP
      (with_optstrs
         (entry_with_options (Some (cstr "rw")) None (Some (cstr "loop")))
         None None None)
      (Some (cstr "ro,user,data=ordered")).
Proof.
  apply (set_options_is_append_to_none sample_optmap sample_optmap_get_entry
           SAMPLE_LINUX_MAP SAMPLE_USERSPACE_MAP
           (entry_with_options (Some (cstr "rw")) None (Some (cstr "loop")))
           [flag_item (cstr "ro"); flag_item (cstr "user");
            value_item (cstr "data") (cstr "ordered")]).
  - reflexivity.
  - reflexivity.
Defined.

Lemma prepend_and_append_commute_witness :
  exists fs1 fs2 fs3,
    mnt_fs_prepend_options sample_optmap sample_optmap_get_entry
      SAMPLE_LINUX_MAP SAMPLE_USERSPACE_MAP
      (entry_with_options (Some (cstr "noexec")) None None)
      (Some (cstr "ro,user")) = Some (0%Z, fs1)
    /\ mnt_fs_append_options sample_optmap sample_optmap_get_entry
         SAMPLE_LINUX_MAP SAMPLE_USERSPACE_MAP fs1
         (Some (cstr "nosuid,data=ordered")) = Some (0%Z, fs3)
    /\ mnt_fs_append_options sample_optmap sample_optmap_get_entry
         SAMPLE_LINUX_MAP SAMPLE_USERSPACE_MAP
         (entry_with_options (Some (cstr "noexec")) None None)
         (Some (cstr "nosuid,data=ordered")) = Some (0%Z, fs2)
    /\ mnt_fs_prepend_options sample_optmap sample_optmap_get_entry
         SAMPLE_LINUX_MAP SAMPLE_USERSPACE_MAP fs2
         (Some (cstr "ro,user")) = Some (0%Z, fs3).
Proof.
  apply (prepend_and_append_commute sample_optmap sample_optmap_get_entry
           SAMPLE_LINUX_MAP SAMPLE_USERSPACE_MAP
           (entry_with_options (Some (cstr "noexec")) None None)
           [flag_item (cstr "ro"); flag_item (cstr "user")]
           [flag_item (cstr "nosuid");
            value_item (cstr "data") (cstr "ordered")]).
  - reflexivity.
  - reflexivity.
Defined.

(** X29.  [mnt_fs_match_target] accepts an entry whose target has the
    canonical form of the path, swap or not: when the cache resolves the
    path and the target of the entry to the same name, the entry
    matches. *)
Theorem match_target_same_canonical_form (fs : mnt_fs) (t ft cn : cstring)
        (c : mnt_cache) :
  target fs = Some ft ->
  mnt_resolve_path c t = Some cn ->
  mnt_resolve_path c ft = Some cn ->
  mnt_fs_match_target fs (Some t) (Some c) = true.
Proof.
  intros Ht Hc Hf. unfold mnt_fs_match_target, mnt_fs_get_target.
  rewrite Ht. destruct (mnt_fs_streq_target fs (Some t)); [reflexivity|].
  rewrite Hc. destruct (streq cn ft); [reflexivity|].
  rewrite Hf. apply cstring_eqb_refl.
Qed.

Lemma match_target_same_canonical_form_witness :
  mnt_fs_match_target home_entry (Some (cstr "/home")) (Some sample_cache)
  = true.
Proof.
  apply (match_target_same_canonical_form home_entry (cstr "/home")
           (cstr "/mnt/../home") (cstr "/home") sample_cache).
  - reflexivity.
  - reflexivity.
  - reflexivity.
Defined.

(** ** The simple lock *)

Lemma flock_loop_retries ml retries : forall rest,
  forallb is_retry retries = true ->
  flock_loop ml (retries ++ None :: rest)
  = Some (0%Z, with_lock_state ml (lockfile_fd ml) true).
Proof.
  induction retries as [|r retries IH]; intros rest Hall; [reflexivity|].
  cbn [forallb] in Hall. apply andb_true_iff in Hall as [Hr Hrest].
  cbn [app flock_loop]. destruct r as [e|]; [|discriminate].
  cbn [is_retry] in Hr. rewrite Hr. apply IH. exact Hrest.
Qed.

(** X30.  The simple lock retries an interrupted [flock]: when the lock
    file opens, its mode is right or can be set, and [flock] fails with
    EAGAIN or EINTR any number of times before it succeeds,
    [mnt_lock_file] on a simple-lock handle returns 0 and the handle is
    marked locked, with the descriptor of the lock file. *)
Theorem simplelock_retries_interrupted_flock (ml : libmnt_lock)
        (ans : simple_answers) (fd mode : Z)
        (retries rest : list sys_result) (create : sys_result) (t0 : Z)
        (script : list lock_pass) :
  simplelock ml = true ->
  sl_open ans = inl fd ->
  sl_fstat ans = inl mode ->
  Z.land mode lock_mask = lock_mask \/ sl_fchmod ans = None ->
  sl_flock ans = retries ++ None :: rest ->
  forallb is_retry retries = true ->
  mnt_lock_file (Some ml) ans create t0 script
  = Some (0%Z, Some (with_lock_state ml fd true)).
Proof.
  intros Hs Ho Hf Hm Hfl Hall.
  unfold mnt_lock_file, lock_simplelock. rewrite Hs, Ho, Hf.
  assert (Hch : (if negb (Z.land mode lock_mask =? lock_mask)%Z
                 then sl_fchmod ans else None) = None).
  { destruct Hm as [Hm|Hm].
    - rewrite Hm, Z.eqb_refl. reflexivity.
    - rewrite Hm. destruct (negb _); reflexivity. }
  rewrite Hch, Hfl, flock_loop_retries by exact Hall. reflexivity.
Qed.

Lemma simplelock_retries_interrupted_flock_witness :
  mnt_lock_file (Some sample_simplelock) interrupted_answers None 0%Z []
  = Some (0%Z, Some (with_lock_state sample_simplelock 3%Z true)).
Proof.
  apply (simplelock_retries_interrupted_flock sample_simplelock
           interrupted_answers 3%Z 420%Z [Some EINTR; Some EAGAIN] []).
  - reflexivity.
  - reflexivity.
  - reflexivity.
  - left. reflexivity.
  - reflexivity.
  - reflexivity.
Defined.
